(** * portage-jobsmon: the monitoring and rendering core

    A shallow embedding of [portage-jobsmon.py]: the [Screen] class (window
    registry, tiling layout, bounded backlog, ECMA-48 interpreter), the lock
    probe [check_lock], and the inotify handlers and timer tick of
    [cursesmain].  The properties of the design document are stated and
    settled against this embedding at the end of the file. *)

From Stdlib Require Import ZArith List String Ascii Bool Lia.
From stdpp Require Import base option list sorting gmap strings pretty.

Local Open Scope Z_scope.

(** ** Python values *)

(** Python strings are sequences of characters; the embedding uses lists of
    8-bit characters, which covers the ASCII control sequences the interpreter
    looks for. *)
Abbreviation text := (list ascii).

Definition txt (s : string) : text := list_ascii_of_string s.

Definition ESC : ascii := "027"%char.
Definition BEL : ascii := "007"%char.
Definition LF : ascii := "010"%char.

(** Exceptions that the modelled code can raise.  Nothing in the program
    catches them, so a raised exception ends the run. *)
Inductive Exn : Type :=
  | ZeroDivisionError
  | IndexError
  | ValueError
  | IOError
  | AssertionError
  | TypeError
  | Exception (msg : string).

Inductive Result (A : Type) : Type :=
  | Ok (a : A)
  | Raise (e : Exn).
Arguments Ok {A} a.
Arguments Raise {A} e.

Definition bind {A B} (m : Result A) (k : A -> Result B) : Result B :=
  match m with
  | Ok a => k a
  | Raise e => Raise e
  end.

Notation "'let!' x := m 'in' k" := (bind m (fun x => k))
  (at level 10, x pattern, m at level 100, k at level 200).

(** [for x in l: body] threading a state, stopping at the first exception. *)
Fixpoint foldM {A S} (body : A -> S -> Result S) (l : list A) (s : S) : Result S :=
  match l with
  | [] => Ok s
  | x :: l' => let! s' := body x s in foldM body l' s'
  end.

(** Normalisation of a slice bound [k] against a sequence of length [L]:
    negative bounds count from the end, and bounds are clipped to [0, L]. *)
Definition py_bound (L k : Z) : Z :=
  if k <? 0 then Z.max (L + k) 0 else Z.min k L.

(** [s[lo:hi]], a missing bound being [None]. *)
Definition slice {A} (lo hi : option Z) (s : list A) : list A :=
  let L := Z.of_nat (length s) in
  let a := match lo with Some k => py_bound L k | None => 0 end in
  let b := match hi with Some k => py_bound L k | None => L end in
  take (Z.to_nat (b - a)) (drop (Z.to_nat a) s).

(** [s.startswith(p)] and [s.endswith(p)]. *)
Fixpoint startswith (s p : text) : bool :=
  match p, s with
  | [], _ => true
  | c :: p', d :: s' => Ascii.eqb c d && startswith s' p'
  | _ :: _, [] => false
  end.

Definition endswith (s p : text) : bool := startswith (rev s) (rev p).

(** [s.split(sep)] for a one-character separator: never empty. *)
Fixpoint split_on (sep : ascii) (s : text) : list text :=
  match s with
  | [] => [[]]
  | c :: s' =>
      if Ascii.eqb c sep then [] :: split_on sep s'
      else match split_on sep s' with
           | w :: ws => (c :: w) :: ws
           | [] => [[c]]
           end
  end.

(** [sep.join(l)]. *)
Fixpoint join (sep : text) (l : list text) : text :=
  match l with
  | [] => []
  | [w] => w
  | w :: l' => w ++ sep ++ join sep l'
  end.

Definition is_digit (c : ascii) : bool :=
  let n := Z.of_N (N_of_ascii c) in (48 <=? n) && (n <=? 57).

(** [int(a, 10)] on a string of decimal digits. *)
Definition int10 (a : text) : Z :=
  fold_left (fun acc c => 10 * acc + (Z.of_N (N_of_ascii c) - 48)) a 0.

Definition text_eqb (a b : text) : bool := bool_decide (a = b).

(** ** The escape pattern

    [escregex] is [(\x1b\[(?:\d*;)*\d*[a-zA-Z@`]|\07)].  After [ESC \[] the
    pattern takes a run of digits and semicolons and then one final character;
    the final class is disjoint from the parameter class, so the only possible
    match takes the longest run. *)
Definition is_param (c : ascii) : bool := is_digit c || Ascii.eqb c ";".

Definition is_final (c : ascii) : bool :=
  let n := Z.of_N (N_of_ascii c) in
  ((97 <=? n) && (n <=? 122)) || ((65 <=? n) && (n <=? 90))
  || (n =? 64) || (n =? 96).

(** The tail of a candidate match after [ESC \[]: [m] is the match read so
    far and [r] what follows.  A run of parameter characters and a final
    character complete the match: the literal run [lit] that precedes it,
    the match, and the split [cont] of the rest.  Anything else is no match,
    and the split is [literal], the one that takes [ESC] as plain text. *)
Definition csi_tail (cont : text -> list text) (literal : list text)
    (lit : text) : text -> text -> list text :=
  fix params (m r : text) {struct r} : list text :=
    match r with
    | [] => literal
    | p :: r' =>
        if is_param p then params (m ++ [p]) r'
        else if is_final p then lit :: (m ++ [p]) :: cont r'
        else literal
    end.

(** [escregex.split(text)]: literal runs at even positions, the matched
    sequences at odd positions.  [lit] is the literal run read so far. *)
Fixpoint escregex_split_from (lit : text) (s : text) {struct s} : list text :=
  match s with
  | [] => [lit]
  | c :: s1 =>
      if Ascii.eqb c BEL then lit :: [c] :: escregex_split_from [] s1
      else
        let literal := escregex_split_from (lit ++ [c]) s1 in
        if Ascii.eqb c ESC then
          match s1 with
          | d :: s2 =>
              if Ascii.eqb d "["
              then csi_tail (escregex_split_from []) literal lit [c; d] s2
              else literal
          | [] => literal
          end
        else literal
  end.

Definition escregex_split (s : text) : list text := escregex_split_from [] s.

Example escregex_split_scenario :
  escregex_split (txt "abc" ++ [ESC] ++ txt "[31mred" ++ [ESC] ++ txt "[0mdef")
  = [txt "abc"; ESC :: txt "[31m"; txt "red"; ESC :: txt "[0m"; txt "def"].
Proof. reflexivity. Qed.

Example escregex_split_incomplete :
  escregex_split (txt "a" ++ [ESC] ++ txt "[12;" ++ [LF] ++ [BEL] ++ txt "b")
  = [txt "a" ++ [ESC] ++ txt "[12;" ++ [LF]; [BEL]; txt "b"].
Proof. reflexivity. Qed.

(** ** External collaborators

    Everything the program reads from outside is gathered in a [World]: the
    clock, the terminal, the file system and the behaviour of the curses
    library that the program does not decide.  One [World] is the
    environment of one top-level call (a handler or a timer tick).

    The calls into curses are modelled as far as they return: [newwin],
    [addstr], [attrset] and [move] below are total, whereas the library
    raises [curses.error] when, for instance, text reaches the end of a
    window that does not scroll (the one-row status and title bars) or holds
    a NUL character.  An [Ok] of the model therefore says what the program
    has done provided no curses call failed, and the properties below are
    stated for calls that return. *)

(** What [check_lock] finds at a lock path. *)
Inductive LockProbe : Type :=
  | LockAbsent            (* open() fails with IOError *)
  | LockHeld              (* lockf fails with EACCES or EAGAIN *)
  | LockFree              (* lockf succeeds *)
  | LockError.            (* lockf fails with another errno *)

Record World : Type := {
  now : Z;                                  (* time.time() *)
  getmaxyx : Z * Z;                         (* root.getmaxyx() *)
  COLOR_PAIRS : Z;                          (* curses.COLOR_PAIRS *)
  waddstr_yx : Z * Z -> Z * Z -> text -> Z * Z;
    (* cursor after addstr, from the window size and the cursor before *)
  file_read : nat -> text;                  (* file.read() of a tailer *)
  can_open : text -> bool;                  (* codecs.open succeeds *)
  lock_probe : text -> LockProbe;
  glob_locks : text -> list (Z * text)      (* lock files with their mtime *)
}.

(** Command-line options ([optparse] defaults apart). *)
Record Opts : Type := {
  debug : bool;
  watchfetch : bool;
  omitrunning : bool;
  tempdir : list text;
  vbell : bool;
  vabell : bool;
  inact : Z;
  opt_lockcheck : Z;                        (* opts.lockcheck *)
  lockfind : Z;
  pullint : Z
}.

(** *** curses *)

Definition A_UNDERLINE : Z := Z.shiftl 1 17.
Definition A_REVERSE : Z := Z.shiftl 1 18.
Definition A_BLINK : Z := Z.shiftl 1 19.
Definition A_DIM : Z := Z.shiftl 1 20.
Definition A_BOLD : Z := Z.shiftl 1 21.
Definition color_pair (n : Z) : Z := Z.shiftl n 8.
Definition COLOR_RED : Z := 1.

(** A curses window: its geometry, cursor and current attribute, and the
    runs written to it so far, each with the attribute it was written in. *)
Record CWin : Type := {
  cw_maxyx : Z * Z;
  cw_begyx : Z * Z;
  cw_yx : Z * Z;
  cw_attr : Z;
  cw_out : list (Z * text)
}.

Definition newwin (nlines ncols begin_y begin_x : Z) : CWin :=
  {| cw_maxyx := (nlines, ncols); cw_begyx := (begin_y, begin_x);
     cw_yx := (0, 0); cw_attr := 0; cw_out := [] |}.

Definition addstr (W : World) (s : text) (c : CWin) : CWin :=
  {| cw_maxyx := cw_maxyx c; cw_begyx := cw_begyx c;
     cw_yx := waddstr_yx W (cw_maxyx c) (cw_yx c) s;
     cw_attr := cw_attr c; cw_out := cw_out c ++ [(cw_attr c, s)] |}.

Definition addstr_attr (W : World) (s : text) (a : Z) (c : CWin) : CWin :=
  {| cw_maxyx := cw_maxyx c; cw_begyx := cw_begyx c;
     cw_yx := waddstr_yx W (cw_maxyx c) (cw_yx c) s;
     cw_attr := cw_attr c; cw_out := cw_out c ++ [(a, s)] |}.

Definition attrset (a : Z) (c : CWin) : CWin :=
  {| cw_maxyx := cw_maxyx c; cw_begyx := cw_begyx c; cw_yx := cw_yx c;
     cw_attr := a; cw_out := cw_out c |}.

Definition move (y x : Z) (c : CWin) : CWin :=
  {| cw_maxyx := cw_maxyx c; cw_begyx := cw_begyx c; cw_yx := (y, x);
     cw_attr := cw_attr c; cw_out := cw_out c |}.

Definition bkgd (a : Z) (c : CWin) : CWin := attrset a c.

Inductive Bell : Type := Beep | Flash.

(** ** The escape interpreter ([Screen.append], lines 195-289) *)

(** The interpreter's locals [mode], [fgcol], [bgcol], the window it draws
    into, and the two pieces of [Screen] it touches: the colour-pair cache
    [self.colors] and the terminal bell. *)
Record Draw : Type := {
  d_mode : Z;
  d_fgcol : Z;
  d_bgcol : Z;
  d_win : CWin;
  d_colors : gmap (Z * Z) Z;
  d_bell : list Bell
}.

Definition set_pen (m f b : Z) (d : Draw) : Draw :=
  {| d_mode := m; d_fgcol := f; d_bgcol := b; d_win := d_win d;
     d_colors := d_colors d; d_bell := d_bell d |}.

Definition set_win (c : CWin) (d : Draw) : Draw :=
  {| d_mode := d_mode d; d_fgcol := d_fgcol d; d_bgcol := d_bgcol d;
     d_win := c; d_colors := d_colors d; d_bell := d_bell d |}.

Definition set_colors (k : gmap (Z * Z) Z) (d : Draw) : Draw :=
  {| d_mode := d_mode d; d_fgcol := d_fgcol d; d_bgcol := d_bgcol d;
     d_win := d_win d; d_colors := k; d_bell := d_bell d |}.

Definition ring (b : list Bell) (d : Draw) : Draw :=
  {| d_mode := d_mode d; d_fgcol := d_fgcol d; d_bgcol := d_bgcol d;
     d_win := d_win d; d_colors := d_colors d; d_bell := d_bell d ++ b |}.

(** [Screen.getcolor]. *)
Definition getcolor (o : Opts) (W : World) (fg bg : Z) (d : Draw)
  : Result (Z * Draw) :=
  match d_colors d !! (fg, bg) with
  | Some n => Ok (color_pair n, d)
  | None =>
      let n := Z.of_nat (size (d_colors d)) in
      if COLOR_PAIRS W <=? n then
        if debug o then Raise (Exception "COLOR_PAIRS exceeded")
        else Ok (color_pair 0, d)
      else Ok (color_pair n, set_colors (<[(fg, bg) := n]> (d_colors d)) d)
  end.

Definition attrmapping : list (option Z) :=
  [None; Some A_BOLD; Some A_DIM; None;
   Some A_UNDERLINE; Some A_BLINK; None; Some A_REVERSE].

Definition colrmapping : list Z := [0; 1; 2; 3; 4; 5; 6; 7].

Definition attr_at (a : Z) : Z :=
  default 0 (mjoin (attrmapping !! Z.to_nat a)).

Definition colr_at (a : Z) : Z := default 0 (colrmapping !! Z.to_nat a).

Definition Z_in (a : Z) (l : list Z) : bool := bool_decide (a ∈ l).

(** One SGR parameter, already converted by [int(a, 10)]. *)
Definition sgr_param (o : Opts) (a : Z) (d : Draw) : Result Draw :=
  if a =? 0 then Ok (set_pen 0 (-1) (-1) d)
  else if Z_in a [1; 2; 4; 5; 7]
  then Ok (set_pen (Z.lor (d_mode d) (attr_at a)) (d_fgcol d) (d_bgcol d) d)
  else if Z_in a [21; 22]
  then Ok (set_pen (Z.land (d_mode d) (Z.lnot (Z.lor (attr_at 1) (attr_at 2))))
             (d_fgcol d) (d_bgcol d) d)
  else if Z_in a [24; 25; 27]
  then Ok (set_pen (Z.land (d_mode d) (Z.lnot (attr_at (a mod 20))))
             (d_fgcol d) (d_bgcol d) d)
  else if (30 <=? a) && (a <=? 37)
  then Ok (set_pen (d_mode d) (colr_at (a mod 30)) (d_bgcol d) d)
  else if a =? 38
  then Ok (set_pen (Z.lor (d_mode d) A_UNDERLINE) (-1) (d_bgcol d) d)
  else if a =? 39
  then Ok (set_pen (Z.land (d_mode d) (Z.lnot A_UNDERLINE)) (-1) (d_bgcol d) d)
  else if (40 <=? a) && (a <=? 47)
  then Ok (set_pen (d_mode d) (d_fgcol d) (colr_at (a mod 40)) d)
  else if a =? 49
  then Ok (set_pen (d_mode d) (d_fgcol d) (-1) d)
  else if debug o then Raise (Exception "Unsupported SGR")
  else Ok d.

(** [func == 'm']: every parameter in turn, then [attrset]. *)
Definition sgr (o : Opts) (W : World) (args : list text) (d : Draw)
  : Result Draw :=
  let! d1 := foldM (fun a d =>
                 sgr_param o (if text_eqb a [] then 0 else int10 a) d) args d in
  let! (cp, d2) := getcolor o W (d_fgcol d1) (d_bgcol d1) d1 in
  Ok (set_win (attrset (Z.lor (d_mode d2) cp) (d_win d2)) d2).

Definition ord (c : ascii) : Z := Z.of_N (N_of_ascii c).

Definition clamp (v hi : Z) : Z :=
  if v <? 0 then 0 else if v >=? hi then hi - 1 else v.

(** The cursor branch (lines 250-287), for a final character [func]. *)
Definition cursor (func : ascii) (args : list text) (c : CWin)
  : Result CWin :=
  let '(y, x) := cw_yx c in
  let max := cw_maxyx c in
  let! a0 := match args with a :: _ => Ok a | [] => Raise IndexError end in
  let arg := if text_eqb a0 [] then 1 else int10 a0 in
  let! (y, x) :=
    if Ascii.eqb func "A" || Ascii.eqb func "F" then Ok (y - arg, x)
    else if Ascii.eqb func "B" || Ascii.eqb func "E" then Ok (y + arg, x)
    else if Ascii.eqb func "C" then Ok (y, x + arg)
    else if Ascii.eqb func "D" then Ok (y, x - arg)
    else if Ascii.eqb func "G" then Ok (y, arg - 1)
    else if Ascii.eqb func "H" then
      match args !! 1%nat with
      | Some a1 => Ok (arg - 1, if text_eqb a1 [] then 0 else int10 a1 - 1)
      | None => Raise IndexError
      end
    else Ok (y, x) in
  let x := if Ascii.eqb func "E" || Ascii.eqb func "F" then 1 else x in
  Ok (move (clamp y (fst max)) (clamp x (snd max)) c).

(** One matched [ESC \[ ... func] sequence. *)
Definition csi (o : Opts) (W : World) (seq : text) (d : Draw) : Result Draw :=
  let! func := match last seq with Some f => Ok f | None => Raise IndexError end in
  let args := split_on ";" (slice (Some 2) (Some (-1)) seq) in
  if Ascii.eqb func "m" then sgr o W args d
  else if (ord "A" <=? ord func) && (ord func <? ord "H")
  then let! c := cursor func args (d_win d) in Ok (set_win c d)
  else if debug o then Raise (Exception "Unsupported func")
  else Ok d.

(** The body of [for i in range(len(ptext))]. *)
Definition interp_item (o : Opts) (W : World) (i : nat) (p : text) (d : Draw)
  : Result Draw :=
  if Nat.even i then Ok (set_win (addstr W p (d_win d)) d)
  else
    let! c0 := match p with c :: _ => Ok c | [] => Raise IndexError end in
    if Ascii.eqb c0 BEL then
      let d1 := if vabell o || negb (vbell o) then ring [Beep] d else d in
      Ok (if vbell o then ring [Flash] d1 else d1)
    else csi o W p d.

Fixpoint interp (o : Opts) (W : World) (i : nat) (ptext : list text) (d : Draw)
  : Result Draw :=
  match ptext with
  | [] => Ok d
  | p :: rest => let! d' := interp_item o W i p d in interp o W (S i) rest d'
  end.

(** ** Job windows and the screen *)

(** A job window is a [FileTailer] object with the attributes [addwin] and
    [redraw] attach to it.  [wid] stands for the identity of the Python
    object: [self.inactive] holds the same objects as [self.windows], and
    membership there is by identity.

    [stream] and [lastdata] are history variables of the verification; no
    modelled code reads them.  [stream] is all text ever appended to the
    window, [lastdata] the time of the last append of pulled data. *)
Record Window : Type := {
  wid : nat;
  fn : text;
  pullts : Z;
  basedir : text;
  lockfn : option text;
  backlog : text;
  activity : Z;
  lockcheck : Z;
  expectclose : Z;
  newline : bool;
  win : option CWin;
  nwin : option CWin;
  stream : text;
  lastdata : Z
}.

Definition set_pullts (v : Z) (w : Window) : Window :=
  {| wid := wid w; fn := fn w; pullts := v; basedir := basedir w;
     lockfn := lockfn w; backlog := backlog w; activity := activity w;
     lockcheck := lockcheck w; expectclose := expectclose w;
     newline := newline w; win := win w; nwin := nwin w;
     stream := stream w; lastdata := lastdata w |}.

Definition set_activity (v : Z) (w : Window) : Window :=
  {| wid := wid w; fn := fn w; pullts := pullts w; basedir := basedir w;
     lockfn := lockfn w; backlog := backlog w; activity := v;
     lockcheck := lockcheck w; expectclose := expectclose w;
     newline := newline w; win := win w; nwin := nwin w;
     stream := stream w; lastdata := lastdata w |}.

Definition set_lockcheck (v : Z) (w : Window) : Window :=
  {| wid := wid w; fn := fn w; pullts := pullts w; basedir := basedir w;
     lockfn := lockfn w; backlog := backlog w; activity := activity w;
     lockcheck := v; expectclose := expectclose w;
     newline := newline w; win := win w; nwin := nwin w;
     stream := stream w; lastdata := lastdata w |}.

Definition set_expectclose (v : Z) (w : Window) : Window :=
  {| wid := wid w; fn := fn w; pullts := pullts w; basedir := basedir w;
     lockfn := lockfn w; backlog := backlog w; activity := activity w;
     lockcheck := lockcheck w; expectclose := v;
     newline := newline w; win := win w; nwin := nwin w;
     stream := stream w; lastdata := lastdata w |}.

Definition set_newline (v : bool) (w : Window) : Window :=
  {| wid := wid w; fn := fn w; pullts := pullts w; basedir := basedir w;
     lockfn := lockfn w; backlog := backlog w; activity := activity w;
     lockcheck := lockcheck w; expectclose := expectclose w;
     newline := v; win := win w; nwin := nwin w;
     stream := stream w; lastdata := lastdata w |}.

Definition set_wins (c n : option CWin) (w : Window) : Window :=
  {| wid := wid w; fn := fn w; pullts := pullts w; basedir := basedir w;
     lockfn := lockfn w; backlog := backlog w; activity := activity w;
     lockcheck := lockcheck w; expectclose := expectclose w;
     newline := newline w; win := c; nwin := n;
     stream := stream w; lastdata := lastdata w |}.

(** [w.backlog = bl], recording in the history variables the text that was
    appended and when. *)
Definition set_backlog (bl appended : text) (t : Z) (w : Window) : Window :=
  {| wid := wid w; fn := fn w; pullts := pullts w; basedir := basedir w;
     lockfn := lockfn w; backlog := bl; activity := activity w;
     lockcheck := lockcheck w; expectclose := expectclose w;
     newline := newline w; win := win w; nwin := nwin w;
     stream := stream w ++ appended; lastdata := t |}.

Record Screen : Type := {
  sbar : option CWin;
  windows : list Window;
  inactive : list nat;
  colors : gmap (Z * Z) Z;
  firstpdir : text;
  backloglen : Z;
  bells : list Bell
}.

Definition set_windows (ws : list Window) (s : Screen) : Screen :=
  {| sbar := sbar s; windows := ws; inactive := inactive s;
     colors := colors s; firstpdir := firstpdir s;
     backloglen := backloglen s; bells := bells s |}.

Definition set_inactive (l : list nat) (s : Screen) : Screen :=
  {| sbar := sbar s; windows := windows s; inactive := l;
     colors := colors s; firstpdir := firstpdir s;
     backloglen := backloglen s; bells := bells s |}.

(** The window with identity [id], and an attribute update through a
    reference to it. *)
Definition getwin (id : nat) (s : Screen) : option Window :=
  find (fun w => Nat.eqb (wid w) id) (windows s).

Definition modify (id : nat) (f : Window -> Window) (s : Screen) : Screen :=
  set_windows
    (map (fun w => if Nat.eqb (wid w) id then f w else w) (windows s)) s.

Definition is_inactive (id : nat) (s : Screen) : bool :=
  bool_decide (id ∈ inactive s).

(** [l.remove(x)] on a list without the [ValueError] case. *)
Fixpoint list_remove (x : nat) (l : list nat) : list nat :=
  match l with
  | [] => []
  | y :: l' => if Nat.eqb x y then l' else y :: list_remove x l'
  end.

(** [Screen.findwin]. *)
Definition findwin (bd : text) (s : Screen) : option Window :=
  find (fun w => text_eqb (basedir w) bd) (windows s).

(** *** Appending to one window ([Screen.append], lines 183-291) *)

(** The part of [Screen.append] that follows the reactivation test: the
    backlog update and the drawing.  It acts on the window [w] and on the
    colour cache and bell of the screen. *)
Definition append_window (o : Opts) (W : World) (bllen : Z) (t : text)
    (omitbacklog : bool) (w : Window) (k : gmap (Z * Z) Z * list Bell)
  : Result (Window * (gmap (Z * Z) Z * list Bell)) :=
  let w1 :=
    if omitbacklog then w
    else let bl := backlog w ++ t in
         set_backlog (slice (Some (- bllen)) None bl) t (now W) w in
  match win w1 with
  | None => Ok (w1, k)
  | Some c =>
      (* delay newlines to avoid wasting vertical space *)
      let c1 := if newline w1 then addstr W [LF] c else c in
      let nl := endswith t [LF] in
      let t1 := if nl then slice None (Some (-1)) t else t in
      (* parse ECMA-48 CSI *)
      let d0 := {| d_mode := 0; d_fgcol := -1; d_bgcol := -1; d_win := c1;
                   d_colors := fst k; d_bell := snd k |} in
      let! d := interp o W 0 (escregex_split t1) d0 in
      Ok (set_wins (Some (d_win d)) (nwin w1) (set_newline nl w1),
          (d_colors d, d_bell d))
  end.

(** *** Layout ([Screen.redraw]) *)

(** Lines 115-124: rows per job, number of jobs shown, and the counter of
    jobs that get one row more.  The division is Python 2's integer division
    (Python 3's [int(a / b)] agrees with it when [height - 1] is not
    negative); [% jobcount] raises when [jobcount] has become 0. *)
Definition layout (height jobcount : Z) : Result (Z * Z * Z) :=
  let jobrows := (height - 1) / jobcount in
  let jobrowsleft := (height - 1) mod jobcount in
  let! (jobrows, jobcount, jobrowsleft) :=
    if jobrows <? 4 then
      let jobrows := 4 in
      let jobcount := (height - 1) / jobrows in
      if jobcount =? 0 then Raise ZeroDivisionError
      else Ok (jobrows, jobcount, (height - 1) mod jobcount)
    else Ok (jobrows, jobcount, jobrowsleft) in
  if jobrowsleft >? 0 then Ok (jobrows + 1, jobcount, jobrowsleft + 1)
  else Ok (jobrows, jobcount, jobrowsleft).

Record Tiling : Type := {
  jobrows : Z;
  jobcount : Z;
  jobrowsleft : Z;
  starty : Z
}.

(** [s.split(sep, n)] and [s.rsplit(sep, n)] for a one-character separator. *)
Fixpoint split_max (sep : ascii) (s : text) (n : nat) {struct s} : list text :=
  match n, s with
  | O, _ => [s]
  | _, [] => [[]]
  | S n', c :: s' =>
      if Ascii.eqb c sep then [] :: split_max sep s' n'
      else match split_max sep s' n with
           | w :: ws => (c :: w) :: ws
           | [] => [[c]]
           end
  end.

Definition rsplit (sep : ascii) (s : text) (n : nat) : list text :=
  rev (map (@rev ascii) (split_max sep (rev s) n)).

(** The title bar under a window (lines 143-152). *)
Definition title_bar (W : World) (fpd : text) (w : Window) (n : CWin) : CWin :=
  let n := bkgd A_REVERSE n in
  if text_eqb (basedir w) (txt "_fetch")
  then addstr W (txt "(parallel fetch)") (move 0 0 n)
  else
    let dir := rsplit "/" (basedir w) 2 in
    let n := addstr W (txt "[" ++ join (txt "/") (slice (Some 1) (Some 3) dir)
                         ++ txt "]") (move 0 0 n) in
    let d0 := default [] (head dir) in
    if text_eqb d0 fpd then n
    else addstr_attr W (txt " (in " ++ d0 ++ txt ")") A_DIM n.

(** The loop of lines 127-157 over [self.windows].  The call
    [self.append(w, w.backlog, True)] is made for a window that is not
    inactive, so it sets [w.activity] and goes on to the drawing part. *)
Fixpoint tile (o : Opts) (W : World) (width bllen : Z) (inact : list nat)
    (fpd : text) (ws : list Window) (t : Tiling)
    (k : gmap (Z * Z) Z * list Bell)
  : Result (list Window * (gmap (Z * Z) Z * list Bell)) :=
  match ws with
  | [] => Ok ([], k)
  | w :: rest =>
      if negb (bool_decide (wid w ∈ inact)) && (jobcount t >? 0) then
        let left1 := if jobrowsleft t >? 0 then jobrowsleft t - 1
                     else jobrowsleft t in
        let rows1 := if (jobrowsleft t >? 0) && (left1 =? 0)
                     then jobrows t - 1 else jobrows t in
        let c := move 0 0 (newwin (rows1 - 1) width (starty t) 0) in
        let w1 := set_activity (now W)
                    (set_newline false (set_wins (Some c) None w)) in
        let! (w2, k2) := append_window o W bllen (backlog w1) true w1 k in
        let starty1 := starty t + rows1 in
        let n := title_bar W fpd w2 (newwin 1 width (starty1 - 1) 0) in
        let! (rest', k3) :=
          tile o W width bllen inact fpd rest
            {| jobrows := rows1; jobcount := jobcount t - 1;
               jobrowsleft := left1; starty := starty1 |} k2 in
        Ok (set_wins (win w2) (Some n) w2 :: rest', k3)
      else (* job won't fit on the screen *)
        let! (rest', k') := tile o W width bllen inact fpd rest t k in
        Ok (set_wins None None w :: rest', k')
  end.

Definition str_of_Z (z : Z) : text :=
  txt (pretty z).

(** The status bar (lines 99-111). *)
Definition status_bar (W : World) (mergecount : Z) (c : CWin) : CWin :=
  let c := addstr_attr W (txt "portage-jobsmon.py") A_BOLD (move 0 0 c) in
  if mergecount =? 0
  then addstr W (txt " (waiting for some merge to start)") c
  else
    let c := addstr W (txt " (monitoring ") c in
    if mergecount =? 1
    then addstr W (txt " merge process)") (addstr_attr W (txt "single") A_BOLD c)
    else addstr W (txt " parallel merges)")
           (addstr_attr W (str_of_Z mergecount) A_BOLD c).

(** [Screen.redraw].  A deleted attribute ([del w.win]) is modelled as
    [None]; [redraw] assigns [w.win] and [w.nwin] again for every window
    before it returns. *)
Definition redraw (o : Opts) (W : World) (s : Screen) : Result Screen :=
  let '(height, width) := getmaxyx W in
  (* get so much backlog so we could fill in the whole window
     if a merge becomes the only one left *)
  let bllen := (height - 2) * width in
  let jobcount := Z.of_nat (length (windows s)) in
  let mergecount :=
    Z.of_nat (length (filter (fun w => negb (startswith (basedir w) (txt "_")))
                        (windows s))) in
  let sb := status_bar W mergecount (newwin 1 width (height - 1) 0) in
  let jobcount := jobcount - Z.of_nat (length (inactive s)) in
  if jobcount >? 0 then
    let! (rows, shown, extra) := layout height jobcount in
    let! (ws, k) :=
      tile o W width bllen (inactive s) (firstpdir s) (windows s)
        {| jobrows := rows; jobcount := shown; jobrowsleft := extra;
           starty := 0 |} (colors s, bells s) in
    Ok {| sbar := Some sb; windows := ws; inactive := inactive s;
          colors := fst k; firstpdir := firstpdir s; backloglen := bllen;
          bells := snd k |}
  else
    Ok {| sbar := Some sb; windows := map (set_wins None None) (windows s);
          inactive := inactive s; colors := colors s;
          firstpdir := firstpdir s; backloglen := bllen; bells := bells s |}.

(** [Screen.__init__]. *)
Definition Screen_init (o : Opts) (W : World) (fpd : text) : Result Screen :=
  redraw o W {| sbar := None; windows := []; inactive := [];
                colors := {[ (-1, -1) := 0 ]}; firstpdir := fpd;
                backloglen := 0; bells := [] |}.

(** Writing back the window, colour cache and bell after a window-local
    step. *)
Definition commit (w : Window) (k : gmap (Z * Z) Z * list Bell) (s : Screen)
  : Screen :=
  {| sbar := sbar s;
     windows := map (fun v => if Nat.eqb (wid v) (wid w) then w else v)
                  (windows s);
     inactive := inactive s; colors := fst k; firstpdir := firstpdir s;
     backloglen := backloglen s; bells := snd k |}.

(** [Screen.append]; [id] refers to a window of [self.windows]. *)
Definition append (o : Opts) (W : World) (id : nat) (t : text)
    (omitbacklog : bool) (s : Screen) : Result Screen :=
  let s := modify id (set_activity (now W)) s in
  let! s :=
    if is_inactive id s
    then redraw o W (set_inactive (list_remove id (inactive s)) s)
    else Ok s in
  match getwin id s with
  | Some w =>
      let! (w', k) :=
        append_window o W (backloglen s) t omitbacklog w (colors s, bells s) in
      Ok (commit w' k s)
  | None => Ok s
  end.

(** [FileTailer.__init__] (with [reopen]): the object has identity [id]. *)
Definition FileTailer (W : World) (id : nat) (f : text) : Result Window :=
  if can_open W f then
    Ok {| wid := id; fn := f; pullts := now W; basedir := []; lockfn := None;
          backlog := []; activity := 0; lockcheck := 0; expectclose := 0;
          newline := false; win := None; nwin := None;
          stream := []; lastdata := 0 |}
  else Raise IOError.

(** [FileTailer.pull]: the new pull time and the data, [None] when empty. *)
Definition pull (W : World) (id : nat) (s : Screen) : Screen * option text :=
  let data := file_read W id in
  (modify id (set_pullts (now W)) s,
   if (Z.of_nat (length data) =? 0) then None else Some data).

(** [Screen.addwin]. *)
Definition addwin (o : Opts) (W : World) (w : Window) (bd : text)
    (lock : option text) (s : Screen) : Result Screen :=
  let w :=
    {| wid := wid w; fn := fn w; pullts := pullts w; basedir := bd;
       lockfn := lock; backlog := []; activity := now W; lockcheck := now W;
       expectclose := 0; newline := newline w; win := None; nwin := None;
       stream := []; lastdata := now W |} in
  redraw o W (set_windows (windows s ++ [w]) s).

Fixpoint remove_window (id : nat) (ws : list Window) : list Window :=
  match ws with
  | [] => []
  | w :: ws' => if Nat.eqb (wid w) id then ws' else w :: remove_window id ws'
  end.

(** [Screen.delwin]. *)
Definition delwin (o : Opts) (W : World) (id : nat) (s : Screen)
  : Result Screen :=
  match getwin id s with
  | None => Raise ValueError
  | Some _ =>
      let s := set_windows (remove_window id (windows s)) s in
      let s := if is_inactive id s
               then set_inactive (list_remove id (inactive s)) s else s in
      redraw o W s
  end.

(** [check_lock]. *)
Definition check_lock (W : World) (path : text) : Result bool :=
  match lock_probe W path with
  | LockAbsent => Ok false
  | LockHeld => Ok true
  | LockFree => Ok false (* file not locked? probably stale *)
  | LockError => Raise IOError
  end.

(** *** The periodic sweep ([Screen.checkact]) *)

(** Lines 298-301: the forced pull. *)
Definition checkact_pull (o : Opts) (W : World) (ts pullinterval : Z)
    (id : nat) (s : Screen) : Result Screen :=
  match getwin id s with
  | None => Ok s
  | Some w =>
      if negb (pullinterval =? 0) && (ts - pullts w >=? pullinterval) then
        let '(s, data) := pull W id s in
        match data with
        | Some d => append o W id d false s
        | None => Ok s
        end
      else Ok s
  end.

(** Lines 303-305: the inactivity test; the flag is the local [redraw]. *)
Definition checkact_idle (ts acttimeout : Z) (id : nat) (st : Screen * bool)
  : Screen * bool :=
  let '(s, rd) := st in
  match getwin id s with
  | None => st
  | Some w =>
      if negb (acttimeout =? 0) && negb (is_inactive id s)
         && (ts - activity w >=? acttimeout)
      then (set_inactive (inactive s ++ [id]) s, true)
      else st
  end.

(** Lines 307-312: the lock re-check; the list is the local [winrem]. *)
Definition checkact_lock (W : World) (ts acttimeout lockcheckint : Z)
    (id : nat) (st : Screen * list nat) : Result (Screen * list nat) :=
  let '(s, winrem) := st in
  match getwin id s with
  | None => Ok st
  | Some w =>
      match lockfn w with
      | Some path =>
          if ((acttimeout =? 0) || is_inactive id s)
             && (ts - lockcheck w >=? lockcheckint)
          then
            let s := modify id (fun w => set_expectclose (expectclose w + 1) w) s in
            let! held := check_lock W path in
            if negb held then Ok (s, winrem ++ [id])
            else Ok (modify id (set_lockcheck (now W)) s, winrem)
          else Ok st
      | None => Ok st
      end
  end.

(** The body of [for w in self.windows] (lines 297-312). *)
Definition checkact_window (o : Opts) (W : World)
    (ts pullinterval acttimeout lockcheckint : Z) (id : nat)
    (st : Screen * bool * list nat) : Result (Screen * bool * list nat) :=
  let '(s, rd, winrem) := st in
  let! s := checkact_pull o W ts pullinterval id s in
  let '(s, rd) := checkact_idle ts acttimeout id (s, rd) in
  let! (s, winrem) := checkact_lock W ts acttimeout lockcheckint id (s, winrem) in
  Ok (s, rd, winrem).

Definition checkact_scan (o : Opts) (W : World)
    (ts pullinterval acttimeout lockcheckint : Z) (s : Screen)
  : Result (Screen * bool * list nat) :=
  foldM (checkact_window o W ts pullinterval acttimeout lockcheckint)
    (map wid (windows s)) (s, false, []).

(** [Screen.checkact]. *)
Definition checkact (o : Opts) (W : World)
    (ts pullinterval acttimeout lockcheckint : Z) (s : Screen)
  : Result Screen :=
  let! (s, rd, winrem) :=
    checkact_scan o W ts pullinterval acttimeout lockcheckint s in
  let! s := foldM (delwin o W) winrem s in
  if rd then redraw o W s else Ok s.

(** ** The controller ([cursesmain]) *)

Definition fetchlog : text := txt "/var/log/emerge-fetch.log".

(** [l.sort(key=len, reverse=True)]: longest first, and stable: strings of
    equal length keep the order they had.  [sort_by_len] inserts from the
    right, so an element goes before the first one that is not longer. *)
Fixpoint insert_by_len (x : text) (l : list text) : list text :=
  match l with
  | [] => [x]
  | y :: l' =>
      if (length y <=? length x)%nat then x :: l
      else y :: insert_by_len x l'
  end.

Definition sort_by_len (l : list text) : list text :=
  foldr insert_by_len [] l.

Definition pdir (o : Opts) : list text :=
  sort_by_len (map (fun x => x ++ txt "/portage") (tempdir o)).

Definition first_pdir (o : Opts) : Result text :=
  match tempdir o with
  | x :: _ => Ok (x ++ txt "/portage")
  | [] => Raise IndexError
  end.

Definition len {A} (l : list A) : Z := Z.of_nat (length l).

(** [ppath]. *)
Fixpoint ppath_in (pds : list text) (dir : text) : option (list text) :=
  match pds with
  | [] => None
  | pd :: rest =>
      if negb (startswith dir pd) then ppath_in rest dir
      else Some (pd :: split_on "/" (slice (Some (len pd + 1)) None dir))
  end.

Definition ppath (o : Opts) (dir : text) : option (list text) :=
  ppath_in (pdir o) dir.

(** The controller's state: the screen and [lockfindts]. *)
Record Monitor : Type := {
  scr : Screen;
  lockfindts : Z
}.

(** A fresh object identity. *)
Definition fresh_id (s : Screen) : nat := S (max_list (map wid (windows s))).

(** [window_add]; the result carries the window, if any.  Watch
    registration is left to the environment. *)
Definition window_add (o : Opts) (W : World) (dir : list text) (s : Screen)
  : Result (Screen * option nat) :=
  let bd := join (txt "/") (slice (Some 0) (Some 3) dir) in
  let f := join (txt "/") dir in
  match findwin bd s with
  | None =>
      match FileTailer W (fresh_id s) f with
      | Raise _ => Ok (s, None)
      | Ok w =>
          match slice (Some 0) (Some 3) dir with
          | [d0; d1; d2] =>
              let lock := d0 ++ txt "/" ++ d1 ++ txt "/." ++ d2
                          ++ txt ".portage_lockfile" in
              let! s := addwin o W w bd (Some lock) s in
              Ok (s, Some (wid w))
          | _ => Raise TypeError
          end
      end
  | Some w =>
      if can_open W (fn w) then Ok (s, Some (wid w)) else Raise IOError
  end.

(** [data = w.pull(); if data is not None: scr.append(w, data)]. *)
Definition pull_append (o : Opts) (W : World) (id : nat) (s : Screen)
  : Result Screen :=
  let '(s, data) := pull W id s in
  match data with
  | Some d => append o W id d false s
  | None => Ok s
  end.

(** [fl.sort(reverse = True)] on (mtime, name) pairs. *)
Fixpoint text_ltb (a b : text) : bool :=
  match a, b with
  | _, [] => false
  | [], _ :: _ => true
  | c :: a', d :: b' =>
      if (ord c <? ord d) then true
      else if (ord d <? ord c) then false
      else text_ltb a' b'
  end.

Definition lock_ltb (a b : Z * text) : bool :=
  (fst a <? fst b) || ((fst a =? fst b) && text_ltb (snd a) (snd b)).

Fixpoint insert_lock (x : Z * text) (l : list (Z * text)) : list (Z * text) :=
  match l with
  | [] => [x]
  | y :: l' => if lock_ltb y x then x :: l else y :: insert_lock x l'
  end.

Definition sort_locks (l : list (Z * text)) : list (Z * text) :=
  foldr insert_lock [] l.

(** [s.split('/.', 1)]. *)
Fixpoint split_slashdot (s : text) : list text :=
  match s with
  | [] => [[]]
  | c :: s' =>
      match s' with
      | d :: s'' =>
          if Ascii.eqb c "/" && Ascii.eqb d "." then [[]; s'']
          else match split_slashdot s' with
               | w :: ws => (c :: w) :: ws
               | [] => [[c]]
               end
      | [] => [[c]]
      end
  end.

(** The body of [for mtime, f in fl] in [find_locks]. *)
Definition find_lock (o : Opts) (W : World) (d : text) (mf : Z * text)
    (s : Screen) : Result Screen :=
  let f := snd mf in
  if negb (startswith f d) then Raise AssertionError
  else if negb (endswith f (txt ".portage_lockfile")) then Raise AssertionError
  else
    let dir := d :: split_slashdot (slice (Some (len d + 1)) (Some (-17)) f) in
    match findwin (join (txt "/") dir) s with
    | Some _ => Ok s
    | None =>
        let! held := check_lock W f in
        if held then
          let! (s, w) := window_add o W (dir ++ [txt "temp"; txt "build.log"]) s in
          match w with
          | Some id => pull_append o W id s
          | None => Ok s
          end
        else Ok s
    end.

(** [find_locks]. *)
Definition find_locks (o : Opts) (W : World) (ts : Z) (m : Monitor)
  : Result Monitor :=
  let! s :=
    foldM (fun d s => foldM (find_lock o W d) (sort_locks (glob_locks W d)) s)
      (pdir o) (scr m) in
  Ok {| scr := s; lockfindts := ts |}.

(** [Inotifier.process_IN_CREATE]. *)
Definition process_IN_CREATE (o : Opts) (W : World) (isdir : bool)
    (pathname : text) (m : Monitor) : Result Monitor :=
  if isdir then Ok m
  else
    match ppath o pathname with
    | Some [d0; d1; d2; d3; d4] =>
        if text_eqb d3 (txt "temp") && text_eqb d4 (txt "build.log") then
          let! (s, _) := window_add o W [d0; d1; d2; d3; d4] (scr m) in
          Ok {| scr := s; lockfindts := now W |}
        else Ok m
    | _ => Ok m
    end.

(** [Inotifier.process_IN_MODIFY]. *)
Definition process_IN_MODIFY (o : Opts) (W : World) (pathname : text)
    (m : Monitor) : Result Monitor :=
  let! (s, w) :=
    if text_eqb pathname fetchlog then
      match findwin (txt "_fetch") (scr m) with
      | Some w => Ok (scr m, Some (wid w))
      | None =>
          let! w := FileTailer W (fresh_id (scr m)) fetchlog in
          let! s := addwin o W w (txt "_fetch") None (scr m) in
          Ok (s, Some (wid w))
      end
    else
      match ppath o pathname with
      | None => Ok (scr m, None)
      | Some dir =>
          let bd := join (txt "/") (slice (Some 0) (Some 3) dir) in
          Ok (scr m, wid <$> findwin bd (scr m))
      end in
  match w with
  | Some id =>
      let! s := pull_append o W id s in
      Ok {| scr := s; lockfindts := lockfindts m |}
  | None => Ok {| scr := s; lockfindts := lockfindts m |}
  end.

(** [Inotifier.process_IN_CLOSE_WRITE]. *)
Definition process_IN_CLOSE_WRITE (o : Opts) (W : World) (pathname : text)
    (m : Monitor) : Result Monitor :=
  let! bd :=
    if text_eqb pathname fetchlog then Ok (Some (txt "_fetch"))
    else
      match ppath o pathname with
      | None => Ok None
      | Some (d0 :: d1 :: d2 :: _) =>
          Ok (Some (d0 ++ txt "/" ++ d1 ++ txt "/"
                    ++ slice (Some 1) (Some (-17)) d2))
      | Some _ => Raise IndexError
      end in
  match bd with
  | None => Ok m
  | Some bd =>
      match findwin bd (scr m) with
      | Some w =>
          if expectclose w >? 0 then
            Ok {| scr := modify (wid w)
                           (fun w => set_expectclose (expectclose w - 1) w)
                           (scr m);
                  lockfindts := lockfindts m |}
          else
            let! s := delwin o W (wid w) (scr m) in
            Ok {| scr := s; lockfindts := lockfindts m |}
      | None => Ok m
      end
  end.

(** [timeriter]. *)
Definition timeriter (o : Opts) (W : World) (m : Monitor) : Result Monitor :=
  let ts := now W in
  let! s := checkact o W ts (pullint o) (inact o) (opt_lockcheck o) (scr m) in
  let m := {| scr := s; lockfindts := lockfindts m |} in
  if negb (lockfind o =? 0) && (ts - lockfindts m >? lockfind o)
  then find_locks o W ts m
  else Ok m.

(** What wakes the event loop.  The fetch log is watched only when
    [opts.watchfetch] is set (lines 496-497); which other paths are watched
    is left to the environment. *)
Inductive Event : Type :=
  | IN_CREATE (isdir : bool) (pathname : text)
  | IN_MODIFY (pathname : text)
  | IN_CLOSE_WRITE (pathname : text)
  | Timer.

Definition handle (o : Opts) (W : World) (e : Event) (m : Monitor)
  : Result Monitor :=
  match e with
  | IN_CREATE isdir p => process_IN_CREATE o W isdir p m
  | IN_MODIFY p =>
      if text_eqb p fetchlog && negb (watchfetch o) then Ok m
      else process_IN_MODIFY o W p m
  | IN_CLOSE_WRITE p =>
      if text_eqb p fetchlog && negb (watchfetch o) then Ok m
      else process_IN_CLOSE_WRITE o W p m
  | Timer => timeriter o W m
  end.

(** Start-up: the screen is built and, unless [--omit-running], the
    temporary directories are scanned once. *)
Definition startup (o : Opts) (W : World) : Result Monitor :=
  let! fpd := first_pdir o in
  let! s := Screen_init o W fpd in
  let m := {| scr := s; lockfindts := 0 |} in
  if negb (omitrunning o) then find_locks o W (now W) m else Ok m.

(** A run: start-up, then one handler per wake-up, each in its own world. *)
Fixpoint run_from (o : Opts) (tr : list (World * Event)) (m : Monitor)
  : Result Monitor :=
  match tr with
  | [] => Ok m
  | (W, e) :: tr' => let! m' := handle o W e m in run_from o tr' m'
  end.

Definition run (o : Opts) (W0 : World) (tr : list (World * Event))
  : Result Monitor :=
  let! m := startup o W0 in run_from o tr m.

(** ** Concrete environments

    A terminal whose cursor advances one column per character and wraps at
    the right margin, a 24x80 screen, and the default options. *)
Definition simple_yx (max cur : Z * Z) (s : text) : Z * Z :=
  fold_left (fun '(y, x) c =>
               if Ascii.eqb c LF || (x + 1 >=? snd max)
               then (Z.min (y + 1) (fst max - 1), 0)
               else (y, x + 1)) s cur.

Definition world_at (t : Z) (size : Z * Z) (data : text) : World :=
  {| now := t; getmaxyx := size; COLOR_PAIRS := 64; waddstr_yx := simple_yx;
     file_read := fun _ => data; can_open := fun _ => true;
     lock_probe := fun _ => LockHeld; glob_locks := fun _ => [] |}.

Definition default_opts : Opts :=
  {| debug := false; watchfetch := true; omitrunning := false;
     tempdir := [txt "/var/tmp"]; vbell := false; vabell := false;
     inact := 30; opt_lockcheck := 15; lockfind := 45; pullint := 10 |}.

(** The last [c] elements of a sequence. *)
Definition lastn {A} (c : Z) (s : list A) : list A :=
  drop (length s - Z.to_nat c) s.

(** The capacity [redraw] computes in a world. *)
Definition capacity (W : World) : Z :=
  (fst (getmaxyx W) - 2) * snd (getmaxyx W).

(** ** Vocabulary of the properties *)

(** The chunk as the interpreter sees it: without its trailing newline. *)
Definition chunk_body (t : text) : text :=
  if endswith t [LF] then slice None (Some (-1)) t else t.

(** The state the interpreter starts a chunk in. *)
Definition pen_up (c : CWin) (k : gmap (Z * Z) Z * list Bell) : Draw :=
  {| d_mode := 0; d_fgcol := -1; d_bgcol := -1; d_win := c;
     d_colors := fst k; d_bell := snd k |}.

(** An SGR sequence: a match that ends in [m]. *)
Definition is_sgr (p : text) : bool :=
  match last p with
  | Some f => Ascii.eqb f "m"
  | None => false
  end.

(** No SGR sequence among the matches of a split, [i] being the position of
    its first element. *)
Fixpoint no_sgr (i : nat) (ptext : list text) : bool :=
  match ptext with
  | [] => true
  | p :: rest => (Nat.even i || negb (is_sgr p)) && no_sgr (S i) rest
  end.

(** The literal runs of a split. *)
Fixpoint literals (i : nat) (ptext : list text) : list text :=
  match ptext with
  | [] => []
  | p :: rest =>
      if Nat.even i then p :: literals (S i) rest else literals (S i) rest
  end.

(** ** Sample states *)

Definition get_ok {A} (dflt : A) (r : Result A) : A :=
  match r with
  | Ok a => a
  | Raise _ => dflt
  end.

Definition empty_screen : Screen :=
  {| sbar := None; windows := []; inactive := []; colors := ∅;
     firstpdir := []; backloglen := 0; bells := [] |}.

Definition empty_monitor : Monitor := {| scr := empty_screen; lockfindts := 0 |}.

(** The monitor on a 24x80 terminal after the fetch log has produced
    ["abc"]: one window, the fetch-log window, with identity 1. *)
Definition fetch_monitor : Monitor :=
  get_ok empty_monitor
    (run default_opts (world_at 0 (24, 80) [])
       [(world_at 1 (24, 80) (txt "abc"), IN_MODIFY fetchlog)]).

(** Scenario B's chunk, without and with its trailing newline. *)
Definition scenario_B_body : text :=
  txt "abc" ++ [ESC] ++ txt "[31mred" ++ [ESC] ++ txt "[0mdef".

Definition scenario_B : text := scenario_B_body ++ [LF].

(** A matched sequence: the bell, or [ESC \[] followed by a body and a final
    character. *)
Definition is_match (p : text) : Prop :=
  p = [BEL] \/ exists body f, p = ESC :: "["%char :: body ++ [f].

(** The elements of a split at match positions are matched sequences;
    [literal] tells whether the first element is a literal run. *)
Fixpoint seqs_ok (literal : bool) (ptext : list text) : Prop :=
  match ptext with
  | [] => True
  | p :: rest => (literal = true \/ is_match p) /\ seqs_ok (negb literal) rest
  end.

(** The attributes of a window that only the controller changes, and those
    with the retained and the full text in addition.  Drawing and the
    bookkeeping of times leave them alone. *)
Definition spine (w : Window) : nat * text * option text * Z :=
  (wid w, basedir w, lockfn w, expectclose w).

Definition core (w : Window) : nat * text * option text * Z * text * text :=
  (spine w, backlog w, stream w).

(** The elementary effects on the screen out of which the handlers are
    made: the methods of [Screen] and the attribute updates the controller
    performs on a window. *)
Inductive step (o : Opts) (W : World) : Screen -> Screen -> Prop :=
  | step_redraw s s' :
      redraw o W s = Ok s' -> step o W s s'
  | step_append id t s s' w :
      getwin id s = Some w -> append o W id t false s = Ok s' ->
      step o W s s'
  | step_addwin w bd lock s s' :
      findwin bd s = None -> wid w ∉ map wid (windows s) ->
      (bd = txt "_fetch" -> lock = None) ->
      addwin o W w bd lock s = Ok s' -> step o W s s'
  | step_delwin id s s' :
      delwin o W id s = Ok s' -> step o W s s'
  | step_touch id f s :
      (forall w, core (f w) = core w) -> step o W s (modify id f s)
  | step_expect id s w path :
      getwin id s = Some w -> lockfn w = Some path ->
      step o W s (modify id (fun w => set_expectclose (expectclose w + 1) w) s)
  | step_expected id s w :
      getwin id s = Some w -> (expectclose w >? 0) = true ->
      step o W s (modify id (fun w => set_expectclose (expectclose w - 1) w) s)
  | step_idle id s w :
      inact o <> 0 -> getwin id s = Some w -> is_inactive id s = false ->
      step o W s (set_inactive (inactive s ++ [id]) s).

(** A handler run: any number of elementary effects in one world. *)
Inductive steps (o : Opts) (W : World) : Screen -> Screen -> Prop :=
  | steps_refl s : steps o W s s
  | steps_step s1 s2 s3 :
      step o W s1 s2 -> steps o W s2 s3 -> steps o W s1 s3.

(** The registry is well formed: windows are distinct objects with distinct
    sources, the inactive ones are among them, [expectclose] is a natural
    number, it is 0 for a window without a lock, and the fetch-log window
    has no lock. *)
Record registry_ok (s : Screen) : Prop := {
  ok_wids : NoDup (map wid (windows s));
  ok_inactive : NoDup (inactive s);
  ok_inactive_in : forall id, id ∈ inactive s -> id ∈ map wid (windows s);
  ok_basedirs : NoDup (map basedir (windows s));
  ok_expect : Forall (fun w => 0 <= expectclose w) (windows s);
  ok_nolock :
    Forall (fun w => lockfn w = None -> expectclose w = 0) (windows s);
  ok_fetch :
    Forall (fun w => basedir w = txt "_fetch" -> lockfn w = None) (windows s)
}.

(** The backlog is in step with the stream: while some window is not
    inactive the capacity is positive, and every backlog is the last [c]
    characters of what was appended, for a [c] no smaller than the
    capacity. *)
Record backlog_ok (s : Screen) : Prop := {
  ok_capacity :
    forall w, w ∈ windows s -> wid w ∉ inactive s -> 0 < backloglen s;
  ok_backlog :
    Forall (fun w => exists c, backloglen s <= c
                               /\ backlog w = lastn c (stream w)) (windows s)
}.

(** A terminal has at least one row and one column. *)
Definition sane (W : World) : Prop :=
  1 <= fst (getmaxyx W) /\ 1 <= snd (getmaxyx W).

(** The screen as [Screen.__init__] sets it up, before its first redraw. *)
Definition blank_screen (fpd : text) : Screen :=
  {| sbar := None; windows := []; inactive := [];
     colors := {[ (-1, -1) := 0 ]}; firstpdir := fpd;
     backloglen := 0; bells := [] |}.

(** A sample run on a 24x80 terminal: a build log appears and grows, the
    fetch log grows, and a timer tick 100 seconds later finds the build idle
    and its lock still held. *)
Definition sample_log : text := txt "/var/tmp/portage/cat/pkg-1/temp/build.log".

Definition sample_lock : text := txt "/var/tmp/portage/cat/.pkg-1.portage_lockfile".

Definition sample_trace : list (World * Event) :=
  [(world_at 1 (24, 80) [], IN_CREATE false sample_log);
   (world_at 2 (24, 80) (txt "compiling"), IN_MODIFY sample_log);
   (world_at 3 (24, 80) (txt "fetching"), IN_MODIFY fetchlog);
   (world_at 100 (24, 80) [], Timer)].

Definition sample_monitor : Monitor :=
  get_ok empty_monitor (run default_opts (world_at 0 (24, 80) []) sample_trace).

(** The terminal of every event is sane and its capacity is no larger than
    that of the event before, starting from the capacity [c]. *)
Fixpoint never_grows (c : Z) (tr : list (World * Event)) : Prop :=
  match tr with
  | [] => True
  | (W, _) :: tr' => sane W /\ capacity W <= c /\ never_grows (capacity W) tr'
  end.

(** The default options with the inactivity timeout switched off ([-A 0]). *)
Definition patient_opts : Opts :=
  {| debug := false; watchfetch := true; omitrunning := false;
     tempdir := [txt "/var/tmp"]; vbell := false; vabell := false;
     inact := 0; opt_lockcheck := 15; lockfind := 45; pullint := 10 |}.

Definition patient_monitor : Monitor :=
  get_ok empty_monitor (run patient_opts (world_at 0 (24, 80) []) sample_trace).

(** The colour-pair cache is sound: the pair numbers in use are
    [0 .. len(colors) - 1], each given to one colour combination. *)
Definition pairs_ok (k : gmap (Z * Z) Z) : Prop :=
  (forall key n, k !! key = Some n -> 0 <= n < Z.of_nat (size k))
  /\ (forall k1 k2 n, k !! k1 = Some n -> k !! k2 = Some n -> k1 = k2).

(** The matched sequences of a split. *)
Fixpoint sequences (i : nat) (ptext : list text) : list text :=
  match ptext with
  | [] => []
  | p :: rest =>
      if Nat.even i then sequences (S i) rest else p :: sequences (S i) rest
  end.

(** A control sequence as the pattern accepts it: [ESC \[], digits and
    semicolons, one final character. *)
Definition is_csi (p : text) : Prop :=
  exists body f,
    p = ESC :: "["%char :: body ++ [f]
    /\ forallb is_param body = true /\ is_final f = true.

(** The cache [k'] extends [k]: it is sound if [k] is, and it keeps every
    pair of [k]. *)
Definition cache_grows (k k' : gmap (Z * Z) Z) : Prop :=
  (pairs_ok k -> pairs_ok k')
  /\ forall key n, k !! key = Some n -> k' !! key = Some n.

(** The region of a window that is on screen: its first row, the number of
    content rows, and the row of its title bar. *)
Definition region (w : Window) : option (Z * Z * Z) :=
  match win w, nwin w with
  | Some c, Some n => Some (fst (cw_begyx c), fst (cw_maxyx c), fst (cw_begyx n))
  | _, _ => None
  end.

(** Regions stacked from row [y] down: each starts where the one before
    ended, has three content rows or more and its title bar right below
    them, and the last ends at or before row [limit]. *)
Fixpoint stacked (y limit : Z) (rs : list (Z * Z * Z)) : Prop :=
  match rs with
  | [] => y <= limit
  | (top, rows, title) :: rs' =>
      top = y /\ 3 <= rows /\ title = top + rows
      /\ stacked (title + 1) limit rs'
  end.

(** What the loop of [redraw] relies on: rows left for the jobs still to be
    shown. *)
Definition tiling_ok (H : Z) (t : Tiling) : Prop :=
  0 <= jobcount t
  /\ ((jobrowsleft t = 0 /\ 4 <= jobrows t
       /\ starty t + jobcount t * jobrows t <= H)
      \/ (0 < jobrowsleft t /\ 5 <= jobrows t
          /\ jobrowsleft t - 1 <= jobcount t
          /\ starty t + (jobrowsleft t - 1) * jobrows t
             + (jobcount t - (jobrowsleft t - 1)) * (jobrows t - 1) <= H)).

(** What the lock poll of [checkact] reads and writes of a window. *)
Definition lock_view (w : Window) : nat * option text * Z * Z :=
  (wid w, lockfn w, expectclose w, lockcheck w).

Definition view_at (id : nat) (s : Screen) : option (nat * option text * Z * Z) :=
  lock_view <$> getwin id s.

(** The world [W] after the merges have ended: their lock files are gone. *)
Definition released (W : World) : World :=
  {| now := now W; getmaxyx := getmaxyx W; COLOR_PAIRS := COLOR_PAIRS W;
     waddstr_yx := waddstr_yx W; file_read := file_read W;
     can_open := can_open W; lock_probe := fun _ => LockAbsent;
     glob_locks := glob_locks W |}.

(** The directories [pdir] is made of, in the order of [--tempdir]. *)
Definition pdirs (o : Opts) : list text :=
  map (fun x => x ++ txt "/portage") (tempdir o).

(** The source a modified path belongs to: the fetch log's reserved name,
    or the first three components of the path under [pdir]. *)
Definition source_of (o : Opts) (pathname : text) : option text :=
  if text_eqb pathname fetchlog then Some (txt "_fetch")
  else (fun dir => join (txt "/") (slice (Some 0) (Some 3) dir))
         <$> ppath o pathname.

(** [pfilter], the [exclude_filter] of the recursive watch on the temporary
    directories: [true] keeps a directory out of the watch. *)
Definition pfilter (o : Opts) (dir : text) : bool :=
  if bool_decide (dir ∈ tempdir o) then false
  else
    match ppath o dir with
    | None => true
    | Some l =>
        if len l =? 4 then negb (text_eqb (default [] (l !! 3%nat)) (txt "temp"))
        else len l >? 4
    end.




(** * Properties *)

(** ** Python sequences *)

Lemma bind_Ok {A B} (m : Result A) (k : A -> Result B) (b : B) :
  bind m k = Ok b -> exists a, m = Ok a /\ k a = Ok b.
Proof. destruct m as [a|e]; simpl; [eauto | discriminate]. Qed.

Lemma slice_suffix {A} (c : Z) (s : list A) :
  0 < c -> slice (Some (- c)) None s = lastn c s.
Proof.
  intros Hc. unfold slice, lastn, py_bound.
  assert ((- c <? 0) = true) as -> by lia.
  rewrite take_ge.
  - f_equal. lia.
  - rewrite length_drop. lia.
Qed.

Lemma slice_zero {A} (s : list A) : slice (Some (- 0)) None s = s.
Proof.
  unfold slice, py_bound. simpl.
  replace (Z.to_nat (Z.min (- 0) (Z.of_nat (length s)))) with 0%nat by lia.
  rewrite drop_0, take_ge; [done | lia].
Qed.

Lemma length_lastn {A} (c : Z) (s : list A) :
  0 <= c -> Z.of_nat (length (lastn c s)) <= c.
Proof. intros Hc. unfold lastn. rewrite length_drop. lia. Qed.

Lemma lastn_all {A} (c : Z) (s : list A) :
  Z.of_nat (length s) <= c -> lastn c s = s.
Proof.
  intros H. unfold lastn.
  replace (length s - Z.to_nat c)%nat with 0%nat by lia. apply drop_0.
Qed.

(** Truncating early to a larger capacity does not change what a later
    truncation keeps. *)
Lemma lastn_lastn_app {A} (c c' : Z) (s t : list A) :
  0 <= c -> c <= c' -> lastn c (lastn c' s ++ t) = lastn c (s ++ t).
Proof.
  intros Hc Hcc'. unfold lastn.
  rewrite !length_app, !length_drop.
  destruct (decide (Z.to_nat c <= length t)%nat) as [Hle|Hgt].
  - rewrite !drop_app_ge by (rewrite ?length_drop; lia).
    rewrite length_drop. f_equal. lia.
  - rewrite !drop_app_le by (rewrite ?length_drop; lia).
    f_equal. rewrite drop_drop. f_equal. lia.
Qed.

Lemma endswith_snoc (s : text) (c : ascii) : endswith (s ++ [c]) [c] = true.
Proof.
  unfold endswith. rewrite rev_unit. simpl.
  rewrite Ascii.eqb_refl. by destruct (rev s).
Qed.

Lemma last_snoc_text (s : text) (c : ascii) : last (s ++ [c]) = Some c.
Proof. apply last_snoc. Qed.

Lemma split_on_cons (sep : ascii) (s : text) :
  exists a rest, split_on sep s = a :: rest.
Proof.
  destruct s as [|c s]; simpl; [eauto|].
  destruct (Ascii.eqb c sep); [eauto|].
  destruct (split_on sep s); eauto.
Qed.

Lemma slice_chop {A} (s : list A) (x : A) :
  slice None (Some (-1)) (s ++ [x]) = s.
Proof.
  unfold slice, py_bound. simpl. rewrite length_app. simpl.
  replace (Z.to_nat (_ - 0)) with (length s) by lia.
  change (Z.to_nat 0) with 0%nat. rewrite drop_0. by rewrite take_app_length.
Qed.

Lemma slice_body (a b f : ascii) (body : text) :
  slice (Some 2) (Some (-1)) (a :: b :: body ++ [f]) = body.
Proof.
  unfold slice, py_bound. simpl. rewrite length_app. simpl.
  replace (Z.to_nat (Z.min 2 _)) with 2%nat by lia.
  replace (Z.to_nat (_ - _)) with (length body) by lia.
  simpl. rewrite drop_0. by rewrite take_app_length.
Qed.
(** ** Cursor sequences *)

Lemma last_csi (a b f : ascii) (body : text) :
  last (a :: b :: body ++ [f]) = Some f.
Proof. apply (last_snoc_text (a :: b :: body)). Qed.

(** For [A] to [G] an empty first argument stands for 1. *)
Lemma cursor_default_arg (func : ascii) (rest : list text) (c : CWin) :
  func <> "H"%char ->
  cursor func ([] :: rest) c = cursor func (txt "1" :: rest) c.
Proof.
  intros Hf. unfold cursor. destruct (cw_yx c) as [y x]. simpl.
  destruct (Ascii.eqb_spec func "H"); [done|]. reflexivity.
Qed.

(** C7 (defect): the cursor branch is taken for final characters whose code
    lies in [range(ord('A'), ord('H'))], which stops at [G].  A sequence
    [ESC \[ ... H] therefore never moves the cursor: it is dropped, or, with
    [--debug], reported as unsupported. *)
Theorem csi_H_not_handled (o : Opts) (W : World) (body : text) (d : Draw) :
  csi o W (ESC :: "["%char :: body ++ ["H"%char]) d
  = if debug o then Raise (Exception "Unsupported func") else Ok d.
Proof.
  unfold csi. rewrite last_csi. simpl.
  reflexivity.
Qed.

(** The same through [append_window]: [ESC \[ H] sent to a 10x40 window
    whose cursor is at row 2, column 3 leaves the cursor where it was. *)
Example append_window_home :
  let c := move 2 3 (newwin 10 40 0 0) in
  let w := set_wins (Some c) None
             {| wid := 1; fn := []; pullts := 0; basedir := txt "_fetch";
                lockfn := None; backlog := []; activity := 0; lockcheck := 0;
                expectclose := 0; newline := false; win := None; nwin := None;
                stream := []; lastdata := 0 |} in
  (fun r => match r with
            | Ok (w', _) => cw_yx <$> win w'
            | Raise _ => None
            end)
    (append_window default_opts (world_at 0 (24, 80) []) 1760
       (ESC :: txt "[H") false w ({[ (-1, -1) := 0 ]}, []))
  = Some (2, 3).
Proof. vm_compute. reflexivity. Qed.

(** C8 (defect): after [E] and [F] the column is set to 1, the second
    column of the window, whatever the cursor and the argument were; the
    leftmost column is 0.  Only a window one column wide clamps it to 0. *)
Theorem csi_E_F_column (o : Opts) (W : World) (body : text) (d : Draw) :
  (exists y, csi o W (ESC :: "["%char :: body ++ ["E"%char]) d
     = Ok (set_win (move y (clamp 1 (snd (cw_maxyx (d_win d)))) (d_win d)) d))
  /\ (exists y, csi o W (ESC :: "["%char :: body ++ ["F"%char]) d
     = Ok (set_win (move y (clamp 1 (snd (cw_maxyx (d_win d)))) (d_win d)) d)).
Proof.
  split.
  - unfold csi. rewrite last_csi. simpl.
    rewrite slice_body. destruct (split_on_cons ";" body) as (a & rest & ->).
    unfold cursor. destruct (cw_yx (d_win d)) as [y x]. simpl. eauto.
  - unfold csi. rewrite last_csi. simpl.
    rewrite slice_body. destruct (split_on_cons ";" body) as (a & rest & ->).
    unfold cursor. destruct (cw_yx (d_win d)) as [y x]. simpl. eauto.
Qed.

Example cursor_next_line_column :
  cw_yx <$> (fun r => match r with Ok c => Some c | Raise _ => None end)
    (cursor "E" [txt "2"] (move 0 5 (newwin 10 40 0 0)))
  = Some (2, 1).
Proof. reflexivity. Qed.
(** ** The interpreter and the window's output *)

Lemma foldM_sgr_param_win (o : Opts) (args : list text) (d d' : Draw) :
  foldM (fun a d => sgr_param o (if text_eqb a [] then 0 else int10 a) d)
    args d = Ok d' ->
  d_win d' = d_win d.
Proof.
  revert d. induction args as [|a args IH]; intros d H; simpl in H.
  - by inversion H.
  - apply bind_Ok in H as (d1 & H1 & H2). rewrite (IH _ H2).
    unfold sgr_param in H1.
    repeat match type of H1 with
           | (if ?b then _ else _) = _ => destruct b
           end; inversion H1; reflexivity.
Qed.

Lemma getcolor_win (o : Opts) (W : World) (fg bg cp : Z) (d d' : Draw) :
  getcolor o W fg bg d = Ok (cp, d') -> d_win d' = d_win d.
Proof.
  unfold getcolor. intros H.
  repeat match type of H with
         | match ?x with _ => _ end = _ => destruct x
         end; inversion H; reflexivity.
Qed.

Lemma cursor_out (func : ascii) (args : list text) (c c' : CWin) :
  cursor func args c = Ok c' ->
  cw_attr c' = cw_attr c /\ cw_out c' = cw_out c.
Proof.
  unfold cursor. destruct (cw_yx c) as [y x]. intros H.
  apply bind_Ok in H as (a0 & _ & H).
  apply bind_Ok in H as ([y' x'] & _ & H).
  by inversion H.
Qed.

(** Every step of the interpreter only adds to what the window shows. *)
Lemma interp_item_out (o : Opts) (W : World) (i : nat) (p : text)
    (d d' : Draw) :
  interp_item o W i p d = Ok d' ->
  exists more, cw_out (d_win d') = cw_out (d_win d) ++ more.
Proof.
  unfold interp_item. destruct (Nat.even i).
  - intros H. inversion H. simpl. eauto.
  - intros H. apply bind_Ok in H as (c0 & _ & H).
    destruct (Ascii.eqb c0 BEL).
    + exists []. rewrite app_nil_r. injection H as <-.
      by destruct (vabell o || negb (vbell o)), (vbell o).
    + exists []. rewrite app_nil_r. unfold csi in H.
      apply bind_Ok in H as (func & _ & H).
      destruct (Ascii.eqb func "m").
      * unfold sgr in H. apply bind_Ok in H as (d1 & H1 & H).
        apply bind_Ok in H as ([cp d2] & H2 & H). inversion H. simpl.
        rewrite (getcolor_win _ _ _ _ _ _ _ H2).
        by rewrite (foldM_sgr_param_win _ _ _ _ H1).
      * destruct (_ && _).
        -- apply bind_Ok in H as (c & Hc & H). inversion H. simpl.
           by apply cursor_out in Hc as [_ ->].
        -- destruct (debug o); by inversion H.
Qed.

Lemma interp_out (o : Opts) (W : World) (ptext : list text) (i : nat)
    (d d' : Draw) :
  interp o W i ptext d = Ok d' ->
  exists more, cw_out (d_win d') = cw_out (d_win d) ++ more.
Proof.
  revert i d. induction ptext as [|p ptext IH]; intros i d H; simpl in H.
  - inversion H. exists []. by rewrite app_nil_r.
  - apply bind_Ok in H as (d1 & H1 & H2).
    apply interp_item_out in H1 as [m1 E1]. apply IH in H2 as [m2 E2].
    exists (m1 ++ m2). by rewrite E2, E1, app_assoc.
Qed.

Lemma interp_app (o : Opts) (W : World) (p1 p2 : list text) (i : nat)
    (d : Draw) :
  interp o W i (p1 ++ p2) d
  = bind (interp o W i p1 d) (interp o W (i + length p1) p2).
Proof.
  revert i d. induction p1 as [|p p1 IH]; intros i d; simpl.
  - by rewrite Nat.add_0_r.
  - destruct (interp_item o W i p d) as [d1|e]; simpl; [|done].
    rewrite IH. by replace (S i + length p1)%nat with (i + S (length p1))%nat by lia.
Qed.

(** A sequence that is not an SGR leaves attribute and output alone. *)
Lemma interp_item_no_sgr (o : Opts) (W : World) (i : nat) (p : text)
    (d d' : Draw) :
  Nat.even i = false -> is_sgr p = false ->
  interp_item o W i p d = Ok d' ->
  cw_attr (d_win d') = cw_attr (d_win d)
  /\ cw_out (d_win d') = cw_out (d_win d).
Proof.
  intros Hi Hp. unfold interp_item. rewrite Hi. intros H.
  apply bind_Ok in H as (c0 & _ & H).
  destruct (Ascii.eqb c0 BEL).
  - injection H as <-.
    by destruct (vabell o || negb (vbell o)), (vbell o).
  - unfold csi in H. unfold is_sgr in Hp.
    destruct (last p) as [f|]; [|discriminate]. simpl in H. rewrite Hp in H.
    destruct (_ && _).
    + apply bind_Ok in H as (c & Hc & H). inversion H. simpl.
      by apply cursor_out in Hc.
    + destruct (debug o); by inversion H.
Qed.

(** Until the next SGR sequence, literal runs are written in the attribute
    the window already has. *)
Lemma interp_no_sgr (o : Opts) (W : World) (ptext : list text) (i : nat)
    (d d' : Draw) :
  no_sgr i ptext = true ->
  interp o W i ptext d = Ok d' ->
  cw_attr (d_win d') = cw_attr (d_win d)
  /\ cw_out (d_win d')
     = cw_out (d_win d) ++ map (pair (cw_attr (d_win d))) (literals i ptext).
Proof.
  revert i d. induction ptext as [|p ptext IH]; intros i d Hn H;
    simpl in H, Hn |- *.
  - inversion H. by rewrite app_nil_r.
  - apply bind_Ok in H as (d1 & H1 & H2).
    apply andb_true_iff in Hn as [Hp Hn].
    destruct (IH _ _ Hn H2) as [Ea Eo]. rewrite Ea, Eo.
    destruct (Nat.even i) eqn:Hi.
    + unfold interp_item in H1. rewrite Hi in H1. inversion H1. simpl.
      split; [done|]. by rewrite <- app_assoc.
    + simpl in Hp. apply negb_true_iff in Hp.
      destruct (interp_item_no_sgr _ _ _ _ _ _ Hi Hp H1) as [-> ->]. done.
Qed.
(** ** Windows of a screen *)

Lemma find_map_wid (g : Window -> Window) (id : nat) (ws : list Window) :
  (forall w, wid (g w) = wid w) ->
  find (fun w => Nat.eqb (wid w) id) (map g ws)
  = g <$> find (fun w => Nat.eqb (wid w) id) ws.
Proof.
  intros Hg. induction ws as [|w ws IH]; simpl; [done|].
  rewrite Hg. destruct (Nat.eqb (wid w) id); [done|apply IH].
Qed.

Lemma getwin_wid (id : nat) (s : Screen) (w : Window) :
  getwin id s = Some w -> wid w = id.
Proof.
  unfold getwin. intros H. apply find_some in H as [_ H].
  by apply Nat.eqb_eq in H.
Qed.

Lemma getwin_modify (id id' : nat) (f : Window -> Window) (s : Screen) :
  (forall w, wid (f w) = wid w) ->
  getwin id' (modify id f s)
  = (fun w => if Nat.eqb (wid w) id then f w else w) <$> getwin id' s.
Proof.
  intros Hf. unfold getwin, modify. simpl. apply find_map_wid.
  intros w. by destruct (Nat.eqb (wid w) id).
Qed.

Lemma getwin_commit (id : nat) (w' : Window) (k : gmap (Z * Z) Z * list Bell)
    (s : Screen) :
  getwin id (commit w' k s)
  = (fun v => if Nat.eqb (wid v) (wid w') then w' else v) <$> getwin id s.
Proof.
  unfold getwin, commit. simpl. apply find_map_wid.
  intros w. destruct (Nat.eqb (wid w) (wid w')) eqn:E; [|done].
  symmetry. by apply Nat.eqb_eq.
Qed.

Lemma append_window_wid (o : Opts) (W : World) (bl : Z) (t : text)
    (omit : bool) (w w' : Window) (k k' : gmap (Z * Z) Z * list Bell) :
  append_window o W bl t omit w k = Ok (w', k') -> wid w' = wid w.
Proof.
  unfold append_window. intros H.
  destruct omit; simpl in H.
  - destruct (win w).
    + apply bind_Ok in H as (d & _ & H). by inversion H.
    + by inversion H.
  - destruct (win w).
    + apply bind_Ok in H as (d & _ & H). by inversion H.
    + by inversion H.
Qed.

(** What [append] does to a window that is on the screen and not inactive:
    the pending newline, then the interpreter over the chunk without its
    trailing newline. *)
Lemma append_shown (o : Opts) (W : World) (id : nat) (t : text) (omit : bool)
    (s s' : Screen) (w : Window) (c : CWin) :
  getwin id s = Some w -> win w = Some c -> is_inactive id s = false ->
  append o W id t omit s = Ok s' ->
  exists d w',
    interp o W 0 (escregex_split (chunk_body t))
      (pen_up (if newline w then addstr W [LF] c else c) (colors s, bells s))
    = Ok d
    /\ getwin id s' = Some w'
    /\ win w' = Some (d_win d)
    /\ newline w' = endswith t [LF]
    /\ is_inactive id s' = false.
Proof.
  intros Hw Hc Hi H. unfold append in H.
  assert (is_inactive id (modify id (set_activity (now W)) s) = false) as Hi'
    by exact Hi.
  rewrite Hi' in H. simpl in H.
  rewrite getwin_modify, Hw in H by done. simpl in H.
  rewrite (getwin_wid _ _ _ Hw), Nat.eqb_refl in H.
  apply bind_Ok in H as ([w' k] & Ha & H). injection H as <-.
  pose proof (append_window_wid _ _ _ _ _ _ _ _ _ Ha) as Hid. simpl in Hid.
  rewrite (getwin_wid _ _ _ Hw) in Hid.
  unfold append_window in Ha.
  destruct omit; simpl in Ha; rewrite Hc in Ha;
    apply bind_Ok in Ha as (d & Hd & Ha); injection Ha as <- <-;
    exists d; eexists; (split; [exact Hd|]);
    rewrite getwin_commit, getwin_modify, Hw by done; simpl;
    unfold set_wins, set_newline, set_backlog, set_activity; simpl;
    rewrite (getwin_wid _ _ _ Hw), !Nat.eqb_refl; done.
Qed.
Lemma csi_tail_cons (cont : text -> list text) (literal : list text)
    (lit m r : text) :
  (exists l rest, literal = l :: rest) ->
  exists l rest, csi_tail cont literal lit m r = l :: rest.
Proof.
  intros Hl. revert m. induction r as [|p r IH]; intros m; simpl; [done|].
  destruct (is_param p); [apply IH|]. destruct (is_final p); eauto.
Qed.

(** A split is never empty: it starts with a literal run. *)
Lemma escregex_split_from_cons (lit s : text) :
  exists l rest, escregex_split_from lit s = l :: rest.
Proof.
  revert lit. induction s as [|c s1 IH]; intros lit; simpl; [eauto|].
  destruct (Ascii.eqb c BEL); [eauto|].
  destruct (Ascii.eqb c ESC); [|apply IH].
  destruct s1 as [|d s2]; [apply IH|].
  destruct (Ascii.eqb d "["); [|apply IH].
  apply csi_tail_cons, IH.
Qed.
Lemma elem_of_map {A B} (f : A -> B) (l : list A) (y : B) :
  y ∈ map f l <-> exists x, y = f x /\ x ∈ l.
Proof. apply (list_elem_of_fmap f l y). Qed.

(** ** Rendering state across chunks *)

(** What does carry over: the attribute a window is left in (the value of
    the last [attrset]) is what the next chunk for that window starts in.
    The pending newline and every literal run of the next chunk that comes
    before its first SGR sequence are written in that attribute. *)
Lemma window_attribute_carries_over (o : Opts) (W2 : World) (id : nat)
    (t2 : text) (s1 s2 : Screen) (w1 : Window) (c1 : CWin)
    (pre post : list text) :
  getwin id s1 = Some w1 -> win w1 = Some c1 -> is_inactive id s1 = false ->
  escregex_split (chunk_body t2) = pre ++ post -> no_sgr 0 pre = true ->
  append o W2 id t2 false s1 = Ok s2 ->
  exists w2 c2 more,
    getwin id s2 = Some w2 /\ win w2 = Some c2
    /\ cw_out c2
       = cw_out c1
         ++ map (pair (cw_attr c1))
              ((if newline w1 then [[LF]] else []) ++ literals 0 pre)
         ++ more.
Proof.
  intros Hw Hc Hi Hsplit Hpre H.
  destruct (append_shown _ _ _ _ _ _ _ _ _ Hw Hc Hi H)
    as (d & w2 & Hd & Hw2 & Hc2 & _ & _).
  rewrite Hsplit, interp_app in Hd.
  apply bind_Ok in Hd as (d1 & Hd1 & Hd2).
  apply (interp_no_sgr _ _ _ _ _ _ Hpre) in Hd1 as [Ha Ho].
  apply interp_out in Hd2 as [more Hm].
  exists w2, (d_win d), more. split; [done|]. split; [done|].
  rewrite Hm, Ho. unfold pen_up. simpl.
  destruct (newline w1); simpl; by rewrite <- ?app_assoc.
Qed.

(** The first literal run of any chunk is such a run. *)
Lemma first_literal_run (t : text) :
  exists l rest,
    escregex_split t = [l] ++ rest /\ no_sgr 0 [l] = true
    /\ literals 0 [l] = [l].
Proof.
  destruct (escregex_split_from_cons [] t) as (l & rest & E).
  exists l, rest. unfold escregex_split. by rewrite E.
Qed.

(** A redraw starts every window it shows afresh: the replay of the backlog
    begins in the default attribute, whatever the window showed before. *)
Lemma tile_replays_from_default (o : Opts) (W : World) (width bl : Z)
    (inact : list nat) (fpd : text) (ws ws' : list Window) (t : Tiling)
    (k k' : gmap (Z * Z) Z * list Bell) :
  tile o W width bl inact fpd ws t k = Ok (ws', k') ->
  forall w c, w ∈ ws' -> win w = Some c ->
    exists l more, cw_out c = (0, l) :: more.
Proof.
  revert ws' t k k'. induction ws as [|v ws IH]; intros ws' t k k' H w c Hin Hc;
    simpl in H.
  - injection H as <- <-. by apply elem_of_nil in Hin.
  - destruct (_ && _).
    + apply bind_Ok in H as ([w2 k2] & Ha & H).
      apply bind_Ok in H as ([rest' k3] & Ht & H). injection H as <- <-.
      apply elem_of_cons in Hin as [->|Hin]; [|by eapply IH].
      simpl in Hc. unfold append_window in Ha. simpl in Ha.
      apply bind_Ok in Ha as (d & Hd & Ha). injection Ha as <- <-.
      simpl in Hc. injection Hc as <-.
      destruct (escregex_split_from_cons []
                  (if endswith (backlog v) [LF]
                   then slice None (Some (-1)) (backlog v) else backlog v))
        as (l & rest & E).
      unfold escregex_split in Hd. rewrite E in Hd. simpl in Hd.
      apply interp_out in Hd as [more Hm]. simpl in Hm. eauto.
    + apply bind_Ok in H as ([rest' k3] & Ht & H). injection H as <- <-.
      apply elem_of_cons in Hin as [->|Hin]; [done|by eapply IH].
Qed.

Lemma redraw_replays_from_default (o : Opts) (W : World) (s s' : Screen) :
  redraw o W s = Ok s' ->
  forall w c, w ∈ windows s' -> win w = Some c ->
    exists l more, cw_out c = (0, l) :: more.
Proof.
  unfold redraw. destruct (getmaxyx W) as [height width].
  destruct (_ >? 0).
  - intros H. apply bind_Ok in H as ([[rows shown] extra] & _ & H).
    apply bind_Ok in H as ([ws k] & Ht & H). injection H as <-. simpl.
    by eapply tile_replays_from_default.
  - intros H. injection H as <-. simpl. intros w c Hin Hc.
    apply elem_of_map in Hin as (v & -> & _). done.
Qed.

(** ** The deferred newline *)

(** C10: a chunk that ends in a newline is drawn as the chunk without it,
    the window's [newline] flag is set, and whatever chunk comes next for
    the window, the first thing written is that newline. *)
Theorem trailing_newline_deferred (o : Opts) (W : World) (id : nat) (t : text)
    (s s1 : Screen) (w : Window) (c : CWin) :
  getwin id s = Some w -> win w = Some c -> is_inactive id s = false ->
  append o W id (t ++ [LF]) false s = Ok s1 ->
  exists w1 d,
    getwin id s1 = Some w1 /\ newline w1 = true
    /\ interp o W 0 (escregex_split t)
         (pen_up (if newline w then addstr W [LF] c else c)
            (colors s, bells s)) = Ok d
    /\ win w1 = Some (d_win d)
    /\ forall W2 u s2,
         append o W2 id u false s1 = Ok s2 ->
         exists w2 c2 more,
           getwin id s2 = Some w2 /\ win w2 = Some c2
           /\ cw_out c2
              = cw_out (d_win d) ++ (cw_attr (d_win d), [LF]) :: more.
Proof.
  intros Hw Hc Hi H.
  destruct (append_shown _ _ _ _ _ _ _ _ _ Hw Hc Hi H)
    as (d & w1 & Hd & Hw1 & Hc1 & Hn & Hi1).
  unfold chunk_body in Hd. rewrite endswith_snoc in Hd, Hn.
  rewrite slice_chop in Hd.
  exists w1, d. repeat (split; [done|]).
  intros W2 u s2 H2.
  destruct (append_shown _ _ _ _ _ _ _ _ _ Hw1 Hc1 Hi1 H2)
    as (d2 & w2 & Hd2 & Hw2 & Hc2 & _ & _).
  rewrite Hn in Hd2. apply interp_out in Hd2 as [more Hm]. simpl in Hm.
  exists w2, (d_win d2), more. by rewrite Hm, <- app_assoc.
Qed.
(** Scenario B on a new window: the runs written, each with its attribute
    (256 is the colour pair of red on the default background), and the
    newline held back. *)
Example scenario_B_drawn :
  (fun m => (fun w => (cw_out <$> win w, newline w))
              <$> getwin 1%nat (scr m))
    (get_ok empty_monitor
       (run default_opts (world_at 0 (24, 80) [])
          [(world_at 1 (24, 80) scenario_B, IN_MODIFY fetchlog)]))
  = Some (Some [(0, []); (0, txt "abc"); (color_pair COLOR_RED, txt "red");
                (0, txt "def")], true).
Proof. vm_compute. reflexivity. Qed.

Lemma trailing_newline_deferred_witness :
  let s := scr fetch_monitor in
  let W := world_at 2 (24, 80) [] in
  exists w c s1,
    getwin 1%nat s = Some w /\ win w = Some c /\ is_inactive 1%nat s = false
    /\ append default_opts W 1%nat (scenario_B_body ++ [LF]) false s = Ok s1
    /\ exists w1, getwin 1%nat s1 = Some w1 /\ newline w1 = true.
Proof.
  intros s W. do 3 eexists.
  split; [vm_compute; reflexivity|].
  split; [vm_compute; reflexivity|].
  split; [vm_compute; reflexivity|].
  split; [vm_compute; reflexivity|].
  edestruct (trailing_newline_deferred default_opts W 1%nat scenario_B_body s)
    as (w1 & d & Hw1 & Hn & _);
    [vm_compute; reflexivity ..|].
  exists w1. split; [exact Hw1|exact Hn].
Defined.
(** ** The shape of a split *)

Lemma csi_tail_ok (cont : text -> list text) (literal : list text)
    (lit m r : text) :
  seqs_ok true literal ->
  (forall r', (length r' < length r)%nat -> seqs_ok true (cont r')) ->
  (exists body, m = ESC :: "["%char :: body) ->
  seqs_ok true (csi_tail cont literal lit m r).
Proof.
  intros Hl. revert m. induction r as [|p r IH]; intros m Hc [body ->];
    simpl; [done|].
  destruct (is_param p).
  - apply IH; [intros; apply Hc; simpl; lia | by exists (body ++ [p])].
  - destruct (is_final p); [|done]. simpl. split; [by left|].
    split; [right; right; by exists body, p | apply Hc; simpl; lia].
Qed.

Lemma escregex_split_from_ok (n : nat) (s lit : text) :
  (length s <= n)%nat -> seqs_ok true (escregex_split_from lit s).
Proof.
  revert s lit. induction n as [|n IH]; intros s lit Hn.
  - destruct s; [simpl; auto | simpl in Hn; lia].
  - destruct s as [|c s1]; [simpl; auto|]. simpl in Hn |- *.
    destruct (Ascii.eqb_spec c BEL) as [->|_].
    { simpl. split; [by left|]. split; [right; by left|]. apply IH. lia. }
    destruct (Ascii.eqb_spec c ESC) as [->|_]; [|apply IH; lia].
    destruct s1 as [|d s2]; [apply IH; simpl; lia|].
    destruct (Ascii.eqb_spec d "[") as [->|_]; [|apply IH; simpl in *; lia].
    apply csi_tail_ok; [apply IH; lia | | by exists []].
    intros r' Hr. apply IH. simpl in Hn. lia.
Qed.

Lemma escregex_split_ok (s : text) : seqs_ok true (escregex_split s).
Proof. by apply (escregex_split_from_ok (length s)). Qed.

(** ** Layout *)

Lemma layout_raises (height n : Z) :
  1 <= height <= 4 -> 0 < n -> layout height n = Raise ZeroDivisionError.
Proof.
  intros Hh Hn. unfold layout.
  assert ((height - 1) / n <= 3).
  { transitivity ((height - 1) / 1); [|rewrite Z.div_1_r; lia].
    apply Z.div_le_compat_l; lia. }
  assert (((height - 1) / n <? 4) = true) as -> by lia.
  assert ((height - 1) / 4 = 0) as -> by (apply Z.div_small; lia).
  reflexivity.
Qed.

Lemma redraw_small_terminal_raises_aux (o : Opts) (W : World) (s : Screen) :
  1 <= fst (getmaxyx W) <= 4 ->
  (length (inactive s) < length (windows s))%nat ->
  redraw o W s = Raise ZeroDivisionError.
Proof.
  intros Hh Hn. unfold redraw. destruct (getmaxyx W) as [height width].
  simpl in Hh.
  assert ((Z.of_nat (length (windows s)) - Z.of_nat (length (inactive s)) >? 0)
          = true) as -> by lia.
  rewrite layout_raises by lia. reflexivity.
Qed.

(** X27: on a terminal of at most four rows the layout of a screen
    with a window that is not inactive divides by zero: fewer than four rows
    are left above the status bar, [jobcount] becomes [int((height-1)/4) = 0]
    and [(height - 1) % jobcount] raises.  The exception ends the program;
    no window is hidden and nothing is drawn. *)
Theorem redraw_small_terminal_raises (o : Opts) (W : World) (s : Screen) :
  1 <= fst (getmaxyx W) <= 4 ->
  (length (inactive s) < length (windows s))%nat ->
  redraw o W s = Raise ZeroDivisionError.
Proof. intros. eapply redraw_small_terminal_raises_aux; eassumption. Qed.

Lemma redraw_small_terminal_raises_witness :
  1 <= fst (getmaxyx (world_at 2 (4, 80) [])) <= 4
  /\ (length (inactive (scr fetch_monitor))
      < length (windows (scr fetch_monitor)))%nat
  /\ redraw default_opts (world_at 2 (4, 80) []) (scr fetch_monitor)
     = Raise ZeroDivisionError.
Proof.
  split; [vm_compute; split; discriminate|].
  split; [vm_compute; lia|].
  apply redraw_small_terminal_raises; [vm_compute; split; discriminate|].
  vm_compute. lia.
Defined.

(** The same at start-up: the first job log that appears on a 4x80 terminal
    ends the run. *)
Example first_window_on_small_terminal :
  run default_opts (world_at 0 (4, 80) [])
    [(world_at 1 (4, 80) (txt "abc"), IN_MODIFY fetchlog)]
  = Raise ZeroDivisionError.
Proof. vm_compute. reflexivity. Qed.
(** ** What the methods of [Screen] leave alone *)

Lemma append_window_replay_core (o : Opts) (W : World) (bl : Z) (t : text)
    (w w' : Window) (k k' : gmap (Z * Z) Z * list Bell) :
  append_window o W bl t true w k = Ok (w', k') -> core w' = core w.
Proof.
  unfold append_window. simpl. destruct (win w).
  - intros H. apply bind_Ok in H as (d & _ & H). by injection H as <- <-.
  - intros H. by injection H as <- <-.
Qed.

Lemma tile_core (o : Opts) (W : World) (width bl : Z) (inact : list nat)
    (fpd : text) (ws ws' : list Window) (t : Tiling)
    (k k' : gmap (Z * Z) Z * list Bell) :
  tile o W width bl inact fpd ws t k = Ok (ws', k') ->
  map core ws' = map core ws.
Proof.
  revert ws' t k k'. induction ws as [|v ws IH]; intros ws' t k k' H;
    simpl in H.
  - by injection H as <- <-.
  - destruct (_ && _).
    + apply bind_Ok in H as ([w2 k2] & Ha & H).
      apply bind_Ok in H as ([rest' k3] & Ht & H). injection H as <- <-.
      simpl. f_equal; [|by eapply IH].
      apply append_window_replay_core in Ha.
      transitivity (core w2); [done|by rewrite Ha].
    + apply bind_Ok in H as ([rest' k3] & Ht & H). injection H as <- <-.
      simpl. f_equal. by eapply IH.
Qed.

(** [redraw] recomputes the capacity and changes nothing else that the
    controller relies on. *)
Lemma redraw_frame (o : Opts) (W : World) (s s' : Screen) :
  redraw o W s = Ok s' ->
  map core (windows s') = map core (windows s)
  /\ inactive s' = inactive s
  /\ backloglen s' = capacity W.
Proof.
  unfold redraw, capacity. destruct (getmaxyx W) as [height width].
  destruct (_ >? 0).
  - intros H. apply bind_Ok in H as ([[rows shown] extra] & _ & H).
    apply bind_Ok in H as ([ws k] & Ht & H). injection H as <-. simpl.
    split; [by eapply tile_core|done].
  - intros H. injection H as <-. simpl. split; [|done].
    rewrite map_map. by apply map_ext.
Qed.

(** A redraw that shows a window on a sane terminal has found five rows or
    more. *)
Lemma redraw_rows (o : Opts) (W : World) (s s' : Screen) :
  sane W -> (length (inactive s) < length (windows s))%nat ->
  redraw o W s = Ok s' -> 5 <= fst (getmaxyx W).
Proof.
  intros [Hh _] Hn H.
  destruct (decide (5 <= fst (getmaxyx W))) as [|Hsmall]; [done|].
  rewrite redraw_small_terminal_raises_aux in H by lia. discriminate.
Qed.
(** ** Looking windows up *)

Lemma core_spine (w v : Window) : core w = core v -> spine w = spine v.
Proof. unfold core. congruence. Qed.

Lemma map_core_spine (ws ws' : list Window) :
  map core ws' = map core ws -> map spine ws' = map spine ws.
Proof.
  revert ws'. induction ws as [|w ws IH]; intros [|w' ws'] H; simpl in *;
    try discriminate; [done|].
  injection H as Hc Hr H. f_equal; [unfold spine, core in *; congruence|].
  by apply IH.
Qed.

Lemma map_spine_wid (ws ws' : list Window) :
  map spine ws' = map spine ws ->
  map wid ws' = map wid ws /\ map basedir ws' = map basedir ws.
Proof.
  revert ws'. induction ws as [|w ws IH]; intros [|w' ws'] H; simpl in *;
    try discriminate; [done|].
  injection H as Hw Hb Hl He H. destruct (IH _ H) as [-> ->].
  by rewrite Hw, Hb.
Qed.

Lemma Forall_spine (Q : nat * text * option text * Z -> Prop)
    (ws ws' : list Window) :
  map spine ws' = map spine ws ->
  Forall (fun w => Q (spine w)) ws -> Forall (fun w => Q (spine w)) ws'.
Proof.
  revert ws'. induction ws as [|w ws IH]; intros [|w' ws'] H Hf;
    simpl in *; try discriminate; [done|].
  apply Forall_cons in Hf as [Hw Hf].
  assert (spine w' = spine w) as Hs by congruence.
  assert (map spine ws' = map spine ws) as Hm by congruence.
  apply Forall_cons. split; [by rewrite Hs|by apply IH].
Qed.

(** The registry invariant looks at the spines and the inactive list only. *)
Lemma registry_ok_ext (s s' : Screen) :
  map spine (windows s') = map spine (windows s) ->
  inactive s' = inactive s ->
  registry_ok s -> registry_ok s'.
Proof.
  intros Hs Hi [H1 H2 H3 H4 H5 H6 H7].
  destruct (map_spine_wid _ _ Hs) as [Hw Hb].
  split.
  - by rewrite Hw.
  - by rewrite Hi.
  - by rewrite Hw, Hi.
  - by rewrite Hb.
  - by apply (Forall_spine (fun p => 0 <= p.2) _ _ Hs).
  - by apply (Forall_spine (fun p => p.1.2 = None -> p.2 = 0) _ _ Hs).
  - by apply (Forall_spine
                (fun p => p.1.1.2 = txt "_fetch" -> p.1.2 = None) _ _ Hs).
Qed.

Lemma getwin_elem_of (id : nat) (s : Screen) (w : Window) :
  getwin id s = Some w -> w ∈ windows s /\ wid w = id.
Proof.
  unfold getwin. intros H. apply find_some in H as [Hin H].
  split; [by apply list_elem_of_In | by apply Nat.eqb_eq].
Qed.

Lemma find_wid_elem (id : nat) (ws : list Window) :
  id ∈ map wid ws ->
  exists w, find (fun w => Nat.eqb (wid w) id) ws = Some w.
Proof.
  induction ws as [|v ws IH]; simpl; intros H.
  - by apply elem_of_nil in H.
  - destruct (Nat.eqb_spec (wid v) id) as [|Hne]; [eauto|].
    apply elem_of_cons in H as [H|H]; [congruence|by apply IH].
Qed.

Lemma find_wid_unique (id : nat) (ws : list Window) (w v : Window) :
  NoDup (map wid ws) ->
  find (fun w => Nat.eqb (wid w) id) ws = Some w ->
  v ∈ ws -> wid v = id -> v = w.
Proof.
  induction ws as [|u ws IH]; simpl; intros Hn Hf Hv Hid; [discriminate|].
  apply NoDup_cons in Hn as [Hu Hn].
  destruct (Nat.eqb_spec (wid u) id) as [Hu'|Hne].
  - injection Hf as <-. apply elem_of_cons in Hv as [->|Hv]; [done|].
    exfalso. apply Hu. rewrite Hu', <- Hid. apply elem_of_map. eauto.
  - apply elem_of_cons in Hv as [->|Hv]; [done|by apply IH].
Qed.

Lemma getwin_unique (id : nat) (s : Screen) (w v : Window) :
  NoDup (map wid (windows s)) -> getwin id s = Some w ->
  v ∈ windows s -> wid v = id -> v = w.
Proof. apply find_wid_unique. Qed.

Lemma find_wid_core (id : nat) (ws ws' : list Window) (w : Window) :
  map core ws' = map core ws ->
  find (fun w => Nat.eqb (wid w) id) ws = Some w ->
  exists w', find (fun w => Nat.eqb (wid w) id) ws' = Some w'
             /\ core w' = core w.
Proof.
  revert ws'. induction ws as [|v ws IH]; intros [|v' ws'] H Hf;
    simpl in *; try discriminate.
  assert (core v' = core v) as Hc by congruence.
  assert (map core ws' = map core ws) as Hm by congruence.
  assert (wid v' = wid v) as -> by (unfold core, spine in Hc; congruence).
  destruct (Nat.eqb (wid v) id); [|by apply IH].
  injection Hf as <-. eauto.
Qed.

Lemma elem_of_core (ws ws' : list Window) (w' : Window) :
  map core ws' = map core ws -> w' ∈ ws' ->
  exists w, w ∈ ws /\ core w' = core w.
Proof.
  revert ws'. induction ws as [|v ws IH]; intros [|v' ws'] H Hin;
    simpl in *; try discriminate.
  - by apply elem_of_nil in Hin.
  - assert (core v' = core v) as Hc by congruence.
    assert (map core ws' = map core ws) as Hm by congruence.
    apply elem_of_cons in Hin as [->|Hin].
    + exists v. split; [left|done].
    + destruct (IH _ Hm Hin) as (w & Hw & E). exists w. split; [by right|done].
Qed.

Lemma list_remove_elem (x y : nat) (l : list nat) :
  y ∈ list_remove x l -> y ∈ l.
Proof.
  induction l as [|z l IH]; simpl; [done|].
  destruct (Nat.eqb x z); [by right|].
  intros H. apply elem_of_cons in H as [->|H]; [left|right; by apply IH].
Qed.

Lemma list_remove_NoDup (x : nat) (l : list nat) :
  NoDup l -> NoDup (list_remove x l) /\ x ∉ list_remove x l.
Proof.
  induction l as [|z l IH]; simpl; intros Hn.
  - split; [constructor|apply not_elem_of_nil].
  - apply NoDup_cons in Hn as [Hz Hn]. destruct (IH Hn) as [IH1 IH2].
    destruct (Nat.eqb_spec x z) as [->|Hne]; [done|].
    split.
    + apply NoDup_cons. split; [|done]. intros H. by apply list_remove_elem in H.
    + intros H. apply elem_of_cons in H as [H|H]; [done|by apply IH2].
Qed.

Lemma list_remove_other (x y : nat) (l : list nat) :
  y ∈ l -> y <> x -> y ∈ list_remove x l.
Proof.
  induction l as [|z l IH]; simpl; intros H Hne; [done|].
  destruct (Nat.eqb_spec x z) as [->|Hxz].
  - apply elem_of_cons in H as [H|H]; [congruence|done].
  - apply elem_of_cons in H as [->|H]; [left|right; by apply IH].
Qed.

Lemma list_remove_length (x : nat) (l : list nat) :
  x ∈ l -> length l = S (length (list_remove x l)).
Proof.
  induction l as [|z l IH]; simpl; intros H; [by apply elem_of_nil in H|].
  destruct (Nat.eqb_spec x z) as [->|Hxz]; [done|].
  apply elem_of_cons in H as [H|H]; [done|]. simpl. by rewrite <- IH.
Qed.

(** Inactive windows are windows: when one window is not inactive there are
    fewer inactive windows than windows. *)
Lemma active_count (ws : list nat) (ina : list nat) (id : nat) :
  NoDup ina -> (forall x, x ∈ ina -> x ∈ ws) -> id ∈ ws -> id ∉ ina ->
  (length ina < length ws)%nat.
Proof.
  intros Hn Hsub Hid Hni.
  assert (id :: ina ⊆+ ws) as Hle.
  { apply NoDup_submseteq; [by apply NoDup_cons|].
    intros x Hx. apply elem_of_cons in Hx as [->|Hx]; [done|by apply Hsub]. }
  apply submseteq_length in Hle. simpl in Hle. lia.
Qed.
(** ** The registry invariant *)

Lemma modify_core (id : nat) (f : Window -> Window) (s : Screen) :
  (forall w, core (f w) = core w) ->
  map core (windows (modify id f s)) = map core (windows s).
Proof.
  intros Hf. unfold modify. simpl. rewrite map_map. apply map_ext.
  intros w. by destruct (Nat.eqb (wid w) id).
Qed.

Lemma modify_wids (id : nat) (f : Window -> Window) (s : Screen) :
  (forall w, wid (f w) = wid w) ->
  map wid (windows (modify id f s)) = map wid (windows s).
Proof.
  intros Hf. unfold modify. simpl. rewrite map_map. apply map_ext.
  intros w. by destruct (Nat.eqb (wid w) id).
Qed.

Lemma modify_Forall (P : Window -> Prop) (id : nat) (f : Window -> Window)
    (s : Screen) :
  Forall P (windows s) ->
  (forall w, w ∈ windows s -> wid w = id -> P w -> P (f w)) ->
  Forall P (windows (modify id f s)).
Proof.
  intros HP Hf. unfold modify. simpl. apply Forall_forall. intros v Hv.
  apply elem_of_map in Hv as (w & -> & Hw).
  pose proof (proj1 (Forall_forall _ _) HP w Hw) as Pw.
  destruct (Nat.eqb_spec (wid w) id); [by apply Hf|done].
Qed.

Lemma registry_ok_inactive (l : list nat) (s : Screen) :
  registry_ok s -> NoDup l ->
  (forall x, x ∈ l -> x ∈ map wid (windows s)) ->
  registry_ok (set_inactive l s).
Proof. intros [H1 H2 H3 H4 H5 H6 H7] Hl Hs. by split. Qed.

Lemma redraw_registry (o : Opts) (W : World) (s s' : Screen) :
  registry_ok s -> redraw o W s = Ok s' -> registry_ok s'.
Proof.
  intros Hr H. destruct (redraw_frame _ _ _ _ H) as (Hc & Hi & _).
  apply (registry_ok_ext s); [by apply map_core_spine|done|done].
Qed.

Lemma append_window_data (o : Opts) (W : World) (bl : Z) (t : text)
    (w w' : Window) (k k' : gmap (Z * Z) Z * list Bell) :
  append_window o W bl t false w k = Ok (w', k') ->
  spine w' = spine w
  /\ backlog w' = slice (Some (- bl)) None (backlog w ++ t)
  /\ stream w' = stream w ++ t.
Proof.
  unfold append_window. simpl. destruct (win w).
  - intros H. apply bind_Ok in H as (d & _ & H). by injection H as <- <-.
  - intros H. by injection H as <- <-.
Qed.

(** The stages of [append]. *)
Lemma append_inv (o : Opts) (W : World) (id : nat) (t : text) (omit : bool)
    (s s' : Screen) (w : Window) :
  getwin id s = Some w -> append o W id t omit s = Ok s' ->
  exists s2 w2 w' k,
    (if is_inactive id s
     then redraw o W (set_inactive (list_remove id (inactive s))
                        (modify id (set_activity (now W)) s)) = Ok s2
     else s2 = modify id (set_activity (now W)) s)
    /\ getwin id s2 = Some w2 /\ core w2 = core w
    /\ append_window o W (backloglen s2) t omit w2 (colors s2, bells s2)
       = Ok (w', k)
    /\ s' = commit w' k s2.
Proof.
  intros Hw H. unfold append in H.
  assert (getwin id (modify id (set_activity (now W)) s)
          = Some (set_activity (now W) w)) as Hw1.
  { rewrite getwin_modify, Hw by done. simpl.
    by rewrite (getwin_wid _ _ _ Hw), Nat.eqb_refl. }
  change (is_inactive id (modify id (set_activity (now W)) s))
    with (is_inactive id s) in H.
  apply bind_Ok in H as (s2 & Hs2 & H).
  assert (exists w2, getwin id s2 = Some w2 /\ core w2 = core w)
    as (w2 & Hw2 & Hc2).
  { destruct (is_inactive id s).
    - destruct (redraw_frame _ _ _ _ Hs2) as (Hc & _ & _).
      destruct (find_wid_core id _ _ _ Hc Hw1) as (w2 & Hf & E).
      exists w2. split; [done|]. by rewrite E.
    - injection Hs2 as <-. eauto. }
  rewrite Hw2 in H. apply bind_Ok in H as ([w' k] & Ha & H).
  injection H as <-. exists s2, w2, w', k.
  split; [|done]. destruct (is_inactive id s); [done|congruence].
Qed.

Lemma commit_spine (id : nat) (w2 w' : Window)
    (k : gmap (Z * Z) Z * list Bell) (s : Screen) :
  NoDup (map wid (windows s)) -> getwin id s = Some w2 ->
  spine w' = spine w2 ->
  map spine (windows (commit w' k s)) = map spine (windows s).
Proof.
  intros Hn Hw Hs. unfold commit. simpl. rewrite map_map.
  apply map_ext_in. intros v Hv.
  assert (wid w' = id) as Hid.
  { apply getwin_wid in Hw. unfold spine in Hs. congruence. }
  destruct (Nat.eqb_spec (wid v) (wid w')) as [E|]; [|done].
  rewrite (getwin_unique id s w2 v Hn Hw); [done| |congruence].
  by apply list_elem_of_In.
Qed.

Lemma append_registry (o : Opts) (W : World) (id : nat) (t : text)
    (s s' : Screen) (w : Window) :
  registry_ok s -> getwin id s = Some w ->
  append o W id t false s = Ok s' -> registry_ok s'.
Proof.
  intros Hr Hw H.
  destruct (append_inv _ _ _ _ _ _ _ _ Hw H)
    as (s2 & w2 & w' & k & Hs2 & Hw2 & Hc2 & Ha & ->).
  assert (registry_ok (modify id (set_activity (now W)) s)) as Hr1.
  { apply (registry_ok_ext s); [|reflexivity|exact Hr].
    by apply map_core_spine, modify_core. }
  assert (registry_ok s2) as Hr2.
  { destruct (is_inactive id s); [|by subst].
    eapply redraw_registry; [|exact Hs2].
    apply registry_ok_inactive; [done| |].
    - apply list_remove_NoDup, Hr.
    - intros x Hx. apply list_remove_elem in Hx. by apply Hr1. }
  apply append_window_data in Ha as (Hs & _ & _).
  apply (registry_ok_ext s2); [|reflexivity|exact Hr2].
  eapply commit_spine; [apply Hr2|exact Hw2|exact Hs].
Qed.

Lemma findwin_None (bd : text) (s : Screen) :
  findwin bd s = None -> bd ∉ map basedir (windows s).
Proof.
  unfold findwin. intros H Hin. apply elem_of_map in Hin as (w & -> & Hw).
  apply list_elem_of_In in Hw.
  pose proof (find_none _ _ H w Hw) as E. simpl in E.
  unfold text_eqb in E. by rewrite bool_decide_eq_false in E.
Qed.

Lemma addwin_registry (o : Opts) (W : World) (w : Window) (bd : text)
    (lock : option text) (s s' : Screen) :
  registry_ok s -> findwin bd s = None -> wid w ∉ map wid (windows s) ->
  (bd = txt "_fetch" -> lock = None) ->
  addwin o W w bd lock s = Ok s' -> registry_ok s'.
Proof.
  intros [H1 H2 H3 H4 H5 H6 H7] Hbd Hid Hl H. unfold addwin in H.
  eapply redraw_registry; [|exact H]. apply findwin_None in Hbd.
  split; simpl; rewrite ?map_app; simpl.
  - apply NoDup_app. split; [done|]. split; [|apply NoDup_singleton].
    intros x Hx Hx'. apply list_elem_of_singleton in Hx'. by subst.
  - done.
  - intros x Hx. apply elem_of_app. left. by apply H3.
  - apply NoDup_app. split; [done|]. split; [|apply NoDup_singleton].
    intros x Hx Hx'. apply list_elem_of_singleton in Hx'. by subst.
  - apply Forall_app. split; [done|]. by apply Forall_singleton.
  - apply Forall_app. split; [done|]. by apply Forall_singleton.
  - apply Forall_app. split; [done|]. by apply Forall_singleton.
Qed.
Lemma remove_window_elem (id : nat) (ws : list Window) (v : Window) :
  v ∈ remove_window id ws -> v ∈ ws.
Proof.
  induction ws as [|u ws IH]; simpl; [done|].
  destruct (Nat.eqb (wid u) id); [by right|].
  intros H. apply elem_of_cons in H as [->|H]; [left|right; by apply IH].
Qed.

Lemma remove_window_other (id : nat) (ws : list Window) (v : Window) :
  v ∈ ws -> wid v <> id -> v ∈ remove_window id ws.
Proof.
  induction ws as [|u ws IH]; simpl; intros H Hne; [done|].
  destruct (Nat.eqb_spec (wid u) id) as [E|_].
  - apply elem_of_cons in H as [->|H]; [done|done].
  - apply elem_of_cons in H as [->|H]; [left|right; by apply IH].
Qed.

Lemma remove_window_sublist (id : nat) (ws : list Window) :
  remove_window id ws `sublist_of` ws.
Proof.
  induction ws as [|u ws IH]; simpl; [done|].
  destruct (Nat.eqb (wid u) id); [by apply sublist_cons|by apply sublist_skip].
Qed.

Lemma remove_window_gone (id : nat) (ws : list Window) :
  NoDup (map wid ws) -> id ∉ map wid (remove_window id ws).
Proof.
  induction ws as [|u ws IH]; simpl; intros Hn; [apply not_elem_of_nil|].
  apply NoDup_cons in Hn as [Hu Hn].
  destruct (Nat.eqb_spec (wid u) id) as [<-|Hne]; [done|].
  simpl. intros H. apply elem_of_cons in H as [H|H]; [done|by apply IH].
Qed.

Lemma map_sublist {A B} (f : A -> B) (l k : list A) :
  l `sublist_of` k -> map f l `sublist_of` map f k.
Proof. apply (fmap_sublist f). Qed.

Lemma sublist_Forall {A} (P : A -> Prop) (l k : list A) :
  l `sublist_of` k -> Forall P k -> Forall P l.
Proof.
  intros Hs HP. apply Forall_forall. intros x Hx.
  apply (proj1 (Forall_forall _ _) HP). by eapply elem_of_sublist.
Qed.

Lemma delwin_registry (o : Opts) (W : World) (id : nat) (s s' : Screen) :
  registry_ok s -> delwin o W id s = Ok s' -> registry_ok s'.
Proof.
  intros [H1 H2 H3 H4 H5 H6 H7] H. unfold delwin in H.
  destruct (getwin id s) as [w|]; [|discriminate].
  eapply redraw_registry; [|exact H].
  pose proof (remove_window_sublist id (windows s)) as Hsub.
  assert (forall l, NoDup l -> (forall x, x ∈ l -> x ∈ inactive s) ->
                    id ∉ l ->
                    registry_ok
                      (set_inactive l
                         (set_windows (remove_window id (windows s)) s)))
    as Hgen.
  { intros l Hl Hli Hid. split; simpl.
    - eapply sublist_NoDup; [exact H1|by apply map_sublist].
    - done.
    - intros x Hx. assert (x <> id) as Hne by congruence.
      apply Hli, H3, elem_of_map in Hx as (v & -> & Hv).
      apply elem_of_map. exists v. split; [done|].
      by apply remove_window_other.
    - eapply sublist_NoDup; [exact H4|by apply map_sublist].
    - by eapply sublist_Forall.
    - by eapply sublist_Forall.
    - by eapply sublist_Forall. }
  change (is_inactive id (set_windows (remove_window id (windows s)) s))
    with (bool_decide (id ∈ inactive s)).
  destruct (bool_decide_reflect (id ∈ inactive s)) as [Hin|Hnin].
  - apply Hgen; [by apply list_remove_NoDup| |by apply list_remove_NoDup].
    intros x. apply list_remove_elem.
  - apply (Hgen (inactive s)); done.
Qed.

Lemma modify_registry (id : nat) (f : Window -> Window) (s : Screen) :
  registry_ok s ->
  (forall w, wid (f w) = wid w) -> (forall w, basedir (f w) = basedir w) ->
  (forall w, w ∈ windows s -> wid w = id ->
             0 <= expectclose (f w)
             /\ (lockfn (f w) = None -> expectclose (f w) = 0)
             /\ (basedir (f w) = txt "_fetch" -> lockfn (f w) = None)) ->
  registry_ok (modify id f s).
Proof.
  intros [H1 H2 H3 H4 H5 H6 H7] Hw Hb Hf. split.
  - by rewrite modify_wids.
  - done.
  - intros x Hx. rewrite modify_wids by done. by apply H3.
  - unfold modify. simpl. rewrite map_map.
    erewrite map_ext; [exact H4|]. intros v. simpl.
    by destruct (Nat.eqb (wid v) id).
  - apply modify_Forall; [done|]. intros v Hv Hid _. by apply Hf.
  - apply modify_Forall; [done|]. intros v Hv Hid _. by apply Hf.
  - apply modify_Forall; [done|]. intros v Hv Hid _. by apply Hf.
Qed.

Lemma step_registry (o : Opts) (W : World) (s s' : Screen) :
  registry_ok s -> step o W s s' -> registry_ok s'.
Proof.
  intros Hr Hstep. destruct Hstep.
  - by eapply redraw_registry.
  - by eapply append_registry.
  - by eapply addwin_registry.
  - by eapply delwin_registry.
  - apply (registry_ok_ext s); [|reflexivity|exact Hr].
    by apply map_core_spine, modify_core.
  - apply modify_registry; [done..|]. intros v Hv Hid. simpl.
    rewrite (getwin_unique id s w v) by (done || apply Hr).
    apply getwin_elem_of in H as [Hin _].
    pose proof (proj1 (Forall_forall _ _) (ok_expect _ Hr) w Hin).
    pose proof (proj1 (Forall_forall _ _) (ok_fetch _ Hr) w Hin).
    simpl in *. split; [lia|]. split; [congruence|done].
  - apply modify_registry; [done..|]. intros v Hv Hid. simpl.
    rewrite (getwin_unique id s w v) by (done || apply Hr).
    apply getwin_elem_of in H as [Hin _].
    pose proof (proj1 (Forall_forall _ _) (ok_nolock _ Hr) w Hin) as Hn.
    pose proof (proj1 (Forall_forall _ _) (ok_fetch _ Hr) w Hin).
    simpl in *. split; [lia|]. split; [|done].
    intros Hl. specialize (Hn Hl). lia.
  - apply getwin_elem_of in H0 as [Hin <-].
    apply registry_ok_inactive; [done| |].
    + apply NoDup_app. split; [apply Hr|]. split; [|apply NoDup_singleton].
      intros x Hx Hx'. apply list_elem_of_singleton in Hx'. subst.
      unfold is_inactive in H1. by rewrite bool_decide_eq_false in H1.
    + intros x Hx. apply elem_of_app in Hx as [Hx|Hx]; [by apply Hr|].
      apply list_elem_of_singleton in Hx. subst. apply elem_of_map. eauto.
Qed.

Lemma steps_registry (o : Opts) (W : World) (s s' : Screen) :
  registry_ok s -> steps o W s s' -> registry_ok s'.
Proof.
  intros Hr Hs. induction Hs as [|a b c Hab _ IH]; [done|].
  apply IH. by eapply step_registry.
Qed.

Lemma steps_trans (o : Opts) (W : World) (s1 s2 s3 : Screen) :
  steps o W s1 s2 -> steps o W s2 s3 -> steps o W s1 s3.
Proof.
  intros H12. revert s3. induction H12 as [|a b c Hab _ IH]; intros s3 H23;
    [done|].
  eapply steps_step; [exact Hab|by apply IH].
Qed.

Lemma steps_one (o : Opts) (W : World) (s s' : Screen) :
  step o W s s' -> steps o W s s'.
Proof. intros H. eapply steps_step; [exact H|apply steps_refl]. Qed.
(** ** Handlers as sequences of elementary effects *)

Lemma foldM_rel {A S} (R : S -> S -> Prop) (body : A -> S -> Result S)
    (l : list A) (s s' : S) :
  (forall a, R a a) -> (forall a b c, R a b -> R b c -> R a c) ->
  (forall x a b, x ∈ l -> body x a = Ok b -> R a b) ->
  foldM body l s = Ok s' -> R s s'.
Proof.
  intros Hrefl Htrans. revert s. induction l as [|x l IH]; intros s Hb H;
    simpl in H.
  - injection H as <-. apply Hrefl.
  - apply bind_Ok in H as (s1 & H1 & H2).
    eapply Htrans; [eapply Hb; [left|exact H1]|].
    apply IH; [|done]. intros y a b Hy. apply Hb. by right.
Qed.

Lemma touch_steps (o : Opts) (W : World) (id : nat) (f : Window -> Window)
    (s : Screen) :
  (forall w, core (f w) = core w) -> steps o W s (modify id f s).
Proof. intros Hf. by apply steps_one, step_touch. Qed.

Lemma getwin_touch (id id' : nat) (f : Window -> Window) (s : Screen)
    (w : Window) :
  (forall w, core (f w) = core w) -> getwin id' s = Some w ->
  exists w', getwin id' (modify id f s) = Some w' /\ core w' = core w.
Proof.
  intros Hf Hw. rewrite getwin_modify, Hw.
  - simpl. destruct (Nat.eqb (wid w) id); eauto.
  - intros v. specialize (Hf v). unfold core, spine in Hf. congruence.
Qed.

Lemma pull_append_steps (o : Opts) (W : World) (id : nat) (s s' : Screen)
    (w : Window) :
  getwin id s = Some w -> pull_append o W id s = Ok s' -> steps o W s s'.
Proof.
  intros Hw H. unfold pull_append, pull in H.
  destruct (getwin_touch id id (set_pullts (now W)) s w) as (w1 & Hw1 & _);
    [done..|].
  eapply steps_trans; [by apply (touch_steps o W id (set_pullts (now W)))|].
  destruct (_ =? 0).
  - injection H as <-. apply steps_refl.
  - eapply steps_one, step_append; [exact Hw1|exact H].
Qed.

Lemma checkact_pull_steps (o : Opts) (W : World) (ts pi : Z) (id : nat)
    (s s' : Screen) :
  checkact_pull o W ts pi id s = Ok s' -> steps o W s s'.
Proof.
  unfold checkact_pull. destruct (getwin id s) as [w|] eqn:Hw.
  - destruct (_ && _).
    + apply (pull_append_steps o W id s s' w Hw).
    + intros H. injection H as <-. apply steps_refl.
  - intros H. injection H as <-. apply steps_refl.
Qed.

Lemma checkact_idle_steps (o : Opts) (W : World) (ts : Z) (id : nat)
    (s s' : Screen) (rd rd' : bool) :
  checkact_idle ts (inact o) id (s, rd) = (s', rd') -> steps o W s s'.
Proof.
  unfold checkact_idle. destruct (getwin id s) as [w|] eqn:Hw.
  - destruct (negb (inact o =? 0)) eqn:Ha; simpl.
    + destruct (negb (is_inactive id s)) eqn:Hi; simpl.
      * destruct (_ >=? _).
        -- intros H. injection H as <- <-.
           eapply steps_one, step_idle; [|exact Hw|].
           ++ apply negb_true_iff, Z.eqb_neq in Ha. done.
           ++ by apply negb_true_iff in Hi.
        -- intros H. injection H as <- <-. apply steps_refl.
      * intros H. injection H as <- <-. apply steps_refl.
    + intros H. injection H as <- <-. apply steps_refl.
  - intros H. injection H as <- <-. apply steps_refl.
Qed.

Lemma checkact_lock_steps (o : Opts) (W : World) (ts at_ li : Z) (id : nat)
    (s s' : Screen) (winrem winrem' : list nat) :
  checkact_lock W ts at_ li id (s, winrem) = Ok (s', winrem') ->
  steps o W s s'.
Proof.
  unfold checkact_lock. destruct (getwin id s) as [w|] eqn:Hw.
  - destruct (lockfn w) as [path|] eqn:Hl.
    + destruct (_ && _).
      * intros H. apply bind_Ok in H as (held & _ & H).
        destruct (negb held).
        -- injection H as <- <-. eapply steps_one, step_expect; done.
        -- injection H as <- <-.
           eapply steps_step; [eapply step_expect; done|].
           by apply touch_steps.
      * intros H. injection H as <- <-. apply steps_refl.
    + intros H. injection H as <- <-. apply steps_refl.
  - intros H. injection H as <- <-. apply steps_refl.
Qed.

Lemma checkact_window_steps (o : Opts) (W : World) (ts pi li : Z) (id : nat)
    (st st' : Screen * bool * list nat) :
  checkact_window o W ts pi (inact o) li id st = Ok st' ->
  steps o W st.1.1 st'.1.1.
Proof.
  destruct st as [[s rd] winrem]. unfold checkact_window. intros H.
  apply bind_Ok in H as (s1 & H1 & H).
  destruct (checkact_idle ts (inact o) id (s1, rd)) as [s2 rd2] eqn:H2.
  apply bind_Ok in H as ([s3 winrem3] & H3 & H). injection H as <-. simpl.
  eapply steps_trans; [by eapply checkact_pull_steps|].
  eapply steps_trans; [by eapply checkact_idle_steps|].
  by eapply checkact_lock_steps.
Qed.

Lemma checkact_steps (o : Opts) (W : World) (ts pi li : Z) (s s' : Screen) :
  checkact o W ts pi (inact o) li s = Ok s' -> steps o W s s'.
Proof.
  unfold checkact, checkact_scan. intros H.
  apply bind_Ok in H as ([[s1 rd] winrem] & H1 & H).
  apply bind_Ok in H as (s2 & H2 & H).
  apply (foldM_rel (fun a b => steps o W a.1.1 b.1.1)) in H1;
    [|intros; apply steps_refl|intros; by eapply steps_trans|
     intros; by eapply checkact_window_steps].
  apply (foldM_rel (steps o W)) in H2;
    [|intros; apply steps_refl|intros; by eapply steps_trans|
     intros; by eapply steps_one, step_delwin].
  simpl in H1. eapply steps_trans; [exact H1|].
  eapply steps_trans; [exact H2|].
  destruct rd; [by apply steps_one, step_redraw|].
  injection H as <-. apply steps_refl.
Qed.
Lemma fresh_id_fresh (s : Screen) : fresh_id s ∉ map wid (windows s).
Proof.
  unfold fresh_id. intros H. apply max_list_elem_of_le in H. lia.
Qed.

Lemma findwin_getwin (bd : text) (s : Screen) (w : Window) :
  findwin bd s = Some w -> exists v, getwin (wid w) s = Some v.
Proof.
  unfold findwin. intros H. apply find_some in H as [Hin _].
  apply find_wid_elem, elem_of_map. exists w. split; [done|].
  by apply list_elem_of_In.
Qed.

Lemma findwin_elem_of (bd : text) (s : Screen) (w : Window) :
  findwin bd s = Some w -> w ∈ windows s /\ basedir w = bd.
Proof.
  unfold findwin. intros H. apply find_some in H as [Hin Hb].
  split; [by apply list_elem_of_In|].
  unfold text_eqb in Hb. by apply bool_decide_eq_true in Hb.
Qed.

Lemma slice_take {A} (n : Z) (l : list A) :
  0 <= n -> slice (Some 0) (Some n) l = take (Z.to_nat n) l.
Proof.
  intros Hn. unfold slice, py_bound.
  assert ((0 <? 0) = false) as -> by lia.
  assert ((n <? 0) = false) as -> by lia.
  replace (Z.to_nat (Z.min 0 _)) with 0%nat by lia. rewrite drop_0.
  destruct (decide (n <= Z.of_nat (length l))).
  - f_equal. lia.
  - rewrite !take_ge by lia. done.
Qed.

Lemma join_head_length (sep pd : text) (l : list text) :
  (length pd <= length (join sep (pd :: l)))%nat.
Proof. destruct l; simpl; [lia|]. rewrite length_app. lia. Qed.

(** A job's source starts with a directory of [pdir], so it is not the
    reserved name of the fetch-log window. *)
Lemma basedir_not_fetch (pd : text) (rest : list text) :
  (8 <= length pd)%nat ->
  join (txt "/") (slice (Some 0) (Some 3) (pd :: rest)) <> txt "_fetch".
Proof.
  intros Hpd E. rewrite slice_take in E by lia.
  change (take (Z.to_nat 3) (pd :: rest)) with (pd :: take 2 rest) in E.
  pose proof (join_head_length (txt "/") pd (take 2 rest)) as Hl.
  rewrite E in Hl. simpl in Hl. lia.
Qed.

Lemma insert_by_len_elem (x y : text) (l : list text) :
  y ∈ insert_by_len x l -> y = x \/ y ∈ l.
Proof.
  induction l as [|z l IH]; simpl.
  - intros H. apply list_elem_of_singleton in H. by left.
  - destruct (_ <=? _)%nat.
    + intros H. apply elem_of_cons in H as [->|H]; [by left|by right].
    + intros H. apply elem_of_cons in H as [->|H]; [right; left|].
      destruct (IH H) as [->|H']; [by left|right; by right].
Qed.

Lemma sort_by_len_elem (l : list text) (y : text) :
  y ∈ sort_by_len l -> y ∈ l.
Proof.
  unfold sort_by_len. induction l as [|z l IH]; simpl; [done|].
  intros H. apply insert_by_len_elem in H as [->|H]; [left|right; by apply IH].
Qed.

Lemma pdir_length (o : Opts) (pd : text) :
  pd ∈ pdir o -> (8 <= length pd)%nat.
Proof.
  unfold pdir. intros H. apply sort_by_len_elem in H.
  apply elem_of_map in H as (x & -> & _). rewrite length_app. simpl. lia.
Qed.
Lemma ppath_in_head (pds : list text) (p : text) (dir : list text) :
  ppath_in pds p = Some dir ->
  exists pd rest, dir = pd :: rest /\ pd ∈ pds.
Proof.
  induction pds as [|pd pds IH]; simpl; [discriminate|].
  destruct (negb (startswith p pd)).
  - intros H. destruct (IH H) as (pd' & rest & -> & Hin).
    exists pd', rest. split; [done|by right].
  - intros H. injection H as <-. eexists _, _. split; [done|left].
Qed.

Lemma addwin_getwin (o : Opts) (W : World) (w : Window) (bd : text)
    (lock : option text) (s s' : Screen) :
  addwin o W w bd lock s = Ok s' -> exists v, getwin (wid w) s' = Some v.
Proof.
  unfold addwin. intros H. apply redraw_frame in H as (Hc & _ & _).
  apply find_wid_elem.
  destruct (map_spine_wid _ _ (map_core_spine _ _ Hc)) as [-> _].
  simpl. rewrite map_app. apply elem_of_app. right. left.
Qed.

Lemma window_add_steps (o : Opts) (W : World) (dir : list text)
    (s s' : Screen) (r : option nat) :
  join (txt "/") (slice (Some 0) (Some 3) dir) <> txt "_fetch" ->
  window_add o W dir s = Ok (s', r) ->
  steps o W s s' /\ forall id, r = Some id -> exists w, getwin id s' = Some w.
Proof.
  intros Hbd. unfold window_add.
  destruct (findwin _ s) as [w|] eqn:Hf.
  - destruct (can_open W (fn w)); [|discriminate]. intros H.
    injection H as <- <-. split; [apply steps_refl|].
    intros id E. injection E as <-. by eapply findwin_getwin.
  - unfold FileTailer. destruct (can_open W _).
    + destruct (slice (Some 0) (Some 3) dir) as [|d0 [|d1 [|d2 [|]]]] eqn:Hd;
        try discriminate.
      intros H. apply bind_Ok in H as (s1 & Ha & H). injection H as <- <-.
      split.
      * eapply steps_one.
        refine (step_addwin o W _ _ _ _ _ Hf _ _ Ha); [|done].
        simpl. apply fresh_id_fresh.
      * intros id E. injection E as <-. by eapply addwin_getwin in Ha.
    + intros H. injection H as <- <-. split; [apply steps_refl|done].
Qed.

Lemma find_lock_steps (o : Opts) (W : World) (d : text) (mf : Z * text)
    (s s' : Screen) :
  d ∈ pdir o -> find_lock o W d mf s = Ok s' -> steps o W s s'.
Proof.
  intros Hd. unfold find_lock.
  destruct (negb (startswith _ d)); [discriminate|].
  destruct (negb (endswith _ _)); [discriminate|].
  destruct (findwin _ s).
  - intros H. injection H as <-. apply steps_refl.
  - intros H. apply bind_Ok in H as (held & _ & H). destruct held.
    + apply bind_Ok in H as ([s1 w] & Hw & H).
      apply window_add_steps in Hw as [Hs Hg].
      * destruct w as [id|].
        -- destruct (Hg id eq_refl) as [w Hw].
           eapply steps_trans; [exact Hs|]. by eapply pull_append_steps.
        -- by injection H as <-.
      * apply basedir_not_fetch. by apply pdir_length in Hd.
    + injection H as <-. apply steps_refl.
Qed.

Lemma find_locks_steps (o : Opts) (W : World) (ts : Z) (m m' : Monitor) :
  find_locks o W ts m = Ok m' -> steps o W (scr m) (scr m').
Proof.
  unfold find_locks. intros H. apply bind_Ok in H as (s & H & E).
  injection E as <-. simpl.
  eapply (foldM_rel (steps o W)); [apply steps_refl| |  |exact H].
  - intros; by eapply steps_trans.
  - intros d a b Hd Hf.
    eapply (foldM_rel (steps o W)); [apply steps_refl| | |exact Hf].
    + intros; by eapply steps_trans.
    + intros mf a' b' _. by apply find_lock_steps.
Qed.

Lemma process_IN_CREATE_steps (o : Opts) (W : World) (isdir : bool)
    (p : text) (m m' : Monitor) :
  process_IN_CREATE o W isdir p m = Ok m' -> steps o W (scr m) (scr m').
Proof.
  unfold process_IN_CREATE. destruct isdir.
  { intros H. injection H as <-. apply steps_refl. }
  destruct (ppath o p) as [dir|] eqn:Hp;
    [|intros H; injection H as <-; apply steps_refl].
  apply ppath_in_head in Hp as (pd & rest & -> & Hpd).
  destruct rest as [|d1 [|d2 [|d3 [|d4 [|]]]]];
    try (intros H; injection H as <-; apply steps_refl).
  destruct (_ && _); [|intros H; injection H as <-; apply steps_refl].
  intros H. apply bind_Ok in H as ([s1 r] & Hw & H). injection H as <-.
  simpl. apply window_add_steps in Hw as [Hs _]; [done|].
  apply basedir_not_fetch. by apply pdir_length in Hpd.
Qed.

Lemma process_IN_MODIFY_steps (o : Opts) (W : World) (p : text)
    (m m' : Monitor) :
  process_IN_MODIFY o W p m = Ok m' -> steps o W (scr m) (scr m').
Proof.
  unfold process_IN_MODIFY. intros H.
  apply bind_Ok in H as ([s1 r] & H1 & H).
  assert (steps o W (scr m) s1
          /\ forall id, r = Some id -> exists w, getwin id s1 = Some w)
    as [Hs Hg].
  { destruct (text_eqb p fetchlog).
    - destruct (findwin (txt "_fetch") (scr m)) as [w|] eqn:Hf.
      + injection H1 as <- <-. split; [apply steps_refl|].
        intros id E. injection E as <-. by eapply findwin_getwin.
      + apply bind_Ok in H1 as (w & Hw & H1).
        apply bind_Ok in H1 as (s2 & Ha & H1). injection H1 as <- <-.
        assert (wid w = fresh_id (scr m)) as Hid.
        { unfold FileTailer in Hw. destruct (can_open W fetchlog);
            [by injection Hw as <-|discriminate]. }
        split.
        * eapply steps_one.
          refine (step_addwin o W _ _ _ _ _ Hf _ _ Ha); [|done].
          rewrite Hid. apply fresh_id_fresh.
        * intros id E. injection E as <-. by eapply addwin_getwin in Ha.
    - destruct (ppath o p) as [dir|].
      + injection H1 as <- <-. split; [apply steps_refl|].
        intros id E. destruct (findwin _ (scr m)) as [w|] eqn:Hf;
          [|discriminate].
        injection E as <-. by eapply findwin_getwin.
      + injection H1 as <- <-. split; [apply steps_refl|done]. }
  destruct r as [id|].
  - apply bind_Ok in H as (s2 & Hp & H). injection H as <-. simpl.
    destruct (Hg id eq_refl) as [w Hw].
    eapply steps_trans; [exact Hs|]. by eapply pull_append_steps.
  - by injection H as <-.
Qed.

Lemma process_IN_CLOSE_WRITE_steps (o : Opts) (W : World) (p : text)
    (m m' : Monitor) :
  registry_ok (scr m) ->
  process_IN_CLOSE_WRITE o W p m = Ok m' -> steps o W (scr m) (scr m').
Proof.
  unfold process_IN_CLOSE_WRITE. intros Hr H.
  apply bind_Ok in H as (bd & _ & H).
  destruct bd as [bd|]; [|injection H as <-; apply steps_refl].
  destruct (findwin bd (scr m)) as [w|] eqn:Hf;
    [|injection H as <-; apply steps_refl].
  destruct (findwin_getwin _ _ _ Hf) as [v Hv].
  destruct (expectclose w >? 0) eqn:He.
  - injection H as <-. simpl.
    eapply steps_one, step_expected; [exact Hv|].
    apply findwin_elem_of in Hf as [Hin _].
    by rewrite <- (getwin_unique (wid w) (scr m) v w (ok_wids _ Hr) Hv Hin).
  - apply bind_Ok in H as (s1 & Hd & H). injection H as <-. simpl.
    by eapply steps_one, step_delwin.
Qed.
Lemma timeriter_steps (o : Opts) (W : World) (m m' : Monitor) :
  timeriter o W m = Ok m' -> steps o W (scr m) (scr m').
Proof.
  unfold timeriter. intros H. apply bind_Ok in H as (s & Hc & H).
  apply checkact_steps in Hc. destruct (_ && _).
  - apply find_locks_steps in H. by eapply steps_trans.
  - by injection H as <-.
Qed.

(** Every handler is a sequence of elementary effects on the screen. *)
Lemma handle_steps (o : Opts) (W : World) (e : Event) (m m' : Monitor) :
  registry_ok (scr m) -> handle o W e m = Ok m' ->
  steps o W (scr m) (scr m').
Proof.
  intros Hr. destruct e as [isdir p|p|p|]; simpl.
  - apply process_IN_CREATE_steps.
  - destruct (_ && _); [|apply process_IN_MODIFY_steps].
    intros H. injection H as <-. apply steps_refl.
  - destruct (_ && _); [|by apply process_IN_CLOSE_WRITE_steps].
    intros H. injection H as <-. apply steps_refl.
  - apply timeriter_steps.
Qed.

Lemma blank_screen_registry (fpd : text) : registry_ok (blank_screen fpd).
Proof. split; simpl; try constructor. intros id H. by apply elem_of_nil in H. Qed.

Lemma startup_steps (o : Opts) (W : World) (m : Monitor) :
  startup o W = Ok m -> exists fpd, steps o W (blank_screen fpd) (scr m).
Proof.
  unfold startup. intros H. apply bind_Ok in H as (fpd & _ & H).
  apply bind_Ok in H as (s & Hs & H). exists fpd.
  eapply steps_trans; [apply steps_one, step_redraw; exact Hs|].
  destruct (negb (omitrunning o)).
  - by apply find_locks_steps in H.
  - injection H as <-. apply steps_refl.
Qed.

Lemma run_from_registry (o : Opts) (tr : list (World * Event))
    (m m' : Monitor) :
  registry_ok (scr m) -> run_from o tr m = Ok m' -> registry_ok (scr m').
Proof.
  revert m. induction tr as [|[W e] tr IH]; intros m Hr H; simpl in H.
  - by injection H as <-.
  - apply bind_Ok in H as (m1 & H1 & H). apply (IH m1); [|done].
    eapply steps_registry; [exact Hr|by eapply handle_steps].
Qed.
Example sample_monitor_summary :
  map (fun w => (wid w, basedir w, backlog w, expectclose w))
    (windows (scr sample_monitor))
  = [(1%nat, txt "/var/tmp/portage/cat/pkg-1", txt "compiling", 1);
     (2%nat, txt "_fetch", txt "fetching", 0)]
  /\ inactive (scr sample_monitor) = [1%nat; 2%nat].
Proof. vm_compute. done. Qed.
(** ** Properties of every run *)

Lemma run_registry_ok (o : Opts) (W0 : World) (tr : list (World * Event))
    (m : Monitor) :
  run o W0 tr = Ok m -> registry_ok (scr m).
Proof.
  unfold run. intros H. apply bind_Ok in H as (m0 & H0 & H).
  eapply run_from_registry; [|exact H].
  apply startup_steps in H0 as [fpd H0].
  eapply steps_registry; [apply blank_screen_registry|exact H0].
Qed.

(** X1: whatever the events and the environment, a run keeps at most one
    window per source and one entry per window object, and the inactive
    list names windows of the screen, each once. *)
Theorem run_one_window_per_source (o : Opts) (W0 : World)
    (tr : list (World * Event)) (m : Monitor) :
  run o W0 tr = Ok m ->
  NoDup (map basedir (windows (scr m)))
  /\ NoDup (map wid (windows (scr m)))
  /\ NoDup (inactive (scr m))
  /\ forall id, id ∈ inactive (scr m) -> id ∈ map wid (windows (scr m)).
Proof. intros H. apply run_registry_ok in H as [H1 H2 H3 H4 _ _ _]. done. Qed.

Lemma run_one_window_per_source_witness :
  run default_opts (world_at 0 (24, 80) []) sample_trace = Ok sample_monitor
  /\ NoDup (map basedir (windows (scr sample_monitor))).
Proof.
  split; [vm_compute; reflexivity|].
  apply (run_one_window_per_source default_opts (world_at 0 (24, 80) [])
           sample_trace).
  vm_compute. reflexivity.
Defined.

(** X2: in every state a run reaches, [expectclose] of every window is a
    natural number, and it is 0 for a window that has no lock file: the
    lock re-check is the only place that increments it, and a close event
    decrements it only while it is positive. *)
Theorem run_expectclose_nonneg (o : Opts) (W0 : World)
    (tr : list (World * Event)) (m : Monitor) (w : Window) :
  run o W0 tr = Ok m -> w ∈ windows (scr m) ->
  0 <= expectclose w /\ (lockfn w = None -> expectclose w = 0).
Proof.
  intros H Hw. apply run_registry_ok in H as [_ _ _ _ H5 H6 _].
  split.
  - by apply (proj1 (Forall_forall _ _) H5).
  - by apply (proj1 (Forall_forall _ _) H6).
Qed.

Lemma run_expectclose_nonneg_witness :
  exists w,
    run default_opts (world_at 0 (24, 80) []) sample_trace = Ok sample_monitor
    /\ w ∈ windows (scr sample_monitor) /\ expectclose w = 1
    /\ 0 <= expectclose w.
Proof.
  eexists. split; [vm_compute; reflexivity|].
  split; [vm_compute; left|]. split; [reflexivity|].
  eapply (run_expectclose_nonneg default_opts (world_at 0 (24, 80) [])
            sample_trace sample_monitor).
  - vm_compute. reflexivity.
  - vm_compute. left.
Defined.

Lemma run_fetch_window_unlocked_aux (o : Opts) (W0 : World)
    (tr : list (World * Event)) (m : Monitor) (w : Window) :
  run o W0 tr = Ok m -> findwin (txt "_fetch") (scr m) = Some w ->
  lockfn w = None /\ expectclose w = 0.
Proof.
  intros H Hf. apply run_registry_ok in H as [_ _ _ _ _ H6 H7].
  apply findwin_elem_of in Hf as [Hin Hb].
  pose proof (proj1 (Forall_forall _ _) H7 w Hin Hb) as Hl.
  split; [done|]. by apply (proj1 (Forall_forall _ _) H6 w Hin).
Qed.

(** X3: the window of the fetch log never has a lock file, so it is never
    lock-polled and its [expectclose] stays 0. *)
Theorem run_fetch_window_unlocked (o : Opts) (W0 : World)
    (tr : list (World * Event)) (m : Monitor) (w : Window) :
  run o W0 tr = Ok m -> findwin (txt "_fetch") (scr m) = Some w ->
  lockfn w = None /\ expectclose w = 0.
Proof. intros. eapply run_fetch_window_unlocked_aux; eassumption. Qed.

Lemma run_fetch_window_unlocked_witness :
  exists w,
    run default_opts (world_at 0 (24, 80) []) sample_trace = Ok sample_monitor
    /\ findwin (txt "_fetch") (scr sample_monitor) = Some w
    /\ lockfn w = None /\ expectclose w = 0.
Proof.
  eexists. split; [vm_compute; reflexivity|].
  split; [vm_compute; reflexivity|].
  eapply (run_fetch_window_unlocked default_opts (world_at 0 (24, 80) [])
            sample_trace sample_monitor).
  - vm_compute. reflexivity.
  - vm_compute. reflexivity.
Defined.
(** ** Removing a window *)

Lemma text_eqb_refl (a : text) : text_eqb a a = true.
Proof. unfold text_eqb. by apply bool_decide_eq_true. Qed.

Lemma map_core_basedir (ws ws' : list Window) :
  map core ws' = map core ws -> map basedir ws' = map basedir ws.
Proof. intros H. by apply map_spine_wid, map_core_spine. Qed.

Lemma map_core_wid (ws ws' : list Window) :
  map core ws' = map core ws -> map wid ws' = map wid ws.
Proof. intros H. by apply map_spine_wid, map_core_spine. Qed.

Lemma findwin_absent (bd : text) (s : Screen) :
  bd ∉ map basedir (windows s) -> findwin bd s = None.
Proof.
  unfold findwin. intros H.
  destruct (find _ (windows s)) as [w|] eqn:E; [|done].
  apply find_some in E as [Hin Hb]. exfalso. apply H.
  unfold text_eqb in Hb. apply bool_decide_eq_true in Hb. subst.
  apply elem_of_map. exists w. split; [done|by apply list_elem_of_In].
Qed.

Lemma basedir_inj (ws : list Window) (v w : Window) :
  NoDup (map basedir ws) -> v ∈ ws -> w ∈ ws -> basedir v = basedir w ->
  v = w.
Proof.
  induction ws as [|u ws IH]; simpl; intros Hn Hv Hw E.
  - by apply elem_of_nil in Hv.
  - apply NoDup_cons in Hn as [Hu Hn].
    apply elem_of_cons in Hv as [->|Hv]; apply elem_of_cons in Hw as [->|Hw].
    + done.
    + exfalso. apply Hu. rewrite E. apply elem_of_map. eauto.
    + exfalso. apply Hu. rewrite <- E. apply elem_of_map. eauto.
    + by apply IH.
Qed.

Lemma delwin_removes_aux (o : Opts) (W : World) (id : nat) (s s' : Screen) :
  registry_ok s -> delwin o W id s = Ok s' ->
  (id ∉ map wid (windows s')) /\ (id ∉ inactive s')
  /\ map core (windows s') = map core (remove_window id (windows s))
  /\ forall x, x <> id -> (x ∈ inactive s' <-> x ∈ inactive s).
Proof.
  intros Hr H. unfold delwin in H.
  destruct (getwin id s) as [w|]; [|discriminate].
  destruct (redraw_frame _ _ _ _ H) as (Hc & Hi & _).
  change (is_inactive id (set_windows (remove_window id (windows s)) s))
    with (bool_decide (id ∈ inactive s)) in *.
  split.
  { rewrite (map_core_wid _ _ Hc).
    destruct (bool_decide (id ∈ inactive s)); simpl;
      apply remove_window_gone, Hr. }
  destruct (bool_decide_reflect (id ∈ inactive s)) as [Hin|Hnin];
    simpl in Hc, Hi; rewrite Hi.
  - split; [by apply list_remove_NoDup, Hr|]. split; [done|].
    intros x Hx. split; [apply list_remove_elem|].
    intros Hxi. by apply list_remove_other.
  - done.
Qed.

(** X4: [delwin] takes the window out of the registry and out of the
    inactive list, and leaves every other window in place, in order, with
    its source, lock, counter and text. *)
Theorem delwin_removes (o : Opts) (W : World) (id : nat) (s s' : Screen) :
  registry_ok s -> delwin o W id s = Ok s' ->
  (id ∉ map wid (windows s')) /\ (id ∉ inactive s')
  /\ map core (windows s') = map core (remove_window id (windows s))
  /\ forall x, x <> id -> (x ∈ inactive s' <-> x ∈ inactive s).
Proof. intros. eapply delwin_removes_aux; eassumption. Qed.

Lemma delwin_removes_witness :
  exists s',
    registry_ok (scr sample_monitor)
    /\ delwin default_opts (world_at 101 (24, 80) []) 1%nat
         (scr sample_monitor) = Ok s'
    /\ map wid (windows s') = [2%nat] /\ inactive s' = [2%nat]
    /\ 1%nat ∉ map wid (windows s').
Proof.
  eexists.
  assert (registry_ok (scr sample_monitor)) as Hr.
  { apply (run_registry_ok default_opts (world_at 0 (24, 80) []) sample_trace).
    vm_compute. reflexivity. }
  split; [exact Hr|]. split; [vm_compute; reflexivity|].
  split; [vm_compute; reflexivity|]. split; [vm_compute; reflexivity|].
  eapply (delwin_removes default_opts (world_at 101 (24, 80) []) 1%nat
            (scr sample_monitor)); [exact Hr|].
  vm_compute. reflexivity.
Defined.

(** A close-write event for the fetch log, in a state in which its window
    expects no close: when the handler returns, the window is gone. *)
Lemma close_write_fetch_aux (o : Opts) (W : World) (m m' : Monitor)
    (w : Window) :
  registry_ok (scr m) -> findwin (txt "_fetch") (scr m) = Some w ->
  expectclose w = 0 -> watchfetch o = true ->
  handle o W (IN_CLOSE_WRITE fetchlog) m = Ok m' ->
  findwin (txt "_fetch") (scr m') = None.
Proof.
  intros Hr Hf He Hwf H.
  destruct (findwin_elem_of _ _ _ Hf) as [Hin Hb].
  unfold handle in H. rewrite text_eqb_refl, Hwf in H. cbn [andb negb] in H.
  unfold process_IN_CLOSE_WRITE in H. rewrite text_eqb_refl in H.
  cbn [bind] in H. rewrite Hf, He in H. change (0 >? 0) with false in H.
  cbn iota in H. apply bind_Ok in H as (s' & Hs' & H). injection H as <-.
  simpl. apply findwin_absent.
  destruct (delwin_removes_aux _ _ _ _ _ Hr Hs') as (Hgone & _ & Hc & _).
  rewrite (map_core_basedir _ _ Hc). intros Hx.
  apply elem_of_map in Hx as (u & Hu & Huin).
  assert (u ∈ windows (scr m)) as Huin' by by eapply remove_window_elem.
  assert (u = w) as ->.
  { apply (basedir_inj (windows (scr m))); [apply Hr|done|done|].
    by rewrite Hb, <- Hu. }
  apply Hgone. rewrite (map_core_wid _ _ Hc). apply elem_of_map. eauto.
Qed.

(** X5: while the fetch log is watched, a close-write event for it removes
    the fetch-log window, in every state a run reaches: the window has no
    lock, so no close is ever expected for it, and whenever the handler
    returns the window is gone. *)
Theorem close_write_removes_fetch_window (o : Opts) (W0 W : World)
    (tr : list (World * Event)) (m m' : Monitor) (w : Window) :
  run o W0 tr = Ok m -> findwin (txt "_fetch") (scr m) = Some w ->
  watchfetch o = true ->
  handle o W (IN_CLOSE_WRITE fetchlog) m = Ok m' ->
  findwin (txt "_fetch") (scr m') = None.
Proof.
  intros Hrun Hf Hwf H.
  destruct (run_fetch_window_unlocked_aux _ _ _ _ _ Hrun Hf) as [_ He].
  pose proof (run_registry_ok _ _ _ _ Hrun) as Hr.
  by eapply close_write_fetch_aux.
Qed.

Lemma close_write_removes_fetch_window_witness :
  exists w m',
    run default_opts (world_at 0 (24, 80) []) sample_trace = Ok sample_monitor
    /\ findwin (txt "_fetch") (scr sample_monitor) = Some w
    /\ watchfetch default_opts = true
    /\ handle default_opts (world_at 101 (24, 80) [])
         (IN_CLOSE_WRITE fetchlog) sample_monitor = Ok m'
    /\ findwin (txt "_fetch") (scr m') = None.
Proof.
  eexists _, _. split; [vm_compute; reflexivity|].
  split; [vm_compute; reflexivity|]. split; [reflexivity|].
  split; [vm_compute; reflexivity|].
  eapply (close_write_removes_fetch_window default_opts
            (world_at 0 (24, 80) []) (world_at 101 (24, 80) []) sample_trace
            sample_monitor).
  - vm_compute. reflexivity.
  - vm_compute. reflexivity.
  - reflexivity.
  - vm_compute. reflexivity.
Defined.
(** ** The backlog and the stream *)

Lemma wid_of_core (w v : Window) : core w = core v -> wid w = wid v.
Proof. unfold core, spine. congruence. Qed.

Lemma backlog_of_core (w v : Window) :
  core w = core v -> backlog w = backlog v /\ stream w = stream v.
Proof. unfold core, spine. split; congruence. Qed.

(** Positive capacity after a redraw that shows a window. *)
Lemma redraw_capacity (o : Opts) (W : World) (s s' : Screen) (w : Window) :
  registry_ok s -> sane W -> redraw o W s = Ok s' ->
  w ∈ windows s -> wid w ∉ inactive s -> 0 < capacity W.
Proof.
  intros Hr Hsane H Hw Hi.
  assert (5 <= fst (getmaxyx W)) as Hh.
  { eapply redraw_rows; [done| |exact H].
    rewrite <- (length_map wid (windows s)).
    apply (active_count _ _ (wid w)); [apply Hr|apply Hr| |done].
    apply elem_of_map. eauto. }
  destruct Hsane as [_ Hcol]. unfold capacity. nia.
Qed.

Lemma redraw_backlog (o : Opts) (W : World) (s s' : Screen) :
  registry_ok s -> sane W -> capacity W <= backloglen s ->
  Forall (fun w => exists c, backloglen s <= c
                             /\ backlog w = lastn c (stream w)) (windows s) ->
  redraw o W s = Ok s' ->
  backlog_ok s' /\ backloglen s' = capacity W.
Proof.
  intros Hr Hsane Hcap Hb H.
  destruct (redraw_frame _ _ _ _ H) as (Hc & Hi & Hl).
  split; [|done]. split.
  - intros w' Hw' Hni. rewrite Hl.
    destruct (elem_of_core _ _ _ Hc Hw') as (w & Hw & E).
    eapply redraw_capacity; [done..|].
    rewrite <- (wid_of_core _ _ E). by rewrite <- Hi.
  - apply Forall_forall. intros w' Hw'.
    destruct (elem_of_core _ _ _ Hc Hw') as (w & Hw & E).
    destruct (proj1 (Forall_forall _ _) Hb w Hw) as (c & Hle & Hbl).
    destruct (backlog_of_core _ _ E) as [-> ->].
    exists c. split; [lia|done].
Qed.

Lemma backlog_Forall_ext (s s' : Screen) :
  map core (windows s') = map core (windows s) ->
  backloglen s' <= backloglen s ->
  Forall (fun w => exists c, backloglen s <= c
                             /\ backlog w = lastn c (stream w)) (windows s) ->
  Forall (fun w => exists c, backloglen s' <= c
                             /\ backlog w = lastn c (stream w)) (windows s').
Proof.
  intros Hc Hle Hb. apply Forall_forall. intros w' Hw'.
  destruct (elem_of_core _ _ _ Hc Hw') as (w & Hw & E).
  destruct (proj1 (Forall_forall _ _) Hb w Hw) as (c & Hcle & Hbl).
  destruct (backlog_of_core _ _ E) as [-> ->].
  exists c. split; [lia|done].
Qed.

Lemma backlog_ok_ext (s s' : Screen) :
  map core (windows s') = map core (windows s) ->
  (forall x, x ∈ inactive s -> x ∈ inactive s') ->
  backloglen s' = backloglen s ->
  backlog_ok s -> backlog_ok s'.
Proof.
  intros Hc Hi Hl [Hcap Hb]. split.
  - intros w' Hw' Hni. rewrite Hl.
    destruct (elem_of_core _ _ _ Hc Hw') as (w & Hw & E).
    apply (Hcap w Hw). rewrite <- (wid_of_core _ _ E). intros Hx.
    apply Hni, Hi, Hx.
  - apply (backlog_Forall_ext s); [done|lia|done].
Qed.

Lemma append_backlog_aux (o : Opts) (W : World) (id : nat) (t : text)
    (s s' : Screen) (w : Window) :
  registry_ok s -> backlog_ok s -> sane W -> capacity W <= backloglen s ->
  getwin id s = Some w -> append o W id t false s = Ok s' ->
  backlog_ok s' /\ capacity W <= backloglen s'
  /\ exists w', getwin id s' = Some w'
       /\ stream w' = stream w ++ t
       /\ backlog w' = lastn (backloglen s') (stream w')
       /\ Z.of_nat (length (backlog w')) <= backloglen s'.
Proof.
  intros Hr [Hcap Hbl] Hsane Hle Hw H.
  destruct (append_inv _ _ _ _ _ _ _ _ Hw H)
    as (s2 & w2 & w' & k & Hs2 & Hw2 & Hc2 & Ha & ->).
  destruct (getwin_elem_of _ _ _ Hw) as [Hwin Hwid].
  assert (registry_ok (modify id (set_activity (now W)) s)) as Hr1.
  { apply (registry_ok_ext s); [|reflexivity|exact Hr].
    by apply map_core_spine, modify_core. }
  (* the state the text is appended in *)
  assert (registry_ok s2 /\ backlog_ok s2 /\ capacity W <= backloglen s2
          /\ 0 < backloglen s2 /\ backloglen s2 <= backloglen s
          /\ id ∉ inactive s2) as (Hr2 & [Hcap2 Hbl2] & Hle2 & Hpos & Hmono & Hni).
  { destruct (is_inactive id s) eqn:Hin.
    - assert (registry_ok (set_inactive (list_remove id (inactive s))
                             (modify id (set_activity (now W)) s))) as Hr'.
      { apply registry_ok_inactive; [done| |].
        - apply list_remove_NoDup, Hr.
        - intros x Hx. apply list_remove_elem in Hx. by apply Hr1. }
      destruct (redraw_backlog o W _ s2 Hr' Hsane Hle) as [Hb2 Hl2];
        [|exact Hs2|].
      { apply (backlog_Forall_ext s); [|reflexivity|done].
        by apply (modify_core id _ s). }
      destruct (redraw_frame _ _ _ _ Hs2) as (Hc & Hi & _).
      assert (id ∉ inactive s2) as Hni.
      { rewrite Hi. simpl. by apply list_remove_NoDup, Hr. }
      split; [by eapply redraw_registry|]. split; [done|].
      split; [lia|]. split; [|split; [lia|done]].
      destruct (getwin_elem_of _ _ _ Hw2) as [Hw2in Hw2id].
      apply (ok_capacity _ Hb2 w2 Hw2in). by rewrite Hw2id.
    - subst s2. unfold is_inactive in Hin.
      rewrite bool_decide_eq_false in Hin.
      split; [done|]. split.
      { apply (backlog_ok_ext s); [by apply (modify_core id _ s)|done|done|].
        by split. }
      simpl. split; [done|]. split; [|split; [lia|done]].
      apply (Hcap w Hwin). by rewrite Hwid. }
  destruct (append_window_data _ _ _ _ _ _ _ _ Ha) as (Hsp & Hb' & Hst').
  destruct (getwin_elem_of _ _ _ Hw2) as [Hw2in Hw2id].
  destruct (proj1 (Forall_forall _ _) Hbl2 w2 Hw2in) as (c2 & Hc2le & Hb2).
  assert (backlog w' = lastn (backloglen s2) (stream w')) as Hnew.
  { rewrite Hb', Hst', slice_suffix by done.
    rewrite Hb2. apply lastn_lastn_app; lia. }
  assert (wid w' = id) as Hid'.
  { unfold spine in Hsp. congruence. }
  assert (getwin id (commit w' k s2) = Some w') as Hget.
  { rewrite getwin_commit, Hw2. simpl.
    by rewrite Hw2id, Hid', Nat.eqb_refl. }
  split; [|split; [done|]].
  - split; simpl.
    + intros v Hv Hvi. done.
    + apply Forall_forall. intros v Hv. apply elem_of_map in Hv as (u & -> & Hu).
      destruct (Nat.eqb (wid u) (wid w')).
      * exists (backloglen s2). split; [lia|done].
      * by apply (proj1 (Forall_forall _ _) Hbl2).
  - exists w'. split; [done|]. simpl.
    destruct (backlog_of_core _ _ Hc2) as [_ <-].
    split; [done|]. split; [done|].
    rewrite Hnew. apply length_lastn. lia.
Qed.

(** X6: what one [append] of pulled text does to the backlog.  In a state
    whose backlogs are in step with their streams, on a terminal that has
    not grown since the last redraw, the window's backlog after the append
    is exactly the last [backloglen] characters of all text appended to it,
    and so no longer than the capacity of the last redraw. *)
Theorem append_backlog (o : Opts) (W : World) (id : nat) (t : text)
    (s s' : Screen) (w : Window) :
  registry_ok s -> backlog_ok s -> sane W -> capacity W <= backloglen s ->
  getwin id s = Some w -> append o W id t false s = Ok s' ->
  backlog_ok s' /\ capacity W <= backloglen s'
  /\ exists w', getwin id s' = Some w'
       /\ stream w' = stream w ++ t
       /\ backlog w' = lastn (backloglen s') (stream w')
       /\ Z.of_nat (length (backlog w')) <= backloglen s'.
Proof. intros. eapply append_backlog_aux; eassumption. Qed.
Lemma backlog_ok_pointwise (s s' : Screen) :
  (forall w', w' ∈ windows s' ->
     exists w, w ∈ windows s /\ wid w' = wid w /\ backlog w' = backlog w
               /\ stream w' = stream w) ->
  (forall x, x ∈ inactive s -> x ∈ inactive s') ->
  backloglen s' = backloglen s ->
  backlog_ok s -> backlog_ok s'.
Proof.
  intros Hc Hi Hl [Hcap Hb]. split.
  - intros w' Hw' Hni. rewrite Hl.
    destruct (Hc _ Hw') as (w & Hw & E & _).
    apply (Hcap w Hw). rewrite <- E. intros Hx. apply Hni, Hi, Hx.
  - apply Forall_forall. intros w' Hw'.
    destruct (Hc _ Hw') as (w & Hw & _ & -> & ->). rewrite Hl.
    by apply (proj1 (Forall_forall _ _) Hb).
Qed.

Lemma modify_elem_of (id : nat) (f : Window -> Window) (s : Screen)
    (v' : Window) :
  v' ∈ windows (modify id f s) ->
  exists v, v ∈ windows s /\ (v' = v \/ v' = f v).
Proof.
  unfold modify. simpl. intros H. apply elem_of_map in H as (v & -> & Hv).
  exists v. split; [done|]. destruct (Nat.eqb (wid v) id); auto.
Qed.

Lemma modify_backlog (id : nat) (f : Window -> Window) (s : Screen) :
  (forall w, wid (f w) = wid w /\ backlog (f w) = backlog w
             /\ stream (f w) = stream w) ->
  backlog_ok s -> backlog_ok (modify id f s).
Proof.
  intros Hf. apply backlog_ok_pointwise; [|done|done].
  intros v' Hv'. apply modify_elem_of in Hv' as (v & Hv & [->| ->]).
  - eauto.
  - exists v. split; [done|]. apply Hf.
Qed.

Lemma extend_registry (w : Window) (s : Screen) :
  registry_ok s -> basedir w ∉ map basedir (windows s) ->
  wid w ∉ map wid (windows s) -> expectclose w = 0 ->
  (basedir w = txt "_fetch" -> lockfn w = None) ->
  registry_ok (set_windows (windows s ++ [w]) s).
Proof.
  intros [H1 H2 H3 H4 H5 H6 H7] Hbd Hid He Hl.
  split; simpl; rewrite ?map_app; simpl.
  - apply NoDup_app. split; [done|]. split; [|apply NoDup_singleton].
    intros x Hx Hx'. apply list_elem_of_singleton in Hx'. by subst.
  - done.
  - intros x Hx. apply elem_of_app. left. by apply H3.
  - apply NoDup_app. split; [done|]. split; [|apply NoDup_singleton].
    intros x Hx Hx'. apply list_elem_of_singleton in Hx'. by subst.
  - apply Forall_app. split; [done|]. apply Forall_singleton. lia.
  - apply Forall_app. split; [done|]. by apply Forall_singleton.
  - apply Forall_app. split; [done|]. by apply Forall_singleton.
Qed.

Lemma shrink_registry (id : nat) (s : Screen) :
  registry_ok s ->
  registry_ok
    (let s1 := set_windows (remove_window id (windows s)) s in
     if is_inactive id s1
     then set_inactive (list_remove id (inactive s1)) s1 else s1).
Proof.
  intros [H1 H2 H3 H4 H5 H6 H7].
  pose proof (remove_window_sublist id (windows s)) as Hsub.
  assert (forall l, NoDup l -> (forall x, x ∈ l -> x ∈ inactive s) ->
                    id ∉ l ->
                    registry_ok
                      (set_inactive l
                         (set_windows (remove_window id (windows s)) s)))
    as Hgen.
  { intros l Hl Hli Hid. split; simpl.
    - eapply sublist_NoDup; [exact H1|by apply map_sublist].
    - done.
    - intros x Hx. assert (x <> id) as Hne by congruence.
      apply Hli, H3, elem_of_map in Hx as (v & -> & Hv).
      apply elem_of_map. exists v. split; [done|].
      by apply remove_window_other.
    - eapply sublist_NoDup; [exact H4|by apply map_sublist].
    - by eapply sublist_Forall.
    - by eapply sublist_Forall.
    - by eapply sublist_Forall. }
  cbv zeta.
  change (is_inactive id (set_windows (remove_window id (windows s)) s))
    with (bool_decide (id ∈ inactive s)).
  destruct (bool_decide_reflect (id ∈ inactive s)) as [Hin|Hnin].
  - apply Hgen; [by apply list_remove_NoDup| |by apply list_remove_NoDup].
    intros x. apply list_remove_elem.
  - apply (Hgen (inactive s)); done.
Qed.

(** Every elementary effect keeps the backlogs in step with the streams, as
    long as the terminal has not grown. *)
Lemma step_backlog (o : Opts) (W : World) (s s' : Screen) :
  registry_ok s -> backlog_ok s -> sane W -> capacity W <= backloglen s ->
  step o W s s' ->
  backlog_ok s' /\ capacity W <= backloglen s'.
Proof.
  intros Hr Hb Hsane Hle Hstep. destruct Hstep.
  - destruct (redraw_backlog o W s s' Hr Hsane Hle) as [Hb' Hl'];
      [apply Hb|done|]. split; [done|lia].
  - destruct (append_backlog_aux o W id t s s' w Hr Hb Hsane Hle)
      as (Hb' & Hl' & _); done.
  - unfold addwin in H2. apply findwin_None in H.
    match type of H2 with
    | redraw _ _ (set_windows (_ ++ [?nw]) _) = _ =>
        pose proof (extend_registry nw s Hr H H0 eq_refl H1) as Hr'
    end.
    destruct (redraw_backlog o W _ s' Hr' Hsane Hle) as [Hb' Hl'];
      [|exact H2|split; [done|lia]].
    simpl. apply Forall_app. split; [apply Hb|].
    apply Forall_singleton. exists (backloglen s). simpl. split; [lia|].
    unfold lastn. by rewrite drop_nil.
  - unfold delwin in H. destruct (getwin id s) as [w|]; [|discriminate].
    destruct (redraw_backlog o W _ s' (shrink_registry id s Hr) Hsane)
      as [Hb' Hl']; [| |exact H|split; [done|lia]].
    + cbv zeta. by destruct (is_inactive _ _).
    + cbv zeta. destruct Hb as [_ Hb].
      assert (Forall (fun w => exists c, backloglen s <= c
                                         /\ backlog w = lastn c (stream w))
                (remove_window id (windows s))) as Hb2
        by (eapply sublist_Forall; [apply remove_window_sublist|done]).
      by destruct (is_inactive _ _).
  - split; [|done]. apply modify_backlog; [|done].
    intros v. specialize (H v). unfold core, spine in H.
    repeat split; congruence.
  - split; [|done]. by apply modify_backlog.
  - split; [|done]. by apply modify_backlog.
  - split; [|done]. apply (backlog_ok_pointwise s); [eauto| |done|done].
    simpl. intros x Hx. apply elem_of_app. by left.
Qed.

Lemma steps_backlog (o : Opts) (W : World) (s s' : Screen) :
  registry_ok s -> backlog_ok s -> sane W -> capacity W <= backloglen s ->
  steps o W s s' ->
  backlog_ok s' /\ capacity W <= backloglen s'.
Proof.
  intros Hr Hb Hsane Hle Hs. induction Hs as [|a b c Hab _ IH]; [done|].
  destruct (step_backlog o W a b) as [Hb' Hle']; [done..|].
  apply IH; [by eapply step_registry|done|done].
Qed.

Lemma run_from_backlog (o : Opts) (tr : list (World * Event)) (c : Z)
    (m m' : Monitor) :
  registry_ok (scr m) -> backlog_ok (scr m) -> c <= backloglen (scr m) ->
  never_grows c tr -> run_from o tr m = Ok m' ->
  backlog_ok (scr m').
Proof.
  revert c m. induction tr as [|[W e] tr IH]; intros c m Hr Hb Hc Hn H;
    simpl in H.
  - by injection H as <-.
  - apply bind_Ok in H as (m1 & H1 & H). destruct Hn as (Hsane & Hle & Hn).
    pose proof (handle_steps o W e m m1 Hr H1) as Hs.
    destruct (steps_backlog o W _ _ Hr Hb Hsane ltac:(lia) Hs) as [Hb1 Hl1].
    apply (IH (capacity W) m1); [by eapply steps_registry|done..].
Qed.

Lemma startup_backlog (o : Opts) (W : World) (m : Monitor) :
  sane W -> startup o W = Ok m ->
  backlog_ok (scr m) /\ capacity W <= backloglen (scr m).
Proof.
  intros Hsane H. unfold startup in H. apply bind_Ok in H as (fpd & _ & H).
  apply bind_Ok in H as (s & Hs & H).
  unfold Screen_init in Hs.
  pose proof (redraw_registry o W _ s (blank_screen_registry fpd) Hs) as Hr.
  assert (backlog_ok s /\ capacity W <= backloglen s) as [Hb Hl].
  { destruct (redraw_frame _ _ _ _ Hs) as (Hc & _ & Hl). simpl in Hc.
    assert (windows s = []) as Hnil
      by (destruct (windows s); [done|discriminate]).
    split; [|lia]. split; rewrite Hnil.
    - intros w Hw. by apply elem_of_nil in Hw.
    - constructor. }
  destruct (negb (omitrunning o)).
  - apply find_locks_steps in H. simpl in H.
    by apply (steps_backlog o W s).
  - by injection H as <-.
Qed.
Lemma run_backlog_suffix_aux (o : Opts) (W0 : World)
    (tr : list (World * Event)) (m : Monitor) (w : Window) :
  sane W0 -> never_grows (capacity W0) tr ->
  run o W0 tr = Ok m -> w ∈ windows (scr m) ->
  (exists c, backloglen (scr m) <= c /\ backlog w = lastn c (stream w))
  /\ (wid w ∉ inactive (scr m) -> 0 < backloglen (scr m)).
Proof.
  intros Hsane Hn H Hw. unfold run in H.
  apply bind_Ok in H as (m0 & H0 & H).
  destruct (startup_backlog o W0 m0 Hsane H0) as [Hb0 Hl0].
  assert (registry_ok (scr m0)) as Hr0.
  { apply startup_steps in H0 as [fpd H0].
    eapply steps_registry; [apply blank_screen_registry|exact H0]. }
  destruct (run_from_backlog o tr (capacity W0) m0 m Hr0 Hb0 Hl0 Hn H)
    as [Hcap Hbl].
  split; [by apply (proj1 (Forall_forall _ _) Hbl)|by apply Hcap].
Qed.

(** X7: on a terminal that never grows, every window's backlog is at all
    times the tail of the text appended to it: its last [c] characters for
    some [c] that is at least the current capacity; and whenever a window is
    not inactive, the capacity is positive. *)
Theorem run_backlog_suffix (o : Opts) (W0 : World)
    (tr : list (World * Event)) (m : Monitor) (w : Window) :
  sane W0 -> never_grows (capacity W0) tr ->
  run o W0 tr = Ok m -> w ∈ windows (scr m) ->
  (exists c, backloglen (scr m) <= c /\ backlog w = lastn c (stream w))
  /\ (wid w ∉ inactive (scr m) -> 0 < backloglen (scr m)).
Proof. intros. eapply run_backlog_suffix_aux; eassumption. Qed.

Lemma sample_never_grows :
  sane (world_at 0 (24, 80) [])
  /\ never_grows (capacity (world_at 0 (24, 80) [])) sample_trace.
Proof. repeat split; vm_compute; discriminate. Qed.

Lemma run_backlog_suffix_witness :
  exists w,
    sane (world_at 0 (24, 80) [])
    /\ never_grows (capacity (world_at 0 (24, 80) [])) sample_trace
    /\ run default_opts (world_at 0 (24, 80) []) sample_trace
       = Ok sample_monitor
    /\ w ∈ windows (scr sample_monitor)
    /\ stream w = txt "compiling"
    /\ exists c, backloglen (scr sample_monitor) <= c
                 /\ backlog w = lastn c (stream w).
Proof.
  eexists. split; [apply sample_never_grows|].
  split; [apply sample_never_grows|].
  split; [vm_compute; reflexivity|].
  split; [vm_compute; left|]. split; [reflexivity|].
  eapply (run_backlog_suffix default_opts (world_at 0 (24, 80) [])
            sample_trace sample_monitor);
    [apply sample_never_grows | apply sample_never_grows
    | vm_compute; reflexivity | vm_compute; left].
Defined.

Lemma sample_monitor_ok :
  registry_ok (scr sample_monitor) /\ backlog_ok (scr sample_monitor).
Proof.
  assert (run default_opts (world_at 0 (24, 80) []) sample_trace
          = Ok sample_monitor) as Hrun by (vm_compute; reflexivity).
  split; [by apply run_registry_ok in Hrun|].
  split.
  - intros w Hw _. vm_compute. reflexivity.
  - apply Forall_forall. intros w Hw.
    by apply (run_backlog_suffix_aux default_opts (world_at 0 (24, 80) [])
                sample_trace sample_monitor w
                (proj1 sample_never_grows) (proj2 sample_never_grows) Hrun).
Qed.

Lemma append_backlog_witness :
  let W := world_at 101 (24, 80) [] in
  exists w s',
    registry_ok (scr sample_monitor) /\ backlog_ok (scr sample_monitor)
    /\ sane W /\ capacity W <= backloglen (scr sample_monitor)
    /\ getwin 1%nat (scr sample_monitor) = Some w
    /\ append default_opts W 1%nat (txt " more") false (scr sample_monitor)
       = Ok s'
    /\ exists w', getwin 1%nat s' = Some w'
         /\ stream w' = stream w ++ txt " more"
         /\ backlog w' = lastn (backloglen s') (stream w')
         /\ Z.of_nat (length (backlog w')) <= backloglen s'.
Proof.
  intros W. eexists _, _.
  split; [apply sample_monitor_ok|]. split; [apply sample_monitor_ok|].
  split; [split; vm_compute; discriminate|].
  split; [vm_compute; discriminate|].
  split; [vm_compute; reflexivity|].
  split; [vm_compute; reflexivity|].
  eapply (append_backlog default_opts W 1%nat (txt " more")
            (scr sample_monitor)).
  - apply sample_monitor_ok.
  - apply sample_monitor_ok.
  - split; vm_compute; discriminate.
  - vm_compute. discriminate.
  - vm_compute. reflexivity.
  - vm_compute. reflexivity.
Defined.
(** ** Activity *)

Lemma append_inactive (o : Opts) (W : World) (id : nat) (t : text)
    (omit : bool) (s s' : Screen) (w : Window) :
  getwin id s = Some w -> append o W id t omit s = Ok s' ->
  inactive s' = if is_inactive id s then list_remove id (inactive s)
                else inactive s.
Proof.
  intros Hw H.
  destruct (append_inv _ _ _ _ _ _ _ _ Hw H)
    as (s2 & w2 & w' & k & Hs2 & _ & _ & _ & ->).
  simpl. destruct (is_inactive id s).
  - by destruct (redraw_frame _ _ _ _ Hs2) as (_ & -> & _).
  - by subst.
Qed.

(** X8: any text appended to a window makes it active again: afterwards
    the window is not in the inactive list, and no other window has changed
    sides. *)
Theorem append_reactivates (o : Opts) (W : World) (id : nat) (t : text)
    (s s' : Screen) (w : Window) :
  registry_ok s -> getwin id s = Some w ->
  append o W id t false s = Ok s' ->
  (id ∉ inactive s')
  /\ forall x, x <> id -> (x ∈ inactive s' <-> x ∈ inactive s).
Proof.
  intros Hr Hw H. rewrite (append_inactive _ _ _ _ _ _ _ _ Hw H).
  unfold is_inactive.
  destruct (bool_decide_reflect (id ∈ inactive s)) as [Hin|Hnin].
  - split; [by apply list_remove_NoDup, Hr|].
    intros x Hx. split; [apply list_remove_elem|].
    intros Hxi. by apply list_remove_other.
  - done.
Qed.

Lemma append_reactivates_witness :
  exists w s',
    registry_ok (scr sample_monitor)
    /\ getwin 1%nat (scr sample_monitor) = Some w
    /\ append default_opts (world_at 101 (24, 80) []) 1%nat (txt " more")
         false (scr sample_monitor) = Ok s'
    /\ inactive (scr sample_monitor) = [1%nat; 2%nat]
    /\ inactive s' = [2%nat] /\ 1%nat ∉ inactive s'.
Proof.
  eexists _, _. split; [apply sample_monitor_ok|].
  split; [vm_compute; reflexivity|]. split; [vm_compute; reflexivity|].
  split; [vm_compute; reflexivity|]. split; [vm_compute; reflexivity|].
  eapply (append_reactivates default_opts (world_at 101 (24, 80) []) 1%nat
            (txt " more") (scr sample_monitor)).
  - apply sample_monitor_ok.
  - vm_compute. reflexivity.
  - vm_compute. reflexivity.
Defined.

Lemma step_inactive_subset (o : Opts) (W : World) (s s' : Screen) :
  inact o = 0 -> step o W s s' ->
  forall x, x ∈ inactive s' -> x ∈ inactive s.
Proof.
  intros Ha Hstep x. destruct Hstep.
  - by destruct (redraw_frame _ _ _ _ H) as (_ & -> & _).
  - rewrite (append_inactive _ _ _ _ _ _ _ _ H H0).
    destruct (is_inactive id s); [apply list_remove_elem|done].
  - unfold addwin in H2.
    by destruct (redraw_frame _ _ _ _ H2) as (_ & -> & _).
  - unfold delwin in H. destruct (getwin id s); [|discriminate].
    destruct (redraw_frame _ _ _ _ H) as (_ & -> & _).
    destruct (is_inactive id _); simpl; [apply list_remove_elem|done].
  - done.
  - done.
  - done.
  - done.
Qed.

Lemma steps_inactive_subset (o : Opts) (W : World) (s s' : Screen) :
  inact o = 0 -> steps o W s s' ->
  forall x, x ∈ inactive s' -> x ∈ inactive s.
Proof.
  intros Ha Hs. induction Hs as [|a b c Hab _ IH]; [done|].
  intros x Hx. eapply step_inactive_subset; [done|exact Hab|]. by apply IH.
Qed.

(** X9: with the inactivity timeout set to 0 no window is ever inactive,
    whatever happens and however long a build stays silent. *)
Theorem run_timeout_zero (o : Opts) (W0 : World) (tr : list (World * Event))
    (m : Monitor) :
  inact o = 0 -> run o W0 tr = Ok m -> inactive (scr m) = [].
Proof.
  intros Ha H. unfold run in H. apply bind_Ok in H as (m0 & H0 & H).
  assert (registry_ok (scr m0) /\ inactive (scr m0) = []) as [Hr0 Hi0].
  { apply startup_steps in H0 as [fpd H0]. split.
    - eapply steps_registry; [apply blank_screen_registry|exact H0].
    - pose proof (steps_inactive_subset o W0 _ _ Ha H0) as Hsub.
      destruct (inactive (scr m0)) as [|x l]; [done|].
      specialize (Hsub x ltac:(left)). by apply elem_of_nil in Hsub. }
  clear H0. revert m0 Hr0 Hi0 H.
  induction tr as [|[W e] tr IH]; intros m0 Hr0 Hi0 H; simpl in H.
  - by injection H as <-.
  - apply bind_Ok in H as (m1 & H1 & H).
    pose proof (handle_steps o W e m0 m1 Hr0 H1) as Hs.
    apply (IH m1); [by eapply steps_registry| |done].
    pose proof (steps_inactive_subset o W _ _ Ha Hs) as Hsub.
    destruct (inactive (scr m1)) as [|x l]; [done|].
    specialize (Hsub x ltac:(left)). rewrite Hi0 in Hsub.
    by apply elem_of_nil in Hsub.
Qed.
Lemma run_timeout_zero_witness :
  inact patient_opts = 0
  /\ run patient_opts (world_at 0 (24, 80) []) sample_trace
     = Ok patient_monitor
  /\ length (windows (scr patient_monitor)) = 2%nat
  /\ inactive (scr patient_monitor) = [].
Proof.
  split; [reflexivity|]. split; [vm_compute; reflexivity|].
  split; [vm_compute; reflexivity|].
  apply (run_timeout_zero patient_opts (world_at 0 (24, 80) []) sample_trace);
    [reflexivity|vm_compute; reflexivity].
Defined.

(** ** The cursor stays in the window *)

Lemma clamp_bounds (v hi : Z) : 1 <= hi -> 0 <= clamp v hi < hi.
Proof.
  intros Hhi. unfold clamp.
  destruct (v <? 0) eqn:E1; [lia|]. destruct (v >=? hi) eqn:E2; lia.
Qed.

(** X10: a cursor sequence ([A] to [G]) moves the cursor to a cell of the
    window, whatever its argument and wherever the cursor was: the target is
    clamped to the window, it neither wraps nor scrolls. *)
Theorem cursor_in_bounds (func : ascii) (args : list text) (c c' : CWin) :
  1 <= fst (cw_maxyx c) -> 1 <= snd (cw_maxyx c) ->
  cursor func args c = Ok c' ->
  cw_maxyx c' = cw_maxyx c
  /\ 0 <= fst (cw_yx c') < fst (cw_maxyx c)
  /\ 0 <= snd (cw_yx c') < snd (cw_maxyx c).
Proof.
  intros Hy Hx. unfold cursor. destruct (cw_yx c) as [y x]. intros H.
  apply bind_Ok in H as (a0 & _ & H).
  apply bind_Ok in H as ([y' x'] & _ & H). injection H as <-. simpl.
  split; [done|]. split; by apply clamp_bounds.
Qed.

Lemma cursor_in_bounds_witness :
  let c := move 2 3 (newwin 10 40 0 0) in
  exists c',
    1 <= fst (cw_maxyx c) /\ 1 <= snd (cw_maxyx c)
    /\ cursor "B" [txt "500"] c = Ok c'
    /\ cw_yx c' = (9, 3)
    /\ 0 <= fst (cw_yx c') < fst (cw_maxyx c).
Proof.
  intros c. eexists.
  split; [vm_compute; discriminate|]. split; [vm_compute; discriminate|].
  split; [vm_compute; reflexivity|]. split; [reflexivity|].
  eapply (cursor_in_bounds "B" [txt "500"] c);
    [vm_compute; discriminate | vm_compute; discriminate
    | vm_compute; reflexivity].
Defined.
(** ** The colour-pair cache *)

Lemma pairs_ok_initial : pairs_ok {[ (-1, -1) := 0 ]}.
Proof.
  split.
  - intros key n H. apply lookup_singleton_Some in H as [_ <-].
    rewrite map_size_singleton. lia.
  - intros k1 k2 n H1 H2.
    apply lookup_singleton_Some in H1 as [<- _].
    by apply lookup_singleton_Some in H2 as [<- _].
Qed.

Lemma getcolor_cache_aux (o : Opts) (W : World) (fg bg cp : Z) (d d' : Draw) :
  pairs_ok (d_colors d) -> getcolor o W fg bg d = Ok (cp, d') ->
  pairs_ok (d_colors d')
  /\ getcolor o W fg bg d' = Ok (cp, d')
  /\ (forall key n, d_colors d !! key = Some n -> d_colors d' !! key = Some n)
  /\ (forall key n, d_colors d' !! key = Some n ->
        d_colors d !! key = Some n
        \/ (key = (fg, bg) /\ n < COLOR_PAIRS W)).
Proof.
  intros [Hrange Hinj] H. unfold getcolor in H.
  destruct (d_colors d !! (fg, bg)) as [n|] eqn:Hl.
  - injection H as <- <-. unfold getcolor. rewrite Hl.
    split; [by split|]. split; [done|]. split; [done|]. intros; by left.
  - destruct (COLOR_PAIRS W <=? Z.of_nat (size (d_colors d))) eqn:Hfull.
    + destruct (debug o) eqn:Hd; [discriminate|]. injection H as <- <-.
      unfold getcolor. rewrite Hl, Hfull, Hd.
      split; [by split|]. split; [done|]. split; [done|]. intros; by left.
    + injection H as <- <-. simpl. apply Z.leb_gt in Hfull.
      split; [split|split; [|split]].
      * intros key n Hk. rewrite map_size_insert_None by done.
        apply lookup_insert_Some in Hk as [[_ <-]|[_ Hk]]; [lia|].
        apply Hrange in Hk. lia.
      * intros k1 k2 n H1 H2.
        apply lookup_insert_Some in H1 as [[<- <-]|[Hne1 H1]];
          apply lookup_insert_Some in H2 as [[E2 E2']|[Hne2 H2]].
        -- done.
        -- apply Hrange in H2. lia.
        -- apply Hrange in H1. lia.
        -- by eapply Hinj.
      * unfold getcolor. simpl. by rewrite lookup_insert_eq.
      * intros key n Hk. rewrite lookup_insert_ne; [done|congruence].
      * intros key n Hk.
        apply lookup_insert_Some in Hk as [[<- <-]|[_ Hk]]; [right|by left].
        split; [done|lia].
Qed.

(** X11: [getcolor] on a sound cache.  The cache stays sound and keeps the
    pairs it has; a new pair is allocated only below [COLOR_PAIRS], and for
    the combination asked for; asking again gives the same answer and
    changes nothing. *)
Theorem getcolor_cache (o : Opts) (W : World) (fg bg cp : Z) (d d' : Draw) :
  pairs_ok (d_colors d) -> getcolor o W fg bg d = Ok (cp, d') ->
  pairs_ok (d_colors d')
  /\ getcolor o W fg bg d' = Ok (cp, d')
  /\ (forall key n, d_colors d !! key = Some n -> d_colors d' !! key = Some n)
  /\ (forall key n, d_colors d' !! key = Some n ->
        d_colors d !! key = Some n
        \/ (key = (fg, bg) /\ n < COLOR_PAIRS W)).
Proof. intros. eapply getcolor_cache_aux; eassumption. Qed.

Lemma getcolor_cache_witness :
  let d := pen_up (newwin 10 40 0 0) ({[ (-1, -1) := 0 ]}, []) in
  exists d',
    pairs_ok (d_colors d)
    /\ getcolor default_opts (world_at 0 (24, 80) []) COLOR_RED (-1) d
       = Ok (color_pair 1, d')
    /\ getcolor default_opts (world_at 0 (24, 80) []) COLOR_RED (-1) d'
       = Ok (color_pair 1, d').
Proof.
  intros d. eexists. split; [apply pairs_ok_initial|].
  split; [vm_compute; reflexivity|].
  eapply (getcolor_cache default_opts (world_at 0 (24, 80) []) COLOR_RED (-1)
            (color_pair 1) d);
    [apply pairs_ok_initial|vm_compute; reflexivity].
Defined.
(** ** The split keeps the text *)

Lemma csi_tail_concat (cont : text -> list text) (literal : list text)
    (lit m r : text) :
  concat literal = lit ++ m ++ r ->
  (forall r', (length r' < length r)%nat -> concat (cont r') = r') ->
  concat (csi_tail cont literal lit m r) = lit ++ m ++ r.
Proof.
  revert m. induction r as [|p r IH]; intros m Hl Hc; simpl; [done|].
  destruct (is_param p).
  - rewrite IH.
    + by rewrite <- (app_assoc m [p] r).
    + by rewrite <- (app_assoc m [p] r).
    + intros r' Hr'. apply Hc. simpl. lia.
  - destruct (is_final p); [|done]. simpl.
    rewrite Hc by (simpl; lia). by rewrite <- (app_assoc m [p] r).
Qed.

Lemma escregex_split_from_concat (n : nat) (s lit : text) :
  (length s <= n)%nat -> concat (escregex_split_from lit s) = lit ++ s.
Proof.
  revert s lit. induction n as [|n IH]; intros s lit Hn.
  - destruct s; [simpl; by rewrite !app_nil_r | simpl in Hn; lia].
  - destruct s as [|c s1]; [simpl; by rewrite !app_nil_r|].
    simpl in Hn.
    assert (concat (escregex_split_from (lit ++ [c]) s1) = lit ++ c :: s1)
      as Hlit.
    { rewrite IH by lia. by rewrite <- app_assoc. }
    simpl. destruct (Ascii.eqb c BEL).
    { simpl. rewrite IH by lia. done. }
    destruct (Ascii.eqb c ESC); [|done].
    destruct s1 as [|d s2]; [done|].
    destruct (Ascii.eqb d "["); [|done].
    rewrite csi_tail_concat; [done|done|].
    intros r' Hr. rewrite IH; [done|]. simpl in Hn. lia.
Qed.

(** X12: splitting loses nothing: the pieces of [escregex.split(text)], put
    together again in order, are the text. *)
Theorem escregex_split_concat (s : text) : concat (escregex_split s) = s.
Proof. apply (escregex_split_from_concat (length s)). lia. Qed.

Lemma sequences_SS (i : nat) (l : list text) :
  sequences (S (S i)) l = sequences i l.
Proof.
  revert i. induction l as [|p l IH]; intros i; simpl; [done|].
  by rewrite IH.
Qed.

Lemma literals_SS (i : nat) (l : list text) :
  literals (S (S i)) l = literals i l.
Proof.
  revert i. induction l as [|p l IH]; intros i; simpl; [done|].
  by rewrite IH.
Qed.

Lemma csi_tail_sequences (cont : text -> list text) (literal : list text)
    (lit m r : text) (P : text -> Prop) :
  Forall P (sequences 0 literal) ->
  (forall r', (length r' < length r)%nat ->
              Forall P (sequences 0 (cont r'))) ->
  (forall f, is_final f = true ->
             forall body, forallb is_param body = true ->
                          P (m ++ body ++ [f])) ->
  Forall P (sequences 0 (csi_tail cont literal lit m r)).
Proof.
  intros Hl. revert m. induction r as [|p r IH]; intros m Hc HP; simpl;
    [done|].
  destruct (is_param p) eqn:Hp.
  - apply IH; [intros; apply Hc; simpl; lia|].
    intros f Hf body Hb. rewrite <- app_assoc. simpl.
    apply (HP f Hf (p :: body)). simpl. by rewrite Hp.
  - destruct (is_final p) eqn:Hf; [|done]. simpl.
    apply Forall_cons. split; [by apply (HP p Hf [])|].
    rewrite sequences_SS. apply Hc. simpl. lia.
Qed.

Lemma escregex_split_from_sequences (n : nat) (s lit : text) :
  (length s <= n)%nat ->
  Forall (fun p => p = [BEL] \/ is_csi p)
    (sequences 0 (escregex_split_from lit s)).
Proof.
  revert s lit. induction n as [|n IH]; intros s lit Hn.
  - destruct s; [simpl; constructor | simpl in Hn; lia].
  - destruct s as [|c s1]; [simpl; constructor|]. simpl in Hn |- *.
    destruct (Ascii.eqb_spec c BEL) as [->|_].
    { simpl. apply Forall_cons. split; [by left|].
      rewrite sequences_SS. apply IH. lia. }
    destruct (Ascii.eqb_spec c ESC) as [->|_]; [|apply IH; lia].
    destruct s1 as [|d s2]; [apply IH; simpl; lia|].
    destruct (Ascii.eqb_spec d "[") as [->|_]; [|apply IH; simpl in *; lia].
    apply csi_tail_sequences.
    + apply IH. lia.
    + intros r' Hr. apply IH. simpl in Hn. lia.
    + intros f Hf body Hb. right. by exists body, f.
Qed.

Lemma csi_tail_literals (cont : text -> list text) (literal : list text)
    (lit m r : text) (P : text -> Prop) :
  Forall P (literals 0 literal) -> P lit ->
  (forall r', (length r' < length r)%nat ->
              Forall P (literals 0 (cont r'))) ->
  Forall P (literals 0 (csi_tail cont literal lit m r)).
Proof.
  intros Hl Hlit. revert m. induction r as [|p r IH]; intros m Hc; simpl;
    [done|].
  destruct (is_param p).
  - apply IH. intros; apply Hc; simpl; lia.
  - destruct (is_final p); [|done]. simpl.
    apply Forall_cons. split; [done|].
    rewrite literals_SS. apply Hc. simpl. lia.
Qed.

Lemma escregex_split_from_literals (n : nat) (s lit : text) :
  (length s <= n)%nat -> BEL ∉ lit ->
  Forall (fun l => BEL ∉ l) (literals 0 (escregex_split_from lit s)).
Proof.
  revert s lit. induction n as [|n IH]; intros s lit Hn Hlit.
  - destruct s; [simpl; by constructor | simpl in Hn; lia].
  - destruct s as [|c s1]; [simpl; by constructor|]. simpl in Hn |- *.
    destruct (Ascii.eqb_spec c BEL) as [->|Hc].
    { simpl. apply Forall_cons. split; [done|].
      rewrite literals_SS. apply IH; [lia|]. apply not_elem_of_nil. }
    assert (BEL ∉ lit ++ [c]) as Hlit'.
    { intros H. apply elem_of_app in H as [H|H]; [done|].
      apply list_elem_of_singleton in H. congruence. }
    destruct (Ascii.eqb_spec c ESC) as [->|_]; [|apply IH; [lia|done]].
    destruct s1 as [|d s2]; [apply IH; [simpl; lia|done]|].
    destruct (Ascii.eqb_spec d "[") as [->|_];
      [|apply IH; [simpl in *; lia|done]].
    apply csi_tail_literals; [apply IH; [lia|done]|done|].
    intros r' Hr. apply IH; [simpl in Hn; lia|apply not_elem_of_nil].
Qed.

(** X13: what the split tells apart.  Every piece at a match position is
    the bell or a well-formed control sequence, and no literal run contains
    a bell. *)
Theorem escregex_split_classifies (s : text) :
  Forall (fun p => p = [BEL] \/ is_csi p) (sequences 0 (escregex_split s))
  /\ Forall (fun l => BEL ∉ l) (literals 0 (escregex_split s)).
Proof.
  split.
  - apply (escregex_split_from_sequences (length s)). lia.
  - apply (escregex_split_from_literals (length s)); [lia|].
    apply not_elem_of_nil.
Qed.
Lemma cache_grows_refl (k : gmap (Z * Z) Z) : cache_grows k k.
Proof. by split. Qed.

Lemma cache_grows_trans (k1 k2 k3 : gmap (Z * Z) Z) :
  cache_grows k1 k2 -> cache_grows k2 k3 -> cache_grows k1 k3.
Proof. intros [A1 B1] [A2 B2]. split; auto. Qed.

Lemma foldM_sgr_param_colors (o : Opts) (args : list text) (d d' : Draw) :
  foldM (fun a d => sgr_param o (if text_eqb a [] then 0 else int10 a) d)
    args d = Ok d' ->
  d_colors d' = d_colors d.
Proof.
  revert d. induction args as [|a args IH]; intros d H; simpl in H.
  - by inversion H.
  - apply bind_Ok in H as (d1 & H1 & H2). rewrite (IH _ H2).
    unfold sgr_param in H1.
    repeat match type of H1 with
           | (if ?b then _ else _) = _ => destruct b
           end; inversion H1; reflexivity.
Qed.

Lemma interp_item_colors (o : Opts) (W : World) (i : nat) (p : text)
    (d d' : Draw) :
  interp_item o W i p d = Ok d' -> cache_grows (d_colors d) (d_colors d').
Proof.
  unfold interp_item. destruct (Nat.even i).
  - intros H. injection H as <-. apply cache_grows_refl.
  - intros H. apply bind_Ok in H as (c0 & _ & H).
    destruct (Ascii.eqb c0 BEL).
    + injection H as <-.
      destruct (vabell o || negb (vbell o)), (vbell o); apply cache_grows_refl.
    + unfold csi in H. apply bind_Ok in H as (func & _ & H).
      destruct (Ascii.eqb func "m").
      * unfold sgr in H. apply bind_Ok in H as (d1 & H1 & H).
        apply bind_Ok in H as ([cp d2] & H2 & H). injection H as <-. simpl.
        rewrite <- (foldM_sgr_param_colors _ _ _ _ H1).
        split.
        -- intros Hok. by eapply getcolor_cache_aux in H2 as (? & _).
        -- intros key n Hk.
           unfold getcolor in H2.
           destruct (d_colors d1 !! (d_fgcol d1, d_bgcol d1)) eqn:Hl.
           ++ by injection H2 as <- <-.
           ++ destruct (_ <=? _).
              ** destruct (debug o); [discriminate|]. by injection H2 as <- <-.
              ** injection H2 as <- <-. simpl.
                 rewrite lookup_insert_ne; [done|congruence].
      * destruct (_ && _).
        -- apply bind_Ok in H as (c & _ & H). injection H as <-.
           apply cache_grows_refl.
        -- destruct (debug o); [discriminate|]. injection H as <-.
           apply cache_grows_refl.
Qed.

Lemma interp_colors (o : Opts) (W : World) (ptext : list text) (i : nat)
    (d d' : Draw) :
  interp o W i ptext d = Ok d' -> cache_grows (d_colors d) (d_colors d').
Proof.
  revert i d. induction ptext as [|p ptext IH]; intros i d H; simpl in H.
  - injection H as <-. apply cache_grows_refl.
  - apply bind_Ok in H as (d1 & H1 & H2).
    eapply cache_grows_trans; [by eapply interp_item_colors|by eapply IH].
Qed.

Lemma append_window_colors (o : Opts) (W : World) (bl : Z) (t : text)
    (omit : bool) (w w' : Window) (k k' : gmap (Z * Z) Z * list Bell) :
  append_window o W bl t omit w k = Ok (w', k') -> cache_grows k.1 k'.1.
Proof.
  unfold append_window.
  match goal with |- context [win ?w1] => destruct (win w1) end.
  - intros H. apply bind_Ok in H as (d & Hd & H). injection H as <- <-.
    simpl. by apply interp_colors in Hd.
  - intros H. injection H as <- <-. apply cache_grows_refl.
Qed.

Lemma tile_colors (o : Opts) (W : World) (width bl : Z) (inact : list nat)
    (fpd : text) (ws ws' : list Window) (t : Tiling)
    (k k' : gmap (Z * Z) Z * list Bell) :
  tile o W width bl inact fpd ws t k = Ok (ws', k') -> cache_grows k.1 k'.1.
Proof.
  revert ws' t k k'. induction ws as [|v ws IH]; intros ws' t k k' H;
    simpl in H.
  - injection H as <- <-. apply cache_grows_refl.
  - destruct (_ && _).
    + apply bind_Ok in H as ([w2 k2] & Ha & H).
      apply bind_Ok in H as ([rest' k3] & Ht & H). injection H as <- <-.
      eapply cache_grows_trans; [by eapply append_window_colors|by eapply IH].
    + apply bind_Ok in H as ([rest' k3] & Ht & H). injection H as <- <-.
      by eapply IH.
Qed.

Lemma redraw_colors (o : Opts) (W : World) (s s' : Screen) :
  redraw o W s = Ok s' -> cache_grows (colors s) (colors s').
Proof.
  unfold redraw. destruct (getmaxyx W) as [height width].
  destruct (_ >? 0).
  - intros H. apply bind_Ok in H as ([[rows shown] extra] & _ & H).
    apply bind_Ok in H as ([ws k] & Ht & H). injection H as <-. simpl.
    by apply tile_colors in Ht.
  - intros H. injection H as <-. apply cache_grows_refl.
Qed.

Lemma step_colors (o : Opts) (W : World) (s s' : Screen) :
  step o W s s' -> cache_grows (colors s) (colors s').
Proof.
  intros Hstep. destruct Hstep.
  - by apply redraw_colors in H.
  - destruct (append_inv _ _ _ _ _ _ _ _ H H0)
      as (s2 & w2 & w' & k & Hs2 & _ & _ & Ha & ->).
    apply append_window_colors in Ha. simpl in Ha |- *.
    eapply cache_grows_trans; [|exact Ha].
    destruct (is_inactive id s).
    + by apply redraw_colors in Hs2.
    + subst. apply cache_grows_refl.
  - unfold addwin in H2. by apply redraw_colors in H2.
  - unfold delwin in H. destruct (getwin id s); [|discriminate].
    apply redraw_colors in H. by destruct (is_inactive id _).
  - apply cache_grows_refl.
  - apply cache_grows_refl.
  - apply cache_grows_refl.
  - apply cache_grows_refl.
Qed.

Lemma steps_colors (o : Opts) (W : World) (s s' : Screen) :
  steps o W s s' -> cache_grows (colors s) (colors s').
Proof.
  intros Hs. induction Hs as [|a b c Hab _ IH]; [apply cache_grows_refl|].
  eapply cache_grows_trans; [by eapply step_colors|done].
Qed.

(** X14: in every state a run reaches the colour-pair cache is sound: pair
    numbers are handed out in order, each to one colour combination, and the
    default colours keep pair 0. *)
Theorem run_color_cache (o : Opts) (W0 : World) (tr : list (World * Event))
    (m : Monitor) :
  run o W0 tr = Ok m ->
  pairs_ok (colors (scr m)) /\ colors (scr m) !! (-1, -1) = Some 0.
Proof.
  intros H. unfold run in H. apply bind_Ok in H as (m0 & H0 & H).
  assert (registry_ok (scr m0)
          /\ cache_grows {[ (-1, -1) := 0 ]} (colors (scr m0))) as [Hr0 Hc0].
  { apply startup_steps in H0 as [fpd H0]. split.
    - eapply steps_registry; [apply blank_screen_registry|exact H0].
    - by apply steps_colors in H0. }
  clear H0. revert m0 Hr0 Hc0 H.
  induction tr as [|[W e] tr IH]; intros m0 Hr0 Hc0 H; simpl in H.
  - injection H as <-. destruct Hc0 as [A B].
    split; [apply A, pairs_ok_initial|apply B, lookup_singleton_eq].
  - apply bind_Ok in H as (m1 & H1 & H).
    pose proof (handle_steps o W e m0 m1 Hr0 H1) as Hs.
    apply (IH m1); [by eapply steps_registry| |done].
    eapply cache_grows_trans; [exact Hc0|exact (steps_colors o W _ _ Hs)].
Qed.

Lemma run_color_cache_witness :
  run default_opts (world_at 0 (24, 80) [])
    [(world_at 1 (24, 80) scenario_B, IN_MODIFY fetchlog)]
  = Ok (get_ok empty_monitor
          (run default_opts (world_at 0 (24, 80) [])
             [(world_at 1 (24, 80) scenario_B, IN_MODIFY fetchlog)]))
  /\ colors (scr (get_ok empty_monitor
                    (run default_opts (world_at 0 (24, 80) [])
                       [(world_at 1 (24, 80) scenario_B,
                         IN_MODIFY fetchlog)])))
     !! (-1, -1) = Some 0.
Proof.
  split; [vm_compute; reflexivity|].
  eapply (run_color_cache default_opts (world_at 0 (24, 80) [])
            [(world_at 1 (24, 80) scenario_B, IN_MODIFY fetchlog)]).
  vm_compute. reflexivity.
Defined.
(** ** SGR *)

Lemma foldM_app {A S} (body : A -> S -> Result S) (l1 l2 : list A) (s : S) :
  foldM body (l1 ++ l2) s = bind (foldM body l1 s) (foldM body l2).
Proof.
  revert s. induction l1 as [|x l1 IH]; intros s; simpl; [done|].
  destruct (body x s); simpl; [apply IH|done].
Qed.

(** X15: an SGR sequence whose last parameter is 0 or empty ([ESC \[ m],
    [ESC \[ 0 m], [ESC \[ 1;31;0 m], ...) puts the window back into the
    default attribute, whatever the parameters before it and whatever the
    rendering state was. *)
Theorem sgr_reset (o : Opts) (W : World) (args : list text) (a : text)
    (d d' : Draw) :
  a = [] \/ int10 a = 0 ->
  d_colors d !! (-1, -1) = Some 0 ->
  sgr o W (args ++ [a]) d = Ok d' ->
  cw_attr (d_win d') = 0
  /\ d_mode d' = 0 /\ d_fgcol d' = -1 /\ d_bgcol d' = -1
  /\ d_colors d' = d_colors d.
Proof.
  intros Ha Hk H. unfold sgr in H.
  apply bind_Ok in H as (d1 & H1 & H). rewrite foldM_app in H1.
  apply bind_Ok in H1 as (d0 & H0 & H1). simpl in H1.
  apply foldM_sgr_param_colors in H0.
  assert ((if text_eqb a [] then 0 else int10 a) = 0) as Hz.
  { destruct Ha as [->|Ha]; [done|]. by destruct (text_eqb a []). }
  rewrite Hz in H1. unfold sgr_param in H1. simpl in H1.
  injection H1 as <-. simpl in H.
  unfold getcolor in H. simpl in H. rewrite H0, Hk in H. simpl in H.
  injection H as <-. simpl. done.
Qed.

Lemma sgr_reset_witness :
  let d := set_pen A_BOLD 1 4
             (pen_up (attrset 1234 (newwin 10 40 0 0))
                ({[ (-1, -1) := 0 ]}, [])) in
  exists d',
    (txt "0" = [] \/ int10 (txt "0") = 0)
    /\ d_colors d !! (-1, -1) = Some 0
    /\ sgr default_opts (world_at 0 (24, 80) []) ([txt "4"; txt "32"] ++ [txt "0"]) d
       = Ok d'
    /\ cw_attr (d_win d') = 0.
Proof.
  intros d. eexists. split; [right; reflexivity|].
  split; [vm_compute; reflexivity|]. split; [vm_compute; reflexivity|].
  eapply (sgr_reset default_opts (world_at 0 (24, 80) [])
            [txt "4"; txt "32"] (txt "0") d);
    [right; reflexivity|vm_compute; reflexivity|vm_compute; reflexivity].
Defined.
(** ** The layout fits the terminal *)

Lemma layout_tiling (height n rows shown extra : Z) :
  1 <= height -> 0 < n ->
  layout height n = Ok (rows, shown, extra) ->
  tiling_ok (height - 1)
    {| jobrows := rows; jobcount := shown; jobrowsleft := extra;
       starty := 0 |}.
Proof.
  intros Hh Hn. unfold layout, tiling_ok. simpl.
  set (H := height - 1). assert (0 <= H) as HH by (unfold H; lia).
  destruct (H / n <? 4) eqn:Hq.
  - destruct (H / 4 =? 0) eqn:Hz; [discriminate|]. simpl.
    apply Z.eqb_neq in Hz.
    assert (0 < H / 4) as Hpos.
    { pose proof (Z.div_pos H 4 HH ltac:(lia)). lia. }
    pose proof (Z.mod_pos_bound H (H / 4) Hpos) as Hr.
    assert (4 * (H / 4) + H mod (H / 4) <= H) as Hfit.
    { pose proof (Z.div_mod H 4 ltac:(lia)) as E.
      pose proof (Z.mod_pos_bound H 4 ltac:(lia)) as Hs.
      assert (H mod (H / 4) = (H mod 4) mod (H / 4)) as ->.
      { rewrite <- (Z_mod_plus_full (H mod 4) 4 (H / 4)).
        f_equal. lia. }
      pose proof (Z.mod_le (H mod 4) (H / 4) ltac:(lia) Hpos). lia. }
    destruct (H mod (H / 4) >? 0) eqn:Hl; intros E; injection E as <- <- <-.
    + split; [lia|]. right. nia.
    + split; [lia|]. left. nia.
  - simpl. apply Z.ltb_ge in Hq.
    pose proof (Z.mod_pos_bound H n Hn) as Hr.
    pose proof (Z.div_mod H n ltac:(lia)) as E.
    destruct (H mod n >? 0) eqn:Hl; intros E'; injection E' as <- <- <-.
    + split; [lia|]. right. nia.
    + split; [lia|]. left. nia.
Qed.

Lemma interp_item_geometry (o : Opts) (W : World) (i : nat) (p : text)
    (d d' : Draw) :
  interp_item o W i p d = Ok d' ->
  cw_maxyx (d_win d') = cw_maxyx (d_win d)
  /\ cw_begyx (d_win d') = cw_begyx (d_win d).
Proof.
  unfold interp_item. destruct (Nat.even i).
  - intros H. by injection H as <-.
  - intros H. apply bind_Ok in H as (c0 & _ & H).
    destruct (Ascii.eqb c0 BEL).
    + injection H as <-.
      by destruct (vabell o || negb (vbell o)), (vbell o).
    + unfold csi in H. apply bind_Ok in H as (func & _ & H).
      destruct (Ascii.eqb func "m").
      * unfold sgr in H. apply bind_Ok in H as (d1 & H1 & H).
        apply bind_Ok in H as ([cp d2] & H2 & H). injection H as <-. simpl.
        rewrite (getcolor_win _ _ _ _ _ _ _ H2).
        by rewrite (foldM_sgr_param_win _ _ _ _ H1).
      * destruct (_ && _).
        -- apply bind_Ok in H as (c & Hc & H). injection H as <-. simpl.
           unfold cursor in Hc. destruct (cw_yx (d_win d)).
           apply bind_Ok in Hc as (a0 & _ & Hc).
           apply bind_Ok in Hc as ([y' x'] & _ & Hc). by injection Hc as <-.
        -- destruct (debug o); [discriminate|]. by injection H as <-.
Qed.

Lemma interp_geometry (o : Opts) (W : World) (ptext : list text) (i : nat)
    (d d' : Draw) :
  interp o W i ptext d = Ok d' ->
  cw_maxyx (d_win d') = cw_maxyx (d_win d)
  /\ cw_begyx (d_win d') = cw_begyx (d_win d).
Proof.
  revert i d. induction ptext as [|p ptext IH]; intros i d H; simpl in H.
  - by injection H as <-.
  - apply bind_Ok in H as (d1 & H1 & H2).
    destruct (interp_item_geometry _ _ _ _ _ _ H1) as [<- <-].
    by eapply IH.
Qed.

Lemma title_bar_begyx (W : World) (fpd : text) (w : Window) (n : CWin) :
  cw_begyx (title_bar W fpd w n) = cw_begyx n.
Proof.
  unfold title_bar. destruct (text_eqb (basedir w) (txt "_fetch")); [done|].
  by destruct (text_eqb _ fpd).
Qed.

Lemma tile_stacked (o : Opts) (W : World) (width bl H : Z)
    (inact : list nat) (fpd : text) (ws ws' : list Window) (t : Tiling)
    (k k' : gmap (Z * Z) Z * list Bell) :
  tiling_ok H t ->
  tile o W width bl inact fpd ws t k = Ok (ws', k') ->
  stacked (starty t) H (omap region ws').
Proof.
  revert ws' t k k'. induction ws as [|v ws IH]; intros ws' t k k' Ht Htile;
    simpl in Htile.
  - injection Htile as <- <-. simpl. destruct Ht as [Hc [Ht|Ht]]; nia.
  - destruct (negb _ && (jobcount t >? 0)) eqn:Hshow.
    + apply andb_true_iff in Hshow as [_ Hcount].
      apply bind_Ok in Htile as ([w2 k2] & Ha & Htile).
      apply bind_Ok in Htile as ([rest' k3] & Hrest & Htile).
      injection Htile as <- <-.
      unfold append_window in Ha. simpl in Ha.
      apply bind_Ok in Ha as (d & Hd & Ha). injection Ha as <- <-.
      destruct (interp_geometry _ _ _ _ _ _ Hd) as [Hm Hb]. simpl in Hm, Hb.
      simpl. unfold region at 1. simpl.
      rewrite Hm, Hb, title_bar_begyx. simpl.
      apply IH in Hrest.
      * simpl in Hrest.
        destruct Ht as [Hc [(Hz & Hr & Hfit)|(Hz & Hr & Hl & Hfit)]].
        -- assert ((jobrowsleft t >? 0) = false) as E by lia.
           rewrite E in *. simpl in *.
           repeat split; [lia..|].
           match goal with |- stacked ?a _ _ =>
                replace a with (starty t + jobrows t) by lia end.
              exact Hrest.
        -- assert ((jobrowsleft t >? 0) = true) as E by lia.
           rewrite E in *. simpl in *.
           destruct (jobrowsleft t - 1 =? 0) eqn:E1.
           ++ repeat split; [lia..|].
              match goal with |- stacked ?a _ _ =>
                replace a with (starty t + (jobrows t - 1)) by lia end.
              exact Hrest.
           ++ repeat split; [lia..|].
              match goal with |- stacked ?a _ _ =>
                replace a with (starty t + jobrows t) by lia end.
              exact Hrest.
      * unfold tiling_ok. simpl.
        destruct Ht as [Hc [(Hz & Hr & Hfit)|(Hz & Hr & Hl & Hfit)]].
        -- assert ((jobrowsleft t >? 0) = false) as E by lia.
           rewrite E. simpl. split; [lia|]. left. nia.
        -- assert ((jobrowsleft t >? 0) = true) as E by lia.
           rewrite E. simpl. split; [lia|].
           destruct (jobrowsleft t - 1 =? 0) eqn:E1.
           ++ left. nia.
           ++ right. nia.
    + apply bind_Ok in Htile as ([rest' k3] & Hrest & Htile).
      injection Htile as <- <-. simpl. by eapply IH.
Qed.

Lemma omap_region_hidden (ws : list Window) :
  omap region (map (set_wins None None) ws) = [].
Proof. induction ws as [|w ws IH]; simpl; [done|]. apply IH. Qed.

(** X16: whenever [redraw] succeeds, the windows it shows are stacked from
    the top of the terminal in registry order, each with at least three
    content rows and its title bar right below them, and they end above the
    last row, which is the status bar's. *)
Theorem redraw_layout_fit (o : Opts) (W : World) (s s' : Screen) :
  1 <= fst (getmaxyx W) -> redraw o W s = Ok s' ->
  stacked 0 (fst (getmaxyx W) - 1) (omap region (windows s')).
Proof.
  intros Hh. unfold redraw. destruct (getmaxyx W) as [height width].
  simpl in Hh |- *. destruct (_ >? 0) eqn:Hn.
  - intros H. apply bind_Ok in H as ([[rows shown] extra] & Hl & H).
    apply bind_Ok in H as ([ws k] & Ht & H). injection H as <-. simpl.
    apply Z.gtb_lt in Hn.
    exact (tile_stacked _ _ _ _ (height - 1) _ _ _ _ _ _ _
             (layout_tiling _ _ _ _ _ Hh Hn Hl) Ht).
  - intros H. injection H as <-. simpl. rewrite omap_region_hidden. simpl.
    lia.
Qed.

Lemma redraw_layout_fit_witness :
  exists s',
    1 <= fst (getmaxyx (world_at 101 (24, 80) []))
    /\ redraw patient_opts (world_at 101 (24, 80) []) (scr patient_monitor)
       = Ok s'
    /\ omap region (windows s') = [(0, 11, 11); (12, 10, 22)]
    /\ stacked 0 (fst (getmaxyx (world_at 101 (24, 80) [])) - 1)
         (omap region (windows s')).
Proof.
  eexists. split; [vm_compute; discriminate|].
  split; [vm_compute; reflexivity|]. split; [vm_compute; reflexivity|].
  apply (redraw_layout_fit patient_opts (world_at 101 (24, 80) [])
           (scr patient_monitor)).
  - vm_compute. discriminate.
  - vm_compute. reflexivity.
Defined.
(** ** The lock poll *)

Lemma find_lock_view (id : nat) (ws ws' : list Window) :
  map lock_view ws' = map lock_view ws ->
  lock_view <$> find (fun w => Nat.eqb (wid w) id) ws'
  = lock_view <$> find (fun w => Nat.eqb (wid w) id) ws.
Proof.
  revert ws'. induction ws as [|v ws IH]; intros [|v' ws'] H;
    simpl in *; try discriminate; [done|].
  assert (lock_view v' = lock_view v) as Hc by congruence.
  assert (map lock_view ws' = map lock_view ws) as Hm by congruence.
  assert (wid v' = wid v) as -> by (unfold lock_view in Hc; congruence).
  destruct (Nat.eqb (wid v) id); [simpl; by f_equal|by apply IH].
Qed.

Lemma view_at_ext (id : nat) (s s' : Screen) :
  map lock_view (windows s') = map lock_view (windows s) ->
  view_at id s' = view_at id s.
Proof. apply find_lock_view. Qed.

Lemma map_lock_view_wid (ws ws' : list Window) :
  map lock_view ws' = map lock_view ws -> map wid ws' = map wid ws.
Proof.
  intros H.
  assert (forall l, map wid l = map (fun v => v.1.1.1) (map lock_view l))
    as E by (intros l; by rewrite map_map).
  by rewrite !E, H.
Qed.

Lemma append_window_lock_view (o : Opts) (W : World) (bl : Z) (t : text)
    (omit : bool) (w w' : Window) (k k' : gmap (Z * Z) Z * list Bell) :
  append_window o W bl t omit w k = Ok (w', k') -> lock_view w' = lock_view w.
Proof.
  unfold append_window. destruct omit; simpl; destruct (win w); intros H;
    try (apply bind_Ok in H as (d & _ & H)); by injection H as <- <-.
Qed.

Lemma tile_lock_view (o : Opts) (W : World) (width bl : Z) (inact : list nat)
    (fpd : text) (ws ws' : list Window) (t : Tiling)
    (k k' : gmap (Z * Z) Z * list Bell) :
  tile o W width bl inact fpd ws t k = Ok (ws', k') ->
  map lock_view ws' = map lock_view ws.
Proof.
  revert ws' t k k'. induction ws as [|v ws IH]; intros ws' t k k' H;
    simpl in H.
  - by injection H as <- <-.
  - destruct (_ && _).
    + apply bind_Ok in H as ([w2 k2] & Ha & H).
      apply bind_Ok in H as ([rest' k3] & Ht & H). injection H as <- <-.
      simpl. f_equal; [|by eapply IH].
      apply append_window_lock_view in Ha.
      transitivity (lock_view w2); [done|by rewrite Ha].
    + apply bind_Ok in H as ([rest' k3] & Ht & H). injection H as <- <-.
      simpl. f_equal. by eapply IH.
Qed.

Lemma redraw_lock_view (o : Opts) (W : World) (s s' : Screen) :
  redraw o W s = Ok s' ->
  map lock_view (windows s') = map lock_view (windows s).
Proof.
  unfold redraw. destruct (getmaxyx W) as [height width].
  destruct (_ >? 0).
  - intros H. apply bind_Ok in H as ([[rows shown] extra] & _ & H).
    apply bind_Ok in H as ([ws k] & Ht & H). injection H as <-. simpl.
    by eapply tile_lock_view.
  - intros H. injection H as <-. simpl. rewrite map_map. by apply map_ext.
Qed.

Lemma modify_lock_view (id : nat) (f : Window -> Window) (s : Screen) :
  (forall w, lock_view (f w) = lock_view w) ->
  map lock_view (windows (modify id f s)) = map lock_view (windows s).
Proof.
  intros Hf. unfold modify. simpl. rewrite map_map. apply map_ext.
  intros w. by destruct (Nat.eqb (wid w) id).
Qed.

Lemma view_at_modify_other (id id' : nat) (f : Window -> Window) (s : Screen) :
  id <> id' -> (forall w, wid (f w) = wid w) ->
  view_at id (modify id' f s) = view_at id s.
Proof.
  intros Hne Hf. unfold view_at. rewrite getwin_modify by done.
  destruct (getwin id s) as [w|] eqn:Hw; [|done]. simpl.
  apply getwin_wid in Hw.
  destruct (Nat.eqb_spec (wid w) id'); [congruence|done].
Qed.

Lemma commit_lock_view (id : nat) (w2 w' : Window)
    (k : gmap (Z * Z) Z * list Bell) (s : Screen) :
  NoDup (map wid (windows s)) -> getwin id s = Some w2 ->
  lock_view w' = lock_view w2 ->
  map lock_view (windows (commit w' k s)) = map lock_view (windows s).
Proof.
  intros Hn Hw Hs. unfold commit. simpl. rewrite map_map.
  apply map_ext_in. intros v Hv.
  assert (wid w' = id) as Hid.
  { apply getwin_wid in Hw. unfold lock_view in Hs. congruence. }
  destruct (Nat.eqb_spec (wid v) (wid w')) as [E|]; [|done].
  rewrite (getwin_unique id s w2 v Hn Hw); [done| |congruence].
  by apply list_elem_of_In.
Qed.

Lemma append_lock_view (o : Opts) (W : World) (id : nat) (t : text)
    (omit : bool) (s s' : Screen) (w : Window) :
  registry_ok s -> getwin id s = Some w -> append o W id t omit s = Ok s' ->
  map lock_view (windows s') = map lock_view (windows s).
Proof.
  intros Hr Hw H.
  destruct (append_inv _ _ _ _ _ _ _ _ Hw H)
    as (s2 & w2 & w' & k & Hs2 & Hw2 & _ & Ha & ->).
  assert (map lock_view (windows s2) = map lock_view (windows s)) as H2.
  { destruct (is_inactive id s).
    - apply redraw_lock_view in Hs2. rewrite Hs2. simpl.
      by apply modify_lock_view.
    - subst s2. by apply modify_lock_view. }
  rewrite <- H2. eapply commit_lock_view; [|exact Hw2|].
  - rewrite (map_lock_view_wid _ _ H2). apply Hr.
  - by eapply append_window_lock_view.
Qed.

Lemma checkact_pull_view (o : Opts) (W : World) (ts pi : Z) (x id : nat)
    (s s' : Screen) :
  registry_ok s -> checkact_pull o W ts pi x s = Ok s' ->
  map lock_view (windows s') = map lock_view (windows s)
  /\ (id ∈ inactive s -> x <> id \/ file_read W id = [] -> id ∈ inactive s').
Proof.
  intros Hr. unfold checkact_pull.
  destruct (getwin x s) as [w|] eqn:Hw;
    [|intros H; by injection H as <-].
  destruct (_ && _); [|intros H; by injection H as <-].
  unfold pull.
  destruct (getwin_touch x x (set_pullts (now W)) s w) as (w1 & Hw1 & _);
    [done..|].
  assert (map lock_view (windows (modify x (set_pullts (now W)) s))
          = map lock_view (windows s)) as Hm by by apply modify_lock_view.
  destruct (_ =? 0) eqn:Hd.
  - intros H. by injection H as <-.
  - intros H. split.
    + rewrite <- Hm. eapply append_lock_view; [|exact Hw1|exact H].
      apply (registry_ok_ext s); [|reflexivity|exact Hr].
      by apply map_core_spine, modify_core.
    + intros Hin [Hne|Hnone].
      * rewrite (append_inactive _ _ _ _ _ _ _ _ Hw1 H).
        destruct (is_inactive _ _); [|done]. by apply list_remove_other.
      * destruct (decide (x = id)) as [->|Hne].
        -- rewrite Hnone in Hd. discriminate.
        -- rewrite (append_inactive _ _ _ _ _ _ _ _ Hw1 H).
           destruct (is_inactive _ _); [|done]. apply list_remove_other; [done|].
           congruence.
Qed.

Lemma checkact_idle_view (ts at_ : Z) (x id : nat) (s s' : Screen)
    (rd rd' : bool) :
  checkact_idle ts at_ x (s, rd) = (s', rd') ->
  windows s' = windows s /\ (id ∈ inactive s -> id ∈ inactive s').
Proof.
  unfold checkact_idle. destruct (getwin x s);
    [|intros H; by injection H as <- <-].
  destruct (_ && _); intros H; injection H as <- <-; [|done].
  simpl. split; [done|]. intros Hin. apply elem_of_app. by left.
Qed.

Lemma checkact_lock_other (W : World) (ts at_ li : Z) (x id : nat)
    (s s' : Screen) (wr wr' : list nat) :
  x <> id -> checkact_lock W ts at_ li x (s, wr) = Ok (s', wr') ->
  view_at id s' = view_at id s /\ inactive s' = inactive s
  /\ (id ∈ wr' <-> id ∈ wr).
Proof.
  intros Hne. unfold checkact_lock.
  destruct (getwin x s); [|intros H; by injection H as <- <-].
  destruct (lockfn w); [|intros H; by injection H as <- <-].
  destruct (_ && _); [|intros H; by injection H as <- <-].
  intros H. apply bind_Ok in H as (held & _ & H).
  destruct (negb held); injection H; intros <- <-.
  - split; [by apply view_at_modify_other|]. split; [done|].
    rewrite elem_of_app, list_elem_of_singleton.
    split; [intros [?|?]; [done|congruence]|by left].
  - split; [|done]. by rewrite !view_at_modify_other.
Qed.

Lemma view_at_modify_self (id : nat) (f : Window -> Window) (s : Screen)
    (w : Window) :
  (forall w, wid (f w) = wid w) -> getwin id s = Some w ->
  getwin id (modify id f s) = Some (f w).
Proof.
  intros Hf Hw. rewrite getwin_modify, Hw by done. simpl.
  by rewrite (getwin_wid _ _ _ Hw), Nat.eqb_refl.
Qed.

Lemma checkact_lock_self (W : World) (ts at_ li : Z) (id : nat)
    (s s' : Screen) (wr wr' : list nat) (path : text) (e lc : Z) :
  view_at id s = Some (id, Some path, e, lc) ->
  at_ = 0 \/ id ∈ inactive s -> li <= ts - lc ->
  checkact_lock W ts at_ li id (s, wr) = Ok (s', wr') ->
  match lock_probe W path with
  | LockHeld =>
      view_at id s' = Some (id, Some path, e + 1, now W) /\ wr' = wr
  | LockError => False
  | _ => wr' = wr ++ [id]
  end.
Proof.
  intros Hv Hdue Hli. unfold view_at in Hv. unfold checkact_lock.
  destruct (getwin id s) as [w|] eqn:Hw; [|discriminate].
  simpl in Hv. unfold lock_view in Hv. injection Hv as Hi Hl He Hc.
  rewrite Hl.
  assert (((at_ =? 0) || is_inactive id s) && (ts - lockcheck w >=? li)
          = true) as ->.
  { apply andb_true_iff. split; [|lia].
    apply orb_true_iff. destruct Hdue as [->|Hin]; [by left|right].
    by apply bool_decide_eq_true. }
  unfold check_lock. destruct (lock_probe W path); simpl; intros H;
    try discriminate; injection H as <- <-; try done.
  split; [|done]. unfold view_at.
  erewrite view_at_modify_self; [|done|by apply view_at_modify_self].
  simpl. unfold lock_view. simpl. by rewrite Hi, Hl, He.
Qed.

Lemma checkact_window_view (o : Opts) (W : World) (ts pi li : Z) (x id : nat)
    (s s' : Screen) (rd rd' : bool) (wr wr' : list nat) :
  registry_ok s ->
  checkact_window o W ts pi (inact o) li x (s, rd, wr) = Ok (s', rd', wr') ->
  registry_ok s'
  /\ (id ∈ inactive s -> x <> id \/ file_read W id = [] -> id ∈ inactive s')
  /\ (x <> id -> view_at id s' = view_at id s /\ (id ∈ wr' <-> id ∈ wr))
  /\ (x = id -> forall path e lc,
        view_at id s = Some (id, Some path, e, lc) ->
        inact o = 0 \/ (id ∈ inactive s /\ file_read W id = []) ->
        li <= ts - lc ->
        match lock_probe W path with
        | LockHeld =>
            view_at id s' = Some (id, Some path, e + 1, now W) /\ wr' = wr
        | LockError => False
        | _ => wr' = wr ++ [id]
        end).
Proof.
  intros Hr H. split.
  { eapply steps_registry; [exact Hr|].
    apply (checkact_window_steps o W ts pi li x (s, rd, wr) (s', rd', wr') H). }
  unfold checkact_window in H. apply bind_Ok in H as (s1 & H1 & H).
  destruct (checkact_idle ts (inact o) x (s1, rd)) as [s2 rd2] eqn:H2.
  apply bind_Ok in H as ([s3 wr3] & H3 & H). injection H as <- <- <-.
  destruct (checkact_pull_view o W ts pi x id s s1 Hr H1) as [Hv1 Hi1].
  destruct (checkact_idle_view ts (inact o) x id s1 s2 rd rd2 H2)
    as [Hv2 Hi2].
  assert (view_at id s2 = view_at id s) as Hv.
  { rewrite <- (view_at_ext id s s1 Hv1). apply view_at_ext. by rewrite Hv2. }
  split; [|split].
  - intros Hin Hx.
    assert (id ∈ inactive s2) as Hin2 by auto.
    unfold checkact_lock in H3.
    destruct (getwin x s2); [|by injection H3 as <- <-].
    destruct (lockfn w); [|by injection H3 as <- <-].
    destruct (_ && _); [|by injection H3 as <- <-].
    apply bind_Ok in H3 as (held & _ & H3).
    by destruct (negb held); injection H3 as <- <-.
  - intros Hne.
    destruct (checkact_lock_other _ _ _ _ _ _ _ _ _ _ Hne H3)
      as (Hv3 & _ & Hw3).
    split; [by rewrite Hv3|done].
  - intros -> path e lc Hview Hdue Hli.
    eapply checkact_lock_self; [by rewrite Hv| |exact Hli|exact H3].
    destruct Hdue as [?|[Hin Hnone]]; [by left|right]. auto.
Qed.

Lemma checkact_scan_other (o : Opts) (W : World) (ts pi li : Z) (id : nat)
    (l : list nat) (s s' : Screen) (rd rd' : bool) (wr wr' : list nat) :
  id ∉ l -> registry_ok s ->
  foldM (checkact_window o W ts pi (inact o) li) l (s, rd, wr)
  = Ok (s', rd', wr') ->
  registry_ok s' /\ view_at id s' = view_at id s
  /\ (id ∈ wr' <-> id ∈ wr).
Proof.
  revert s rd wr. induction l as [|x l IH]; intros s rd wr Hid Hr H;
    simpl in H.
  - by injection H as <- <- <-.
  - apply bind_Ok in H as ([[s1 rd1] wr1] & H1 & H).
    apply not_elem_of_cons in Hid as [Hne Hid].
    destruct (checkact_window_view _ _ _ _ _ _ id _ _ _ _ _ _ Hr H1)
      as (Hr1 & _ & Ho & _).
    destruct (Ho ltac:(congruence)) as [Hv1 Hw1].
    destruct (IH _ _ _ Hid Hr1 H) as (Hr' & Hv' & Hw').
    split; [done|]. split; [congruence|]. by rewrite Hw', Hw1.
Qed.

Lemma checkact_scan_self (o : Opts) (W : World) (ts pi li : Z) (id : nat)
    (l : list nat) (s s' : Screen) (rd rd' : bool) (wr wr' : list nat)
    (path : text) (e lc : Z) :
  NoDup l -> id ∈ l -> registry_ok s ->
  view_at id s = Some (id, Some path, e, lc) ->
  inact o = 0 \/ (id ∈ inactive s /\ file_read W id = []) ->
  li <= ts - lc -> id ∉ wr ->
  foldM (checkact_window o W ts pi (inact o) li) l (s, rd, wr)
  = Ok (s', rd', wr') ->
  registry_ok s'
  /\ match lock_probe W path with
     | LockHeld =>
         view_at id s' = Some (id, Some path, e + 1, now W) /\ id ∉ wr'
     | LockError => False
     | _ => id ∈ wr'
     end.
Proof.
  revert s rd wr. induction l as [|x l IH];
    intros s rd wr Hn Hid Hr Hv Hdue Hli Hwr H; simpl in H.
  - by apply elem_of_nil in Hid.
  - apply bind_Ok in H as ([[s1 rd1] wr1] & H1 & H).
    apply NoDup_cons in Hn as [Hx Hn].
    destruct (checkact_window_view _ _ _ _ _ _ id _ _ _ _ _ _ Hr H1)
      as (Hr1 & Hi1 & Ho & Hs).
    destruct (decide (x = id)) as [->|Hne].
    + specialize (Hs eq_refl path e lc Hv Hdue Hli).
      destruct (checkact_scan_other _ _ _ _ _ id _ _ _ _ _ _ _ Hx Hr1 H)
        as (Hr' & Hv' & Hw').
      split; [done|].
      destruct (lock_probe W path); try done.
      * subst wr1. apply Hw', elem_of_app. right. by left.
      * destruct Hs as [Hs ->]. split; [congruence|]. by rewrite Hw'.
      * subst wr1. apply Hw', elem_of_app. right. by left.
    + destruct (Ho Hne) as [Hv1 Hw1].
      apply elem_of_cons in Hid as [->|Hid]; [done|].
      apply (IH s1 rd1 wr1); try done.
      * congruence.
      * destruct Hdue as [?|[Hin Hnone]]; [by left|right]. auto.
      * by rewrite Hw1.
Qed.

Lemma delwin_wids (o : Opts) (W : World) (id : nat) (s s' : Screen) :
  delwin o W id s = Ok s' ->
  map lock_view (windows s') = map lock_view (remove_window id (windows s)).
Proof.
  unfold delwin. destruct (getwin id s); [|discriminate].
  intros H. apply redraw_lock_view in H. rewrite H.
  by destruct (is_inactive _ _).
Qed.

Lemma find_remove_window (id x : nat) (ws : list Window) :
  x <> id ->
  find (fun w => Nat.eqb (wid w) id) (remove_window x ws)
  = find (fun w => Nat.eqb (wid w) id) ws.
Proof.
  intros Hne. induction ws as [|v ws IH]; simpl; [done|].
  destruct (Nat.eqb_spec (wid v) x) as [E|_].
  - destruct (Nat.eqb_spec (wid v) id); [congruence|done].
  - simpl. by rewrite IH.
Qed.

Lemma foldM_delwin_gone (o : Opts) (W : World) (id : nat) (l : list nat)
    (s s' : Screen) :
  registry_ok s -> foldM (delwin o W) l s = Ok s' ->
  id ∈ l \/ id ∉ map wid (windows s) -> id ∉ map wid (windows s').
Proof.
  revert s. induction l as [|x l IH]; intros s Hr H Hid; simpl in H.
  - injection H as <-. destruct Hid as [Hid|]; [|done].
    by apply elem_of_nil in Hid.
  - apply bind_Ok in H as (s1 & H1 & H).
    pose proof (delwin_registry _ _ _ _ _ Hr H1) as Hr1.
    pose proof (map_lock_view_wid _ _ (delwin_wids _ _ _ _ _ H1)) as Hw.
    apply (IH s1 Hr1 H).
    destruct (decide (id = x)) as [->|Hne].
    + right. rewrite Hw. apply remove_window_gone, Hr.
    + destruct Hid as [Hid|Hid].
      * apply elem_of_cons in Hid as [?|Hid]; [done|by left].
      * right. rewrite Hw. intros Hin. apply Hid.
        eapply elem_of_sublist; [exact Hin|].
        apply map_sublist, remove_window_sublist.
Qed.

Lemma foldM_delwin_kept (o : Opts) (W : World) (id : nat) (l : list nat)
    (s s' : Screen) :
  id ∉ l -> foldM (delwin o W) l s = Ok s' -> view_at id s' = view_at id s.
Proof.
  revert s. induction l as [|x l IH]; intros s Hid H; simpl in H.
  - by injection H as <-.
  - apply bind_Ok in H as (s1 & H1 & H).
    apply not_elem_of_cons in Hid as [Hne Hid].
    rewrite (IH s1 Hid H). unfold view_at, getwin.
    rewrite (find_lock_view id _ _ (delwin_wids _ _ _ _ _ H1)).
    by rewrite find_remove_window.
Qed.

(** X17: the lock poll of a timer sweep.  A window with a lock file is due
    when its last lock check is [lockcheckint] seconds old and either the
    inactivity timeout is off or the window is inactive and has nothing new
    to read.  For a due window the sweep probes the lock once: when the lock
    is held by someone the window stays, [expectclose] has gone up by exactly
    one and the time of the check is recorded; when the lock file is gone or
    the lock was free the window is removed from the registry and from the
    inactive list; any other error of [lockf] ends the sweep with that
    error. *)
Theorem checkact_lock_poll (o : Opts) (W : World) (ts pi li : Z) (id : nat)
    (s s' : Screen) (w : Window) (path : text) :
  registry_ok s -> getwin id s = Some w -> lockfn w = Some path ->
  inact o = 0 \/ (id ∈ inactive s /\ file_read W id = []) ->
  li <= ts - lockcheck w ->
  checkact o W ts pi (inact o) li s = Ok s' ->
  match lock_probe W path with
  | LockHeld =>
      exists w', getwin id s' = Some w' /\ lockfn w' = Some path
                 /\ expectclose w' = expectclose w + 1
                 /\ lockcheck w' = now W
  | LockError => False
  | _ => (id ∉ map wid (windows s')) /\ id ∉ inactive s'
  end.
Proof.
  intros Hr Hw Hl Hdue Hli H.
  pose proof (steps_registry _ _ _ _ Hr (checkact_steps _ _ _ _ _ _ _ H))
    as Hr'.
  unfold checkact, checkact_scan in H.
  apply bind_Ok in H as ([[s1 rd] wr] & H1 & H).
  apply bind_Ok in H as (s2 & H2 & H).
  assert (view_at id s = Some (id, Some path, expectclose w, lockcheck w))
    as Hv.
  { unfold view_at. rewrite Hw. simpl. unfold lock_view.
    by rewrite (getwin_wid _ _ _ Hw), Hl. }
  assert (id ∈ map wid (windows s)) as Hid.
  { apply getwin_elem_of in Hw as [Hin <-]. apply elem_of_map. eauto. }
  destruct (checkact_scan_self _ _ _ _ _ _ _ _ _ _ _ _ _ _ _ _
              (ok_wids _ Hr) Hid Hr Hv Hdue Hli (not_elem_of_nil _) H1)
    as (Hr1 & Hres).
  assert (map lock_view (windows s') = map lock_view (windows s2)) as Hlast.
  { destruct rd; [by apply redraw_lock_view in H|by injection H as <-]. }
  assert (id ∉ map wid (windows s2) -> (id ∉ map wid (windows s'))
                                       /\ id ∉ inactive s') as Hgone.
  { intros Hg. rewrite <- (map_lock_view_wid _ _ Hlast) in Hg.
    split; [done|]. intros Hin. by apply Hg, Hr'. }
  destruct (lock_probe W path); try done.
  - apply Hgone. eapply foldM_delwin_gone; [exact Hr1|exact H2|by left].
  - destruct Hres as [Hv1 Hnw].
    pose proof (foldM_delwin_kept _ _ _ _ _ _ Hnw H2) as Hv2.
    rewrite <- (view_at_ext id _ _ Hlast), Hv1 in Hv2.
    unfold view_at in Hv2. destruct (getwin id s') as [w'|]; [|discriminate].
    simpl in Hv2. unfold lock_view in Hv2. injection Hv2 as _ ? ? ?.
    by exists w'.
  - apply Hgone. eapply foldM_delwin_gone; [exact Hr1|exact H2|by left].
Qed.

Lemma checkact_lock_poll_witness :
  exists w s',
    registry_ok (scr sample_monitor)
    /\ getwin 1%nat (scr sample_monitor) = Some w
    /\ lockfn w = Some sample_lock
    /\ 1%nat ∈ inactive (scr sample_monitor)
    /\ 15 <= 200 - lockcheck w
    /\ checkact default_opts (released (world_at 200 (24, 80) [])) 200 10
         (inact default_opts) 15 (scr sample_monitor) = Ok s'
    /\ map wid (windows s') = [2%nat]
    /\ (1%nat ∉ map wid (windows s')) /\ 1%nat ∉ inactive s'.
Proof.
  eexists _, _. split; [apply sample_monitor_ok|].
  split; [vm_compute; reflexivity|]. split; [vm_compute; reflexivity|].
  split; [vm_compute; left|]. split; [vm_compute; discriminate|].
  split; [vm_compute; reflexivity|]. split; [vm_compute; reflexivity|].
  eapply (checkact_lock_poll default_opts (released (world_at 200 (24, 80) []))
           200 10 15 1%nat (scr sample_monitor) _ _ sample_lock).
  - apply sample_monitor_ok.
  - vm_compute. reflexivity.
  - vm_compute. reflexivity.
  - right. split; [vm_compute; left|reflexivity].
  - vm_compute. discriminate.
  - vm_compute. reflexivity.
Defined.
(** ** Paths *)

Lemma split_on_nonempty (sep : ascii) (s : text) : split_on sep s <> [].
Proof.
  induction s as [|c s IH]; simpl; [done|].
  destruct (Ascii.eqb c sep); [done|]. by destruct (split_on sep s).
Qed.

Lemma join_cons_char (sep : text) (c : ascii) (w : text) (ws : list text) :
  join sep ((c :: w) :: ws) = c :: join sep (w :: ws).
Proof. by destruct ws. Qed.

Lemma join_split_on (sep : ascii) (s : text) :
  join [sep] (split_on sep s) = s.
Proof.
  induction s as [|c s IH]; simpl; [done|].
  destruct (Ascii.eqb_spec c sep) as [->|_].
  - pose proof (split_on_nonempty sep s) as Hne.
    destruct (split_on sep s) as [|w ws]; [done|]. simpl in *. by rewrite IH.
  - pose proof (split_on_nonempty sep s) as Hne.
    destruct (split_on sep s) as [|w ws]; [done|].
    by rewrite join_cons_char, IH.
Qed.

Lemma slice_from {A} (n : nat) (s : list A) :
  slice (Some (Z.of_nat n)) None s = drop n s.
Proof.
  unfold slice, py_bound.
  assert ((Z.of_nat n <? 0) = false) as -> by (apply Z.ltb_ge; lia).
  destruct (decide (n <= length s)%nat).
  - replace (Z.to_nat (Z.min (Z.of_nat n) (Z.of_nat (length s)))) with n by lia.
    apply take_ge. rewrite length_drop. lia.
  - replace (Z.to_nat (Z.min (Z.of_nat n) (Z.of_nat (length s))))
      with (length s) by lia.
    rewrite drop_all, take_nil, drop_ge by lia. done.
Qed.

Lemma startswith_app (s p : text) :
  startswith s p = true <-> exists r, s = p ++ r.
Proof.
  revert s. induction p as [|c p IH]; intros s; simpl.
  - destruct s; simpl; (split; [intros _; eauto|done]).
  - destruct s as [|d s]; simpl.
    + split; [done|]. by intros [r Hr].
    + rewrite andb_true_iff, IH. split.
      * intros [Hc [r ->]]. apply Ascii.eqb_eq in Hc as ->. eauto.
      * intros [r Hr]. injection Hr as -> ->.
        split; [apply Ascii.eqb_refl|eauto].
Qed.

Lemma startswith_same_length (s p q : text) :
  startswith s p = true -> startswith s q = true -> length p = length q ->
  p = q.
Proof.
  intros [r ->]%startswith_app [r' Hq]%startswith_app Hl.
  apply (f_equal (take (length p))) in Hq.
  rewrite take_app_length in Hq. rewrite Hl, take_app_length in Hq. done.
Qed.

Lemma insert_by_len_in (x y : text) (l : list text) :
  y = x \/ y ∈ l -> y ∈ insert_by_len x l.
Proof.
  induction l as [|z l IH]; simpl.
  - intros [->|H]; [left|by apply elem_of_nil in H].
  - destruct (_ <=? _)%nat.
    + intros [->|H]; [left|by right].
    + intros [->|H].
      * right. apply IH. by left.
      * apply elem_of_cons in H as [->|H]; [left|right; apply IH; by right].
Qed.

Lemma sort_by_len_in (l : list text) (y : text) :
  y ∈ l -> y ∈ sort_by_len l.
Proof.
  unfold sort_by_len. induction l as [|z l IH]; simpl.
  { intros H. by apply elem_of_nil in H. }
  intros H. apply insert_by_len_in.
  apply elem_of_cons in H as [->|H]; [by left|right; by apply IH].
Qed.

(** [sort(key=len, reverse=True)] puts no string before a longer one. *)
Lemma insert_by_len_sorted (x : text) (l : list text) :
  StronglySorted (fun a b => (length b <= length a)%nat) l ->
  StronglySorted (fun a b => (length b <= length a)%nat) (insert_by_len x l).
Proof.
  induction l as [|z l IH]; simpl; intros Hs.
  - repeat constructor.
  - apply StronglySorted_inv in Hs as [Hs Hz].
    destruct (Nat.leb_spec (length z) (length x)).
    + constructor; [by constructor|]. constructor; [lia|].
      eapply Forall_impl; [exact Hz|]. simpl. intros. lia.
    + constructor; [by apply IH|]. apply Forall_forall. intros y Hy.
      apply insert_by_len_elem in Hy as [->|Hy]; [lia|].
      by apply (proj1 (Forall_forall _ _) Hz).
Qed.

Lemma sort_by_len_sorted (l : list text) :
  StronglySorted (fun a b => (length b <= length a)%nat) (sort_by_len l).
Proof.
  unfold sort_by_len. induction l as [|z l IH]; simpl; [constructor|].
  by apply insert_by_len_sorted.
Qed.

Lemma ppath_in_first (pds : list text) (dir : text) :
  match ppath_in pds dir with
  | Some l =>
      exists pd l1 l2,
        l = pd :: split_on "/" (drop (S (length pd)) dir)
        /\ pds = l1 ++ pd :: l2 /\ startswith dir pd = true
        /\ Forall (fun p => startswith dir p = false) l1
  | None => Forall (fun p => startswith dir p = false) pds
  end.
Proof.
  induction pds as [|pd pds IH]; simpl; [done|].
  destruct (startswith dir pd) eqn:Hp; simpl.
  - exists pd, [], pds. split; [|done]. f_equal. f_equal. unfold len.
    replace (Z.of_nat (length pd) + 1) with (Z.of_nat (S (length pd))) by lia.
    apply slice_from.
  - destruct (ppath_in pds dir).
    + destruct IH as (pd' & l1 & l2 & -> & -> & Hs & Hf).
      exists pd', (pd :: l1), l2. repeat split; try done. by constructor.
    + by constructor.
Qed.

(** X18: [ppath] resolves a path against the longest of the temporary
    directories' [portage] directories that is a prefix of it, and splits
    what follows that prefix and one more character at the slashes, so that
    joining the components gives that rest back; it answers [None] exactly
    when no directory is a prefix. *)
Theorem ppath_longest (o : Opts) (dir : text) :
  match ppath o dir with
  | Some l =>
      exists pd parts,
        l = pd :: parts /\ pd ∈ pdirs o /\ startswith dir pd = true
        /\ join (txt "/") parts = drop (S (length pd)) dir
        /\ forall pd', pd' ∈ pdirs o -> startswith dir pd' = true ->
                       (length pd' <= length pd)%nat
  | None => forall pd', pd' ∈ pdirs o -> startswith dir pd' = false
  end.
Proof.
  unfold ppath, pdir. fold (pdirs o).
  pose proof (ppath_in_first (sort_by_len (pdirs o)) dir) as H.
  pose proof (sort_by_len_sorted (pdirs o)) as Hs.
  destruct (ppath_in _ dir) as [l|].
  - destruct H as (pd & l1 & l2 & -> & E & Hp & Hf).
    exists pd, (split_on "/" (drop (S (length pd)) dir)).
    split; [done|]. split.
    { apply sort_by_len_elem. rewrite E. apply elem_of_app. right. left. }
    split; [done|]. split; [apply (join_split_on "/")|].
    intros pd' Hin Hp'. apply sort_by_len_in in Hin. rewrite E in Hin, Hs.
    apply elem_of_app in Hin as [Hin|Hin].
    + apply (proj1 (Forall_forall _ _) Hf) in Hin. congruence.
    + apply StronglySorted_app_1_r, StronglySorted_inv in Hs as [_ Hs].
      apply elem_of_cons in Hin as [->|Hin]; [done|].
      by apply (proj1 (Forall_forall _ _) Hs).
  - intros pd' Hin. apply sort_by_len_in in Hin.
    by apply (proj1 (Forall_forall _ _) H).
Qed.

(** The directory [ppath] picks is determined by the path. *)
Lemma ppath_pick (o : Opts) (dir pd : text) :
  pd ∈ pdirs o -> startswith dir pd = true ->
  (forall pd', pd' ∈ pdirs o -> startswith dir pd' = true ->
               (length pd' <= length pd)%nat) ->
  ppath o dir = Some (pd :: split_on "/" (drop (S (length pd)) dir)).
Proof.
  intros Hin Hp Hmax. unfold ppath, pdir. fold (pdirs o).
  pose proof (ppath_in_first (sort_by_len (pdirs o)) dir) as H.
  pose proof (sort_by_len_sorted (pdirs o)) as Hs.
  destruct (ppath_in _ dir) as [l|].
  - destruct H as (pd0 & l1 & l2 & -> & E & Hp0 & Hf).
    assert (pd0 ∈ pdirs o) as Hin0.
    { apply sort_by_len_elem. rewrite E. apply elem_of_app. right. left. }
    assert (length pd0 = length pd) as Hl.
    { apply Nat.le_antisymm; [by apply Hmax|].
      apply sort_by_len_in in Hin. rewrite E in Hin, Hs.
      apply elem_of_app in Hin as [Hin|Hin].
      - apply (proj1 (Forall_forall _ _) Hf) in Hin. congruence.
      - apply StronglySorted_app_1_r, StronglySorted_inv in Hs as [_ Hs].
        apply elem_of_cons in Hin as [->|Hin]; [done|].
        by apply (proj1 (Forall_forall _ _) Hs). }
    by rewrite (startswith_same_length dir pd0 pd Hp0 Hp Hl).
  - apply sort_by_len_in in Hin.
    apply (proj1 (Forall_forall _ _) H) in Hin. congruence.
Qed.
(** ** Lock files and build logs *)

Lemma split_on_no_sep (sep : ascii) (s : text) :
  sep ∉ s -> split_on sep s = [s].
Proof.
  induction s as [|c s IH]; simpl; [done|]. intros H.
  apply not_elem_of_cons in H as [Hc Hs].
  destruct (Ascii.eqb_spec c sep); [congruence|]. by rewrite IH.
Qed.

Lemma split_on_app (sep : ascii) (a b : text) :
  sep ∉ a -> split_on sep (a ++ sep :: b) = a :: split_on sep b.
Proof.
  induction a as [|c a IH]; simpl; intros H.
  - by rewrite Ascii.eqb_refl.
  - apply not_elem_of_cons in H as [Hc Hs].
    destruct (Ascii.eqb_spec c sep); [congruence|]. by rewrite IH.
Qed.

Lemma drop_prefix_sep (pd rest : text) (c : ascii) :
  drop (S (length pd)) (pd ++ c :: rest) = rest.
Proof. induction pd as [|d pd IH]; simpl; [done|apply IH]. Qed.

Lemma slice_lock_name (pkg : text) :
  slice (Some 1) (Some (-17)) ("."%char :: pkg ++ txt ".portage_lockfile")
  = pkg.
Proof.
  unfold slice, py_bound. simpl length. rewrite length_app. simpl length.
  assert ((1 <? 0) = false) as -> by done.
  assert ((-17 <? 0) = true) as -> by done.
  replace (Z.to_nat (Z.min 1 _)) with 1%nat by lia.
  replace (Z.to_nat (Z.max _ 0 - _)) with (length pkg) by lia.
  simpl. by rewrite drop_0, take_app_length.
Qed.

Lemma lock_not_fetchlog (s : text) :
  text_eqb (s ++ txt ".portage_lockfile") fetchlog = false.
Proof.
  unfold text_eqb. apply bool_decide_eq_false. intros E.
  apply (f_equal (fun l => head (rev l))) in E.
  rewrite rev_app_distr in E. cbv in E. discriminate.
Qed.

Lemma startswith_prefix (p r : text) : startswith (p ++ r) p = true.
Proof. apply startswith_app. eauto. Qed.

Lemma getwin_gone (id : nat) (s : Screen) :
  id ∉ map wid (windows s) -> getwin id s = None.
Proof.
  intros H. destruct (getwin id s) as [w|] eqn:E; [|done].
  apply getwin_elem_of in E as [Hin <-]. exfalso. apply H, elem_of_map. eauto.
Qed.

(** X19: a close-write event on the lock file of a merge.  The event's path
    leads back to the window of the merge in [<pdir>/<category>/<package>];
    while the window expects closes of the monitor's own lock probes the
    event is absorbed and the counter goes down by one, otherwise the window
    is removed. *)
Theorem close_write_on_lock (o : Opts) (W : World) (m m' : Monitor)
    (pd cat pkg f : text) (w : Window) :
  f = pd ++ txt "/" ++ cat ++ txt "/." ++ pkg ++ txt ".portage_lockfile" ->
  registry_ok (scr m) ->
  pd ∈ pdirs o ->
  (forall pd', pd' ∈ pdirs o -> startswith f pd' = true ->
               (length pd' <= length pd)%nat) ->
  "/"%char ∉ cat -> "/"%char ∉ pkg ->
  findwin (pd ++ txt "/" ++ cat ++ txt "/" ++ pkg) (scr m) = Some w ->
  handle o W (IN_CLOSE_WRITE f) m = Ok m' ->
  if expectclose w >? 0
  then map wid (windows (scr m')) = map wid (windows (scr m))
       /\ exists w', getwin (wid w) (scr m') = Some w'
                     /\ expectclose w' = expectclose w - 1
  else wid w ∉ map wid (windows (scr m')).
Proof.
  intros Hf Hr Hpd Hmax Hcat Hpkg Hfind H.
  assert (text_eqb f fetchlog = false) as Hnf.
  { subst f. rewrite !app_assoc. apply lock_not_fetchlog. }
  assert (ppath o f
          = Some [pd; cat; "."%char :: pkg ++ txt ".portage_lockfile"]) as Hp.
  { rewrite (ppath_pick o f pd Hpd); [|subst f; apply startswith_prefix|done].
    subst f. change (txt "/" ++ ?x) with ("/"%char :: x).
    rewrite drop_prefix_sep.
    change (txt "/." ++ ?x) with ("/"%char :: "."%char :: x).
    rewrite split_on_app by done. rewrite split_on_no_sep; [done|].
    intros Hin. apply elem_of_cons in Hin as [?|Hin]; [done|].
    apply elem_of_app in Hin as [?|Hin]; [done|].
    vm_compute in Hin. repeat (apply elem_of_cons in Hin as [?|Hin]; [done|]).
    by apply elem_of_nil in Hin. }
  unfold handle, process_IN_CLOSE_WRITE in H. rewrite Hnf, Hp in H.
  rewrite slice_lock_name in H. simpl andb in H. cbv iota in H.
  unfold bind at 1 in H. rewrite Hfind in H.
  destruct (expectclose w >? 0) eqn:He.
  - injection H as <-. simpl. split.
    + by apply modify_wids.
    + pose proof (findwin_elem_of _ _ _ Hfind) as [Hin _].
      assert (getwin (wid w) (scr m) = Some w) as Hw.
      { destruct (find_wid_elem (wid w) (windows (scr m))) as [v Hv].
        - apply elem_of_map. eauto.
        - unfold getwin. rewrite Hv. f_equal. symmetry.
          apply (getwin_unique (wid w) (scr m) v w); [apply Hr|done..]. }
      eexists. split; [by apply view_at_modify_self|done].
  - apply bind_Ok in H as (s1 & H1 & H). injection H as <-. simpl.
    rewrite (map_lock_view_wid _ _ (delwin_wids _ _ _ _ _ H1)).
    apply remove_window_gone, Hr.
Qed.

Lemma close_write_on_lock_witness :
  exists w m',
    sample_lock = txt "/var/tmp/portage" ++ txt "/" ++ txt "cat" ++ txt "/."
                  ++ txt "pkg-1" ++ txt ".portage_lockfile"
    /\ registry_ok (scr sample_monitor)
    /\ txt "/var/tmp/portage" ∈ pdirs default_opts
    /\ ("/"%char ∉ txt "cat") /\ ("/"%char ∉ txt "pkg-1")
    /\ findwin (txt "/var/tmp/portage" ++ txt "/" ++ txt "cat" ++ txt "/"
                ++ txt "pkg-1") (scr sample_monitor) = Some w
    /\ handle default_opts (world_at 101 (24, 80) [])
         (IN_CLOSE_WRITE sample_lock) sample_monitor = Ok m'
    /\ expectclose w = 1
    /\ if expectclose w >? 0
       then map wid (windows (scr m')) = map wid (windows (scr sample_monitor))
            /\ exists w', getwin (wid w) (scr m') = Some w'
                          /\ expectclose w' = expectclose w - 1
       else wid w ∉ map wid (windows (scr m')).
Proof.
  eexists _, _. split; [reflexivity|]. split; [apply sample_monitor_ok|].
  split; [left|].
  split; [apply (bool_decide_unpack _); vm_compute; exact I|].
  split; [apply (bool_decide_unpack _); vm_compute; exact I|].
  split; [vm_compute; reflexivity|]. split; [vm_compute; reflexivity|].
  split; [reflexivity|].
  apply (close_write_on_lock default_opts (world_at 101 (24, 80) [])
           sample_monitor _ (txt "/var/tmp/portage") (txt "cat")
           (txt "pkg-1") sample_lock).
  - reflexivity.
  - apply sample_monitor_ok.
  - left.
  - intros pd' Hin _. apply list_elem_of_singleton in Hin. by subst.
  - apply (bool_decide_unpack _). vm_compute. exact I.
  - apply (bool_decide_unpack _). vm_compute. exact I.
  - vm_compute. reflexivity.
  - vm_compute. reflexivity.
Defined.

(** X20: a new build log.  When [temp/build.log] is created under
    [<pdir>/<category>/<package>] and that merge has no window yet, the
    handler opens the log and registers one window after the existing ones:
    its source is [<pdir>/<category>/<package>], its lock file is
    [<pdir>/<category>/.<package>.portage_lockfile], it expects no close and
    its backlog is empty.  A log that cannot be opened changes nothing.
    Either way the time of the event becomes the time of the last lock
    scan. *)
Theorem create_adds_window (o : Opts) (W : World) (m m' : Monitor)
    (pd cat pkg path : text) :
  path = pd ++ txt "/" ++ cat ++ txt "/" ++ pkg ++ txt "/temp/build.log" ->
  pd ∈ pdirs o ->
  (forall pd', pd' ∈ pdirs o -> startswith path pd' = true ->
               (length pd' <= length pd)%nat) ->
  "/"%char ∉ cat -> "/"%char ∉ pkg ->
  findwin (pd ++ txt "/" ++ cat ++ txt "/" ++ pkg) (scr m) = None ->
  handle o W (IN_CREATE false path) m = Ok m' ->
  lockfindts m' = now W
  /\ if can_open W path
     then exists id,
            (id ∉ map wid (windows (scr m)))
            /\ map core (windows (scr m'))
               = map core (windows (scr m))
                 ++ [((id, pd ++ txt "/" ++ cat ++ txt "/" ++ pkg,
                       Some (pd ++ txt "/" ++ cat ++ txt "/." ++ pkg
                             ++ txt ".portage_lockfile"), 0), [], [])]
     else scr m' = scr m.
Proof.
  intros Hf Hpd Hmax Hcat Hpkg Hfind H.
  assert (ppath o path
          = Some [pd; cat; pkg; txt "temp"; txt "build.log"]) as Hp.
  { rewrite (ppath_pick o path pd Hpd);
      [|subst path; apply startswith_prefix|done].
    subst path. change (txt "/" ++ ?x) with ("/"%char :: x).
    rewrite drop_prefix_sep.
    change (txt "/" ++ ?x) with ("/"%char :: x).
    rewrite split_on_app by done.
    change (txt "/temp/build.log") with ("/"%char :: txt "temp/build.log").
    rewrite split_on_app by done. done. }
  unfold handle, process_IN_CREATE in H. rewrite Hp in H.
  rewrite !text_eqb_refl in H. simpl andb in H. cbv iota in H.
  apply bind_Ok in H as ([s1 r] & Hw & H). injection H as <-. simpl.
  split; [done|].
  unfold window_add in Hw.
  change (join (txt "/")
            (slice (Some 0) (Some 3) [pd; cat; pkg; txt "temp"; txt "build.log"]))
    with (pd ++ txt "/" ++ cat ++ txt "/" ++ pkg) in Hw.
  rewrite Hfind in Hw.
  change (join (txt "/") [pd; cat; pkg; txt "temp"; txt "build.log"])
    with (pd ++ txt "/" ++ cat ++ txt "/" ++ pkg ++ txt "/temp/build.log")
    in Hw.
  rewrite <- Hf in Hw. unfold FileTailer in Hw.
  destruct (can_open W path).
  - change (slice (Some 0) (Some 3) [pd; cat; pkg; txt "temp"; txt "build.log"])
      with [pd; cat; pkg] in Hw.
    apply bind_Ok in Hw as (s2 & Ha & Hw). injection Hw as <- _.
    unfold addwin in Ha. apply redraw_frame in Ha as (Hc & _ & _).
    exists (fresh_id (scr m)). split; [apply fresh_id_fresh|].
    rewrite Hc. simpl. by rewrite map_app.
  - by injection Hw as <- _.
Qed.

Lemma create_adds_window_witness :
  exists m',
    sample_log = txt "/var/tmp/portage" ++ txt "/" ++ txt "cat" ++ txt "/"
                 ++ txt "pkg-1" ++ txt "/temp/build.log"
    /\ txt "/var/tmp/portage" ∈ pdirs default_opts
    /\ ("/"%char ∉ txt "cat") /\ ("/"%char ∉ txt "pkg-1")
    /\ findwin (txt "/var/tmp/portage" ++ txt "/" ++ txt "cat" ++ txt "/"
                ++ txt "pkg-1") (scr fetch_monitor) = None
    /\ handle default_opts (world_at 1 (24, 80) [])
         (IN_CREATE false sample_log) fetch_monitor = Ok m'
    /\ map (fun w => (basedir w, lockfn w)) (windows (scr m'))
       = [(txt "_fetch", None);
          (txt "/var/tmp/portage/cat/pkg-1", Some sample_lock)]
    /\ lockfindts m' = now (world_at 1 (24, 80) [])
    /\ if can_open (world_at 1 (24, 80) []) sample_log
       then exists id,
              (id ∉ map wid (windows (scr fetch_monitor)))
              /\ map core (windows (scr m'))
                 = map core (windows (scr fetch_monitor))
                   ++ [((id, txt "/var/tmp/portage" ++ txt "/" ++ txt "cat"
                             ++ txt "/" ++ txt "pkg-1",
                         Some (txt "/var/tmp/portage" ++ txt "/" ++ txt "cat"
                               ++ txt "/." ++ txt "pkg-1"
                               ++ txt ".portage_lockfile"), 0), [], [])]
       else scr m' = scr fetch_monitor.
Proof.
  eexists. split; [reflexivity|]. split; [left|].
  split; [apply (bool_decide_unpack _); vm_compute; exact I|].
  split; [apply (bool_decide_unpack _); vm_compute; exact I|].
  split; [vm_compute; reflexivity|]. split; [vm_compute; reflexivity|].
  split; [vm_compute; reflexivity|].
  apply (create_adds_window default_opts (world_at 1 (24, 80) [])
           fetch_monitor _ (txt "/var/tmp/portage") (txt "cat")
           (txt "pkg-1") sample_log).
  - reflexivity.
  - left.
  - intros pd' Hin _. apply list_elem_of_singleton in Hin. by subst.
  - apply (bool_decide_unpack _). vm_compute. exact I.
  - apply (bool_decide_unpack _). vm_compute. exact I.
  - vm_compute. reflexivity.
  - vm_compute. reflexivity.
Defined.
(** ** Modified logs *)

Lemma find_core_eq (id : nat) (ws ws' : list Window) :
  map core ws' = map core ws ->
  core <$> find (fun w => Nat.eqb (wid w) id) ws'
  = core <$> find (fun w => Nat.eqb (wid w) id) ws.
Proof.
  revert ws'. induction ws as [|v ws IH]; intros [|v' ws'] H;
    simpl in *; try discriminate; [done|].
  assert (core v' = core v) as Hc by congruence.
  assert (map core ws' = map core ws) as Hm by congruence.
  rewrite (wid_of_core _ _ Hc).
  destruct (Nat.eqb (wid v) id); [simpl; by f_equal|by apply IH].
Qed.

Lemma pull_append_stream (o : Opts) (W : World) (id : nat) (s s' : Screen)
    (w : Window) :
  getwin id s = Some w -> pull_append o W id s = Ok s' ->
  (forall id', id' <> id -> core <$> getwin id' s' = core <$> getwin id' s)
  /\ exists w', getwin id s' = Some w' /\ spine w' = spine w
                /\ stream w' = stream w ++ file_read W id.
Proof.
  intros Hw H. unfold pull_append, pull in H.
  assert (map core (windows (modify id (set_pullts (now W)) s))
          = map core (windows s)) as Hm by by apply modify_core.
  destruct (getwin_touch id id (set_pullts (now W)) s w) as (w1 & Hw1 & Hc1);
    [done..|].
  destruct (_ =? 0) eqn:Hd.
  - injection H as <-. split.
    + intros id' _. by apply find_core_eq.
    + exists w1. split; [done|]. split; [by apply core_spine|].
      assert (file_read W id = []) as ->.
      { apply Z.eqb_eq in Hd. destruct (file_read W id); [done|].
        simpl in Hd. lia. }
      rewrite app_nil_r. unfold core in Hc1. congruence.
  - destruct (append_inv _ _ _ _ _ _ _ _ Hw1 H)
      as (s2 & w2 & w' & k & Hs2 & Hw2 & Hc2 & Ha & ->).
    assert (map core (windows s2) = map core (windows s)) as H2.
    { rewrite <- Hm. destruct (is_inactive id _).
      - apply redraw_frame in Hs2 as (Hc & _). rewrite Hc.
        by apply (modify_core id (set_activity (now W))
                    (modify id (set_pullts (now W)) s)).
      - subst s2. by apply modify_core. }
    apply append_window_data in Ha as (Hsp & _ & Hst).
    assert (wid w' = id) as Hid.
    { apply getwin_wid in Hw2. unfold spine in Hsp. congruence. }
    split.
    + intros id' Hne. rewrite getwin_commit.
      transitivity (core <$> getwin id' s2); [|by apply find_core_eq].
      destruct (getwin id' s2) as [v|] eqn:Hv; [|done]. simpl.
      apply getwin_wid in Hv.
      destruct (Nat.eqb_spec (wid v) (wid w')); [congruence|done].
    + exists w'. split.
      * rewrite getwin_commit, Hw2. simpl.
        apply getwin_wid in Hw2. by rewrite Hw2, Hid, Nat.eqb_refl.
      * split.
        -- rewrite Hsp. apply core_spine. congruence.
        -- rewrite Hst. f_equal. unfold core in Hc1, Hc2. congruence.
Qed.

(** X22: a modify event is routed by its path.  When the path is the fetch
    log or lies under a directory of [pdir], and the source it belongs to has
    a window, what the tailer of that window reads is appended to that
    window's text, and no other window's source, lock, counter or text
    changes.  When the source has no window (and the path is not the fetch
    log) or the path lies outside [pdir], the event changes nothing. *)
Theorem modify_routes_data (o : Opts) (W : World) (pathname : text)
    (m m' : Monitor) :
  registry_ok (scr m) ->
  process_IN_MODIFY o W pathname m = Ok m' ->
  match source_of o pathname with
  | Some bd =>
      match findwin bd (scr m) with
      | Some w =>
          (forall id', id' <> wid w ->
             core <$> getwin id' (scr m') = core <$> getwin id' (scr m))
          /\ exists w', getwin (wid w) (scr m') = Some w'
                        /\ spine w' = spine w
                        /\ stream w' = stream w ++ file_read W (wid w)
      | None => pathname = fetchlog \/ m' = m
      end
  | None => m' = m
  end.
Proof.
  intros Hr H. unfold process_IN_MODIFY in H. unfold source_of.
  destruct (text_eqb pathname fetchlog) eqn:Hp.
  - destruct (findwin (txt "_fetch") (scr m)) as [w|] eqn:Hf.
    2: { left. unfold text_eqb in Hp. by apply bool_decide_eq_true in Hp. }
    simpl in H. apply bind_Ok in H as (s1 & H1 & H). injection H as <-. simpl.
    destruct (findwin_elem_of _ _ _ Hf) as [Hin _].
    assert (getwin (wid w) (scr m) = Some w) as Hw.
    { destruct (find_wid_elem (wid w) (windows (scr m))) as [v Hv].
      - apply elem_of_map. eauto.
      - unfold getwin. rewrite Hv. f_equal. symmetry.
        apply (getwin_unique (wid w) (scr m) v w); [apply Hr|done..]. }
    by apply (pull_append_stream o W (wid w) (scr m) s1 w).
  - destruct (ppath o pathname) as [dir|]; simpl.
    + destruct (findwin _ (scr m)) as [w|] eqn:Hf.
      * simpl in H. apply bind_Ok in H as (s1 & H1 & H). injection H as <-.
        simpl. destruct (findwin_elem_of _ _ _ Hf) as [Hin _].
        assert (getwin (wid w) (scr m) = Some w) as Hw.
        { destruct (find_wid_elem (wid w) (windows (scr m))) as [v Hv].
          - apply elem_of_map. eauto.
          - unfold getwin. rewrite Hv. f_equal. symmetry.
            apply (getwin_unique (wid w) (scr m) v w); [apply Hr|done..]. }
        by apply (pull_append_stream o W (wid w) (scr m) s1 w).
      * simpl in H. injection H as <-. right. by destruct m.
    + simpl in H. injection H as <-. by destruct m.
Qed.

Lemma modify_routes_data_witness :
  exists w m',
    registry_ok (scr sample_monitor)
    /\ process_IN_MODIFY default_opts (world_at 101 (24, 80) (txt " more"))
         sample_log sample_monitor = Ok m'
    /\ source_of default_opts sample_log
       = Some (txt "/var/tmp/portage/cat/pkg-1")
    /\ findwin (txt "/var/tmp/portage/cat/pkg-1") (scr sample_monitor) = Some w
    /\ map (fun w => (basedir w, stream w)) (windows (scr m'))
       = [(txt "/var/tmp/portage/cat/pkg-1", txt "compiling more");
          (txt "_fetch", txt "fetching")]
    /\ match source_of default_opts sample_log with
       | Some bd =>
           match findwin bd (scr sample_monitor) with
           | Some w =>
               (forall id', id' <> wid w ->
                  core <$> getwin id' (scr m')
                  = core <$> getwin id' (scr sample_monitor))
               /\ exists w', getwin (wid w) (scr m') = Some w'
                             /\ spine w' = spine w
                             /\ stream w' = stream w
                                  ++ file_read
                                       (world_at 101 (24, 80) (txt " more"))
                                       (wid w)
           | None => sample_log = fetchlog \/ m' = sample_monitor
           end
       | None => m' = sample_monitor
       end.
Proof.
  eexists _, _. split; [apply sample_monitor_ok|].
  split; [vm_compute; reflexivity|]. split; [vm_compute; reflexivity|].
  split; [vm_compute; reflexivity|]. split; [vm_compute; reflexivity|].
  apply (modify_routes_data default_opts
           (world_at 101 (24, 80) (txt " more")) sample_log sample_monitor).
  - apply sample_monitor_ok.
  - vm_compute. reflexivity.
Defined.
(** ** The inactivity timeout *)

Lemma getwin_modify_other (id x : nat) (f : Window -> Window) (s : Screen) :
  x <> id -> (forall w, wid (f w) = wid w) ->
  getwin id (modify x f s) = getwin id s.
Proof.
  intros Hne Hf. rewrite getwin_modify by done.
  destruct (getwin id s) as [w|] eqn:Hw; [|done]. simpl.
  apply getwin_wid in Hw.
  destruct (Nat.eqb_spec (wid w) x); [congruence|done].
Qed.

Lemma checkact_pull_nodata (o : Opts) (W : World) (ts pi : Z) (x : nat)
    (s s' : Screen) :
  file_read W x = [] -> checkact_pull o W ts pi x s = Ok s' ->
  s' = s \/ s' = modify x (set_pullts (now W)) s.
Proof.
  intros Hn. unfold checkact_pull, pull. rewrite Hn. simpl.
  destruct (getwin x s); [|intros H; injection H as <-; by left].
  destruct (_ && _); intros H; injection H as <-; [by right|by left].
Qed.

Lemma checkact_window_nodata (o : Opts) (W : World) (ts pi li : Z)
    (x id : nat) (s s' : Screen) (rd rd' : bool) (wr wr' : list nat) :
  file_read W x = [] ->
  checkact_window o W ts pi (inact o) li x (s, rd, wr) = Ok (s', rd', wr') ->
  (id ∈ inactive s -> id ∈ inactive s')
  /\ (rd = true -> rd' = true)
  /\ (x <> id -> getwin id s' = getwin id s
                 /\ (id ∈ inactive s' -> id ∈ inactive s)
                 /\ (id ∈ wr' <-> id ∈ wr))
  /\ (x = id -> forall w, getwin id s = Some w -> id ∉ inactive s ->
        inact o <> 0 -> inact o <= ts - activity w ->
        id ∈ inactive s' /\ rd' = true).
Proof.
  intros Hn H. unfold checkact_window in H.
  apply bind_Ok in H as (s1 & H1 & H).
  destruct (checkact_idle ts (inact o) x (s1, rd)) as [s2 rd2] eqn:H2.
  apply bind_Ok in H as ([s3 wr3] & H3 & H). injection H as <- <- <-.
  assert (inactive s1 = inactive s
          /\ (forall y, y <> x -> getwin y s1 = getwin y s)
          /\ forall w, getwin x s = Some w ->
               exists w1, getwin x s1 = Some w1 /\ activity w1 = activity w)
    as (Hi1 & Hg1 & Ha1).
  { destruct (checkact_pull_nodata _ _ _ _ _ _ _ Hn H1) as [->| ->].
    - split; [done|]. split; [done|]. eauto.
    - split; [done|]. split.
      + intros y Hy. by apply getwin_modify_other.
      + intros w Hw. eexists. split; [by apply view_at_modify_self|done]. }
  assert (windows s2 = windows s1
          /\ (forall y, y ∈ inactive s1 -> y ∈ inactive s2)
          /\ (rd = true -> rd2 = true)
          /\ (forall y, y <> x -> y ∈ inactive s2 -> y ∈ inactive s1)
          /\ forall w1, getwin x s1 = Some w1 -> x ∉ inactive s1 ->
               inact o <> 0 -> inact o <= ts - activity w1 ->
               x ∈ inactive s2 /\ rd2 = true)
    as (Hw2 & Hi2 & Hrd2 & Hi2' & Hm2).
  { unfold checkact_idle in H2. destruct (getwin x s1) as [w1|] eqn:Hw1.
    - destruct (negb (inact o =? 0) && negb (is_inactive x s1)
                && (ts - activity w1 >=? inact o)) eqn:Hc.
      + injection H2 as <- <-. simpl. split; [done|].
        split; [intros y Hy; apply elem_of_app; by left|]. split; [done|].
        split.
        * intros y Hy Hin. apply elem_of_app in Hin as [?|Hin]; [done|].
          apply list_elem_of_singleton in Hin. congruence.
        * intros _ _ _ _ _. split; [|done]. apply elem_of_app. right. left.
      + injection H2 as <- <-.
        split; [done|]. split; [done|]. split; [done|]. split; [done|].
        intros v Hv Hni Hz Hle. injection Hv as <-. exfalso.
        apply andb_false_iff in Hc as [Hc|Hc]; [|lia].
        apply andb_false_iff in Hc as [Hc|Hc].
        * by apply negb_false_iff, Z.eqb_eq in Hc.
        * apply negb_false_iff in Hc. unfold is_inactive in Hc.
          by apply bool_decide_eq_true in Hc.
    - injection H2 as <- <-.
      split; [done|]. split; [done|]. split; [done|]. split; done. }
  assert (inactive s3 = inactive s2
          /\ (forall y, y <> x -> getwin y s3 = getwin y s2)
          /\ (forall y, y <> x -> y ∈ wr3 <-> y ∈ wr))
    as (Hi3 & Hg3 & Hwr3).
  { unfold checkact_lock in H3.
    destruct (getwin x s2); [|by injection H3 as <- <-].
    destruct (lockfn w); [|by injection H3 as <- <-].
    destruct (_ && _); [|by injection H3 as <- <-].
    apply bind_Ok in H3 as (held & _ & H3).
    destruct (negb held); injection H3; intros <- <-.
    - split; [done|]. split.
      + intros y Hy. by apply getwin_modify_other.
      + intros y Hy. rewrite elem_of_app, list_elem_of_singleton.
        split; [intros [?|?]; [done|congruence]|by left].
    - split; [done|]. split; [|done].
      intros y Hy. by rewrite !getwin_modify_other. }
  split; [|split; [|split]].
  - intros Hin. rewrite Hi3. apply Hi2. by rewrite Hi1.
  - done.
  - intros Hne. split; [|split].
    + rewrite Hg3 by done. unfold getwin. rewrite Hw2. by apply Hg1.
    + rewrite Hi3. intros Hin. rewrite <- Hi1. by apply Hi2'.
    + by apply Hwr3.
  - intros -> w Hw Hni Hz Hle.
    destruct (Ha1 w Hw) as (w1 & Hw1 & Hact).
    rewrite Hi3. apply (Hm2 w1 Hw1); [by rewrite Hi1|done|by rewrite Hact].
Qed.

Lemma checkact_scan_nodata (o : Opts) (W : World) (ts pi li : Z)
    (id : nat) (l : list nat) (s s' : Screen) (rd rd' : bool)
    (wr wr' : list nat) :
  (forall x, file_read W x = []) ->
  foldM (checkact_window o W ts pi (inact o) li) l (s, rd, wr)
  = Ok (s', rd', wr') ->
  (id ∈ inactive s -> id ∈ inactive s')
  /\ (rd = true -> rd' = true)
  /\ (id ∉ l -> getwin id s' = getwin id s
                /\ (id ∈ inactive s' -> id ∈ inactive s)).
Proof.
  intros Hn. revert s rd wr. induction l as [|x l IH]; intros s rd wr H;
    simpl in H.
  - by injection H as <- <- <-.
  - apply bind_Ok in H as ([[s1 rd1] wr1] & H1 & H).
    destruct (checkact_window_nodata _ _ _ _ _ _ id _ _ _ _ _ _ (Hn x) H1)
      as (Hi1 & Hr1 & Ho1 & _).
    destruct (IH _ _ _ H) as (Hi & Hr & Ho).
    split; [auto|]. split; [auto|].
    intros Hid. apply not_elem_of_cons in Hid as [Hne Hid].
    destruct (Ho1 ltac:(congruence)) as (Hg1 & Hb1 & _).
    destruct (Ho Hid) as [Hg Hb]. split; [congruence|auto].
Qed.

Lemma checkact_scan_idle (o : Opts) (W : World) (ts pi li : Z)
    (id : nat) (l : list nat) (s s' : Screen) (rd rd' : bool)
    (wr wr' : list nat) (w : Window) :
  (forall x, file_read W x = []) -> NoDup l -> id ∈ l ->
  getwin id s = Some w -> id ∉ inactive s ->
  inact o <> 0 -> inact o <= ts - activity w ->
  foldM (checkact_window o W ts pi (inact o) li) l (s, rd, wr)
  = Ok (s', rd', wr') ->
  id ∈ inactive s' /\ rd' = true.
Proof.
  intros Hn. revert s rd wr. induction l as [|x l IH];
    intros s rd wr Hnd Hid Hw Hni Hz Hle H; simpl in H.
  - by apply elem_of_nil in Hid.
  - apply bind_Ok in H as ([[s1 rd1] wr1] & H1 & H).
    apply NoDup_cons in Hnd as [Hx Hnd].
    destruct (checkact_window_nodata _ _ _ _ _ _ id _ _ _ _ _ _ (Hn x) H1)
      as (_ & _ & Ho1 & Hs1).
    destruct (decide (x = id)) as [->|Hne].
    + destruct (Hs1 eq_refl w Hw Hni Hz Hle) as [Hin ->].
      destruct (checkact_scan_nodata _ _ _ _ _ id _ _ _ _ _ _ _ Hn H)
        as (Hi & Hr & _).
      auto.
    + destruct (Ho1 Hne) as (Hg1 & Hb1 & _).
      apply elem_of_cons in Hid as [->|Hid]; [done|].
      apply (IH s1 rd1 wr1); try done; [congruence|auto].
Qed.

Lemma delwin_inactive (o : Opts) (W : World) (id x : nat) (s s' : Screen) :
  x <> id -> delwin o W x s = Ok s' -> id ∈ inactive s -> id ∈ inactive s'.
Proof.
  intros Hne H Hin. unfold delwin in H.
  destruct (getwin x s); [|discriminate].
  apply redraw_frame in H as (_ & -> & _).
  destruct (is_inactive _ _); simpl; [|done].
  apply list_remove_other; [done|congruence].
Qed.

Lemma foldM_delwin_inactive (o : Opts) (W : World) (id : nat) (l : list nat)
    (s s' : Screen) :
  id ∉ l -> foldM (delwin o W) l s = Ok s' ->
  id ∈ inactive s -> id ∈ inactive s'.
Proof.
  revert s. induction l as [|x l IH]; intros s Hid H Hin; simpl in H.
  - by injection H as <-.
  - apply bind_Ok in H as (s1 & H1 & H).
    apply not_elem_of_cons in Hid as [Hne Hid].
    apply (IH s1 Hid H). eapply delwin_inactive; [|exact H1|exact Hin].
    congruence.
Qed.

Lemma tile_hides (o : Opts) (W : World) (width bl : Z) (inact : list nat)
    (fpd : text) (ws ws' : list Window) (t : Tiling)
    (k k' : gmap (Z * Z) Z * list Bell) (w' : Window) :
  tile o W width bl inact fpd ws t k = Ok (ws', k') ->
  w' ∈ ws' -> wid w' ∈ inact -> win w' = None /\ nwin w' = None.
Proof.
  revert ws' t k k'. induction ws as [|v ws IH]; intros ws' t k k' H Hin Hi;
    simpl in H.
  - injection H as <- <-. by apply elem_of_nil in Hin.
  - destruct (negb (bool_decide (wid v ∈ inact)) && _) eqn:Hc.
    + apply bind_Ok in H as ([w2 k2] & Ha & H).
      apply bind_Ok in H as ([rest' k3] & Ht & H). injection H as <- <-.
      apply elem_of_cons in Hin as [->|Hin]; [|by eapply IH].
      exfalso. apply andb_true_iff in Hc as [Hc _].
      apply negb_true_iff, bool_decide_eq_false in Hc. apply Hc.
      apply append_window_wid in Ha. simpl in Hi, Ha. congruence.
    + apply bind_Ok in H as ([rest' k3] & Ht & H). injection H as <- <-.
      apply elem_of_cons in Hin as [->|Hin]; [done|by eapply IH].
Qed.

Lemma redraw_hides (o : Opts) (W : World) (s s' : Screen) (w' : Window) :
  redraw o W s = Ok s' -> w' ∈ windows s' -> wid w' ∈ inactive s' ->
  win w' = None /\ nwin w' = None.
Proof.
  unfold redraw. destruct (getmaxyx W) as [height width].
  destruct (_ >? 0).
  - intros H. apply bind_Ok in H as ([[rows shown] extra] & _ & H).
    apply bind_Ok in H as ([ws k] & Ht & H). injection H as <-. simpl.
    by eapply tile_hides.
  - intros H. injection H as <-. simpl. intros Hin _.
    apply elem_of_map in Hin as (v & -> & _). done.
Qed.

(** X23: the inactivity timeout.  In a timer sweep in which no log has
    anything new, a window that was active and whose last activity is
    [acttimeout] seconds old or more is put on the inactive list, and the
    sweep ends with a redraw that takes it off the screen (unless the lock
    poll of the same sweep removes the window altogether). *)
Theorem checkact_marks_idle (o : Opts) (W : World) (ts pi li : Z) (id : nat)
    (s s' : Screen) (w : Window) :
  registry_ok s -> (forall x, file_read W x = []) ->
  getwin id s = Some w -> id ∉ inactive s ->
  inact o <> 0 -> inact o <= ts - activity w ->
  checkact o W ts pi (inact o) li s = Ok s' ->
  (id ∉ map wid (windows s'))
  \/ (id ∈ inactive s'
      /\ exists w', getwin id s' = Some w' /\ win w' = None
                    /\ nwin w' = None).
Proof.
  intros Hr Hn Hw Hni Hz Hle H.
  pose proof (steps_registry _ _ _ _ Hr (checkact_steps _ _ _ _ _ _ _ H))
    as Hr'.
  unfold checkact, checkact_scan in H.
  apply bind_Ok in H as ([[s1 rd] wr] & H1 & H).
  apply bind_Ok in H as (s2 & H2 & H).
  assert (registry_ok s1) as Hr1.
  { eapply steps_registry; [exact Hr|].
    apply (foldM_rel (fun a b => steps o W a.1.1 b.1.1)) in H1;
      [exact H1|intros; apply steps_refl|intros; by eapply steps_trans|
       intros ? [[? ?] ?] [[? ?] ?] ? ?; by eapply checkact_window_steps]. }
  assert (id ∈ map wid (windows s)) as Hid.
  { apply getwin_elem_of in Hw as [Hin <-]. apply elem_of_map. eauto. }
  destruct (checkact_scan_idle _ _ _ _ _ _ _ _ _ _ _ _ _ _ Hn
              (ok_wids _ Hr) Hid Hw Hni Hz Hle H1) as [Hin1 ->].
  destruct (decide (id ∈ wr)) as [Hwr|Hwr].
  - left. rewrite (map_core_wid _ _ (proj1 (redraw_frame _ _ _ _ H))).
    eapply foldM_delwin_gone; [exact Hr1|exact H2|by left].
  - pose proof (foldM_delwin_inactive _ _ _ _ _ _ Hwr H2 Hin1) as Hin2.
    destruct (redraw_frame _ _ _ _ H) as (_ & Hi & _).
    assert (id ∈ inactive s') as Hin' by by rewrite Hi.
    right. split; [done|].
    destruct (find_wid_elem id (windows s')) as [w' Hw'].
    { by apply Hr'. }
    exists w'. split; [done|].
    apply getwin_elem_of in Hw' as [Hel Hwid].
    apply (redraw_hides _ _ _ _ _ H Hel). by rewrite Hwid.
Qed.

Lemma checkact_marks_idle_witness :
  exists w s',
    registry_ok (scr patient_monitor)
    /\ getwin 1%nat (scr patient_monitor) = Some w
    /\ (1%nat ∉ inactive (scr patient_monitor))
    /\ inact default_opts <> 0
    /\ inact default_opts <= 200 - activity w
    /\ checkact default_opts (world_at 200 (24, 80) []) 200 10
         (inact default_opts) 15 (scr patient_monitor) = Ok s'
    /\ inactive s' = [1%nat; 2%nat]
    /\ ((1%nat ∉ map wid (windows s'))
        \/ (1%nat ∈ inactive s'
            /\ exists w', getwin 1%nat s' = Some w' /\ win w' = None
                          /\ nwin w' = None)).
Proof.
  assert (registry_ok (scr patient_monitor)) as Hr.
  { apply (run_registry_ok patient_opts (world_at 0 (24, 80) []) sample_trace).
    vm_compute. reflexivity. }
  eexists _, _. split; [exact Hr|].
  split; [vm_compute; reflexivity|].
  split; [apply (bool_decide_unpack _); vm_compute; exact I|].
  split; [vm_compute; discriminate|]. split; [vm_compute; discriminate|].
  split; [vm_compute; reflexivity|]. split; [vm_compute; reflexivity|].
  eapply (checkact_marks_idle default_opts (world_at 200 (24, 80) []) 200 10
            15 1%nat (scr patient_monitor)).
  - exact Hr.
  - reflexivity.
  - vm_compute. reflexivity.
  - apply (bool_decide_unpack _). vm_compute. exact I.
  - vm_compute. discriminate.
  - vm_compute. discriminate.
  - vm_compute. reflexivity.
Defined.
(** ** The watched directories *)

Lemma pfilter_ppath (o : Opts) (pd rest : text) :
  pd ∈ pdirs o ->
  (forall pd', pd' ∈ pdirs o -> (length pd' <= length pd)%nat) ->
  ppath o (pd ++ "/"%char :: rest) = Some (pd :: split_on "/" rest).
Proof.
  intros Hpd Hmax.
  rewrite (ppath_pick o _ pd Hpd); [|apply startswith_prefix|auto].
  by rewrite drop_prefix_sep.
Qed.

(** X24: which directories the recursive watch takes in.  Below the longest
    directory of [pdir] the watch follows [<category>], [<category>/<package>]
    and [<category>/<package>/temp], where the build log appears; it leaves
    out every other directory of a package and everything deeper, unless
    the directory is itself a [--tempdir]. *)
Theorem pfilter_depth (o : Opts) (pd cat pkg d rest : text) :
  pd ∈ pdirs o ->
  (forall pd', pd' ∈ pdirs o -> (length pd' <= length pd)%nat) ->
  "/"%char ∉ cat -> "/"%char ∉ pkg -> "/"%char ∉ d ->
  pfilter o (pd ++ txt "/" ++ cat) = false
  /\ pfilter o (pd ++ txt "/" ++ cat ++ txt "/" ++ pkg) = false
  /\ pfilter o (pd ++ txt "/" ++ cat ++ txt "/" ++ pkg ++ txt "/temp") = false
  /\ (d <> txt "temp" ->
      pd ++ txt "/" ++ cat ++ txt "/" ++ pkg ++ txt "/" ++ d ∉ tempdir o ->
      pfilter o (pd ++ txt "/" ++ cat ++ txt "/" ++ pkg ++ txt "/" ++ d)
      = true)
  /\ (pd ++ txt "/" ++ cat ++ txt "/" ++ pkg ++ txt "/" ++ d ++ txt "/"
         ++ rest ∉ tempdir o ->
      pfilter o (pd ++ txt "/" ++ cat ++ txt "/" ++ pkg ++ txt "/" ++ d
                    ++ txt "/" ++ rest) = true).
Proof.
  intros Hpd Hmax Hcat Hpkg Hd. unfold pfilter.
  change (txt "/temp") with ("/"%char :: txt "temp").
  repeat change (txt "/" ++ ?x) with ("/"%char :: x).
  rewrite !pfilter_ppath by done.
  rewrite !split_on_app by done.
  rewrite !(split_on_no_sep "/" cat), !(split_on_no_sep "/" pkg) by done.
  rewrite (split_on_no_sep "/" d) by done.
  rewrite (split_on_no_sep "/" (txt "temp"))
    by (apply (bool_decide_unpack _); vm_compute; exact I).
  split; [by destruct (bool_decide _)|].
  split; [by destruct (bool_decide _)|].
  split; [by destruct (bool_decide _)|].
  split.
  - intros Hne Hnt. rewrite bool_decide_eq_false_2 by done. simpl.
    apply negb_true_iff. unfold text_eqb. by apply bool_decide_eq_false.
  - intros Hnt. rewrite bool_decide_eq_false_2 by done.
    pose proof (split_on_nonempty "/" rest) as Hne.
    destruct (split_on "/" rest) as [|r1 rs]; [done|].
    unfold len. simpl length.
    assert ((Z.of_nat (S (S (S (S (S (length rs)))))) =? 4) = false) as ->
      by (apply Z.eqb_neq; lia).
    apply Z.gtb_lt. lia.
Qed.

Lemma pfilter_depth_witness :
  txt "/var/tmp/portage" ∈ pdirs default_opts
  /\ ("/"%char ∉ txt "cat") /\ ("/"%char ∉ txt "pkg-1")
  /\ ("/"%char ∉ txt "work")
  /\ pfilter default_opts (txt "/var/tmp/portage/cat/pkg-1/work") = true
  /\ pfilter default_opts (txt "/var/tmp/portage" ++ txt "/" ++ txt "cat")
     = false
  /\ pfilter default_opts
       (txt "/var/tmp/portage" ++ txt "/" ++ txt "cat" ++ txt "/"
        ++ txt "pkg-1") = false
  /\ pfilter default_opts
       (txt "/var/tmp/portage" ++ txt "/" ++ txt "cat" ++ txt "/"
        ++ txt "pkg-1" ++ txt "/temp") = false
  /\ (txt "work" <> txt "temp" ->
      txt "/var/tmp/portage" ++ txt "/" ++ txt "cat" ++ txt "/"
        ++ txt "pkg-1" ++ txt "/" ++ txt "work" ∉ tempdir default_opts ->
      pfilter default_opts
        (txt "/var/tmp/portage" ++ txt "/" ++ txt "cat" ++ txt "/"
         ++ txt "pkg-1" ++ txt "/" ++ txt "work") = true)
  /\ (txt "/var/tmp/portage" ++ txt "/" ++ txt "cat" ++ txt "/"
        ++ txt "pkg-1" ++ txt "/" ++ txt "work" ++ txt "/" ++ txt "src"
        ∉ tempdir default_opts ->
      pfilter default_opts
        (txt "/var/tmp/portage" ++ txt "/" ++ txt "cat" ++ txt "/"
         ++ txt "pkg-1" ++ txt "/" ++ txt "work" ++ txt "/" ++ txt "src")
      = true).
Proof.
  split; [left|].
  split; [apply (bool_decide_unpack _); vm_compute; exact I|].
  split; [apply (bool_decide_unpack _); vm_compute; exact I|].
  split; [apply (bool_decide_unpack _); vm_compute; exact I|].
  split; [vm_compute; reflexivity|].
  apply (pfilter_depth default_opts (txt "/var/tmp/portage") (txt "cat")
           (txt "pkg-1") (txt "work") (txt "src")).
  - left.
  - intros pd' Hin. apply list_elem_of_singleton in Hin. by subst.
  - apply (bool_decide_unpack _). vm_compute. exact I.
  - apply (bool_decide_unpack _). vm_compute. exact I.
  - apply (bool_decide_unpack _). vm_compute. exact I.
Defined.
(** ** The lock scan *)

Lemma slice_middle {A} (a b z : list A) :
  (0 < length z)%nat ->
  slice (Some (Z.of_nat (length a))) (Some (- Z.of_nat (length z)))
    (a ++ b ++ z) = b.
Proof.
  intros Hz. unfold slice, py_bound. rewrite !length_app.
  assert ((Z.of_nat (length a) <? 0) = false) as -> by (apply Z.ltb_ge; lia).
  assert ((- Z.of_nat (length z) <? 0) = true) as -> by (apply Z.ltb_lt; lia).
  replace (Z.to_nat (Z.min (Z.of_nat (length a)) _)) with (length a) by lia.
  replace (Z.to_nat (Z.max _ 0 - _)) with (length b) by lia.
  by rewrite drop_app_length, take_app_length.
Qed.

Lemma split_slashdot_cons (c d : ascii) (s : text) :
  Ascii.eqb c "/" = false ->
  split_slashdot (c :: d :: s)
  = match split_slashdot (d :: s) with
    | w :: ws => (c :: w) :: ws
    | [] => [[c]]
    end.
Proof.
  intros H.
  change (split_slashdot (c :: d :: s))
    with (if Ascii.eqb c "/" && Ascii.eqb d "." then [[]; s]
          else match split_slashdot (d :: s) with
               | w :: ws => (c :: w) :: ws
               | [] => [[c]]
               end).
  by rewrite H.
Qed.

Lemma split_slashdot_app (cat pkg : text) :
  "/"%char ∉ cat ->
  split_slashdot (cat ++ "/"%char :: "."%char :: pkg) = [cat; pkg].
Proof.
  induction cat as [|c cat IH]; intros H; [done|].
  apply not_elem_of_cons in H as [Hc Hcat].
  assert (Ascii.eqb c "/" = false) as Hcb by by apply Ascii.eqb_neq.
  specialize (IH Hcat). destruct cat as [|c' cat'].
  - change (split_slashdot ([c] ++ "/"%char :: "."%char :: pkg))
      with (split_slashdot (c :: "/"%char :: "."%char :: pkg)).
    by rewrite split_slashdot_cons.
  - change (split_slashdot ((c :: c' :: cat') ++ "/"%char :: "."%char :: pkg))
      with (split_slashdot (c :: c' :: (cat' ++ "/"%char :: "."%char :: pkg))).
    rewrite split_slashdot_cons by done.
    change (c' :: cat' ++ "/"%char :: "."%char :: pkg)
      with ((c' :: cat') ++ "/"%char :: "."%char :: pkg).
    by rewrite IH.
Qed.

Lemma append_spine (o : Opts) (W : World) (id : nat) (t : text)
    (s s' : Screen) (w : Window) :
  registry_ok s -> getwin id s = Some w ->
  append o W id t false s = Ok s' ->
  map spine (windows s') = map spine (windows s).
Proof.
  intros Hr Hw H.
  destruct (append_inv _ _ _ _ _ _ _ _ Hw H)
    as (s2 & w2 & w' & k & Hs2 & Hw2 & Hc2 & Ha & ->).
  assert (map spine (windows s2) = map spine (windows s)) as H2.
  { destruct (is_inactive id s).
    - apply redraw_frame in Hs2 as (Hc & _).
      rewrite (map_core_spine _ _ Hc).
      by apply map_core_spine, (modify_core id (set_activity (now W)) s).
    - subst s2. by apply map_core_spine, modify_core. }
  rewrite <- H2. apply append_window_data in Ha as (Hsp & _).
  eapply commit_spine; [|exact Hw2|exact Hsp].
  destruct (map_spine_wid _ _ H2) as [-> _]. apply Hr.
Qed.

Lemma pull_append_spine (o : Opts) (W : World) (id : nat) (s s' : Screen)
    (w : Window) :
  registry_ok s -> getwin id s = Some w -> pull_append o W id s = Ok s' ->
  map spine (windows s') = map spine (windows s).
Proof.
  intros Hr Hw H. unfold pull_append, pull in H.
  assert (map core (windows (modify id (set_pullts (now W)) s))
          = map core (windows s)) as Hm by by apply modify_core.
  destruct (getwin_touch id id (set_pullts (now W)) s w) as (w1 & Hw1 & Hc1);
    [done..|].
  destruct (_ =? 0).
  - injection H as <-. by apply map_core_spine.
  - rewrite <- (map_core_spine _ _ Hm).
    eapply append_spine; [|exact Hw1|exact H].
    apply (registry_ok_ext s); [|reflexivity|exact Hr].
    by apply map_core_spine.
Qed.

(** X25: the lock scan.  For a lock file
    [<pdir>/<category>/.<package>.portage_lockfile] that the scan finds,
    nothing happens when the merge in [<pdir>/<category>/<package>] has a
    window already, when the lock is not held (a stale lock file) or when
    the build log cannot be opened.  Otherwise the merge gets a window after
    the existing ones, with that very lock file as its lock, and what the
    log holds is appended to it at once. *)
Theorem find_lock_adds (o : Opts) (W : World) (pd cat pkg f : text)
    (mtime : Z) (s s' : Screen) :
  f = pd ++ txt "/" ++ cat ++ txt "/." ++ pkg ++ txt ".portage_lockfile" ->
  registry_ok s -> pd ∈ pdirs o -> "/"%char ∉ cat ->
  find_lock o W pd (mtime, f) s = Ok s' ->
  match findwin (pd ++ txt "/" ++ cat ++ txt "/" ++ pkg) s with
  | Some _ => s' = s
  | None =>
      match lock_probe W f with
      | LockHeld =>
          if can_open W (pd ++ txt "/" ++ cat ++ txt "/" ++ pkg
                            ++ txt "/temp/build.log")
          then exists id w',
            (id ∉ map wid (windows s))
            /\ map spine (windows s')
               = map spine (windows s)
                 ++ [(id, pd ++ txt "/" ++ cat ++ txt "/" ++ pkg, Some f, 0)]
            /\ getwin id s' = Some w'
            /\ stream w' = file_read W id
          else s' = s
      | LockError => False
      | _ => s' = s
      end
  end.
Proof.
  intros Hf Hr Hpd Hcat H. unfold find_lock in H. simpl snd in H.
  assert (startswith f pd = true) as E1
    by (subst f; apply startswith_prefix).
  assert (endswith f (txt ".portage_lockfile") = true) as E2.
  { subst f. unfold endswith. rewrite !app_assoc, rev_app_distr.
    apply startswith_prefix. }
  rewrite E1, E2 in H. simpl negb in H. cbv iota in H.
  assert (slice (Some (len pd + 1)) (Some (-17)) f
          = cat ++ "/"%char :: "."%char :: pkg) as Hsl.
  { assert (f = (pd ++ txt "/") ++ (cat ++ "/"%char :: "."%char :: pkg)
                  ++ txt ".portage_lockfile") as ->
      by (subst f; rewrite <- !app_assoc; reflexivity).
    unfold len.
    replace (Z.of_nat (length pd) + 1)
      with (Z.of_nat (length (pd ++ txt "/")))
      by (rewrite length_app; simpl; lia).
    apply (slice_middle (pd ++ txt "/") _ (txt ".portage_lockfile")).
    simpl. lia. }
  rewrite Hsl, split_slashdot_app in H by done.
  change (join (txt "/") [pd; cat; pkg])
    with (pd ++ txt "/" ++ cat ++ txt "/" ++ pkg) in H.
  destruct (findwin _ s) as [v|] eqn:Hfind; [by injection H as <-|].
  unfold check_lock in H.
  destruct (lock_probe W f); simpl in H; try discriminate;
    try (by injection H as <-).
  apply bind_Ok in H as ([s1 r] & Hadd & H).
  pose proof Hadd as Hadd'. unfold window_add in Hadd.
  match type of Hadd with
  | context [join _ (slice _ _ ?l)] => set (dir := l) in Hadd
  end.
  assert (join (txt "/") (slice (Some 0) (Some 3) dir)
          = pd ++ txt "/" ++ cat ++ txt "/" ++ pkg) as Ebd by reflexivity.
  assert (slice (Some 0) (Some 3) dir = [pd; cat; pkg]) as Esl
    by reflexivity.
  assert (join (txt "/") dir
          = pd ++ txt "/" ++ cat ++ txt "/" ++ pkg ++ txt "/temp/build.log")
    as Efn by reflexivity.
  rewrite Ebd, Hfind, Esl, Efn in Hadd. unfold FileTailer in Hadd.
  destruct (can_open W _).
  - 
    apply bind_Ok in Hadd as (s2 & Ha & Hadd). injection Hadd as <- <-.
    simpl in H.
    assert (registry_ok s2) as Hr2.
    { eapply steps_registry; [exact Hr|].
      apply (window_add_steps o W _ s s2 _) in Hadd' as [Hs _]; [done|].
      apply basedir_not_fetch, (pdir_length o). unfold pdir.
      by apply sort_by_len_in. }
    unfold addwin in Ha. apply redraw_frame in Ha as (Hc & _ & _).
    match type of Hc with
    | _ = map core (windows (set_windows (_ ++ [?nw]) _)) => set (neww := nw) in Hc
    end.
    change (windows (set_windows (windows s ++ [neww]) s))
      with (windows s ++ [neww]) in Hc.
    destruct (find_wid_elem (fresh_id s) (windows s2)) as [w2 Hw2].
    { rewrite (map_core_wid _ _ Hc), map_app. apply elem_of_app. right. left. }
    assert (stream w2 = []) as Hst2.
    { destruct (getwin_elem_of _ _ _ Hw2) as [Hin Hid].
      destruct (elem_of_core _ _ _ Hc Hin) as (v & Hv & E).
      apply elem_of_app in Hv as [Hv|Hv].
      - exfalso. apply (fresh_id_fresh s). rewrite <- Hid, (wid_of_core _ _ E).
        apply elem_of_map. eauto.
      - apply list_elem_of_singleton in Hv. subst v.
        by apply (f_equal snd) in E. }
    destruct (pull_append_stream o W (fresh_id s) s2 s' w2 Hw2 H)
      as (_ & w' & Hw' & _ & Hst).
    exists (fresh_id s), w'. split; [apply fresh_id_fresh|].
    split; [|split; [done|by rewrite Hst, Hst2]].
    rewrite (pull_append_spine _ _ _ _ _ _ Hr2 Hw2 H).
    rewrite (map_core_spine _ _ Hc), map_app. by rewrite Hf.
  - injection Hadd as <- <-. by injection H as <-.
Qed.

Lemma find_lock_adds_witness :
  exists s',
    sample_lock = txt "/var/tmp/portage" ++ txt "/" ++ txt "cat" ++ txt "/."
                  ++ txt "pkg-1" ++ txt ".portage_lockfile"
    /\ registry_ok (scr fetch_monitor)
    /\ txt "/var/tmp/portage" ∈ pdirs default_opts
    /\ ("/"%char ∉ txt "cat")
    /\ find_lock default_opts (world_at 5 (24, 80) (txt "log"))
         (txt "/var/tmp/portage") (4, sample_lock) (scr fetch_monitor)
       = Ok s'
    /\ map (fun w => (basedir w, lockfn w, stream w)) (windows s')
       = [(txt "_fetch", None, txt "abc");
          (txt "/var/tmp/portage/cat/pkg-1", Some sample_lock, txt "log")]
    /\ match findwin (txt "/var/tmp/portage" ++ txt "/" ++ txt "cat"
                        ++ txt "/" ++ txt "pkg-1") (scr fetch_monitor) with
       | Some _ => s' = scr fetch_monitor
       | None =>
           match lock_probe (world_at 5 (24, 80) (txt "log")) sample_lock with
           | LockHeld =>
               if can_open (world_at 5 (24, 80) (txt "log"))
                    (txt "/var/tmp/portage" ++ txt "/" ++ txt "cat"
                     ++ txt "/" ++ txt "pkg-1" ++ txt "/temp/build.log")
               then exists id w',
                 (id ∉ map wid (windows (scr fetch_monitor)))
                 /\ map spine (windows s')
                    = map spine (windows (scr fetch_monitor))
                      ++ [(id, txt "/var/tmp/portage" ++ txt "/" ++ txt "cat"
                               ++ txt "/" ++ txt "pkg-1",
                           Some sample_lock, 0)]
                 /\ getwin id s' = Some w'
                 /\ stream w'
                    = file_read (world_at 5 (24, 80) (txt "log")) id
               else s' = scr fetch_monitor
           | LockError => False
           | _ => s' = scr fetch_monitor
           end
       end.
Proof.
  assert (registry_ok (scr fetch_monitor)) as Hr.
  { apply (run_registry_ok default_opts (world_at 0 (24, 80) [])
             [(world_at 1 (24, 80) (txt "abc"), IN_MODIFY fetchlog)]).
    vm_compute. reflexivity. }
  eexists. split; [reflexivity|]. split; [exact Hr|]. split; [left|].
  split; [apply (bool_decide_unpack _); vm_compute; exact I|].
  split; [vm_compute; reflexivity|]. split; [vm_compute; reflexivity|].
  apply (find_lock_adds default_opts (world_at 5 (24, 80) (txt "log"))
           (txt "/var/tmp/portage") (txt "cat") (txt "pkg-1") sample_lock 4
           (scr fetch_monitor)).
  - reflexivity.
  - exact Hr.
  - left.
  - apply (bool_decide_unpack _). vm_compute. exact I.
  - vm_compute. reflexivity.
Defined.
(** ** Title bars *)

Lemma split_max_0 (sep : ascii) (s : text) : split_max sep s 0 = [s].
Proof. by destruct s. Qed.

Lemma split_max_app (sep : ascii) (a b : text) (n : nat) :
  sep ∉ a ->
  split_max sep (a ++ sep :: b) (S n) = a :: split_max sep b n.
Proof.
  induction a as [|c a IH]; simpl; intros H.
  - by rewrite Ascii.eqb_refl.
  - apply not_elem_of_cons in H as [Hc Hs].
    destruct (Ascii.eqb_spec c sep); [congruence|]. by rewrite IH.
Qed.

Lemma not_elem_of_rev (c : ascii) (s : text) : c ∉ s -> c ∉ rev s.
Proof.
  intros H Hin. apply H. apply list_elem_of_In, in_rev.
  by apply list_elem_of_In.
Qed.

Lemma rsplit_source (pd cat pkg : text) :
  "/"%char ∉ cat -> "/"%char ∉ pkg ->
  rsplit "/" (pd ++ txt "/" ++ cat ++ txt "/" ++ pkg) 2 = [pd; cat; pkg].
Proof.
  intros Hcat Hpkg. unfold rsplit.
  repeat change (txt "/" ++ ?x) with ("/"%char :: x).
  assert (rev (pd ++ "/"%char :: cat ++ "/"%char :: pkg)
          = rev pkg ++ "/"%char :: rev cat ++ "/"%char :: rev pd) as ->.
  { rewrite rev_app_distr. simpl. rewrite rev_app_distr. simpl.
    by rewrite <- !app_assoc. }
  rewrite !split_max_app, split_max_0 by by apply not_elem_of_rev.
  simpl. by rewrite !rev_involutive.
Qed.

Lemma source_not_fetch (pd cat pkg : text) :
  text_eqb (pd ++ txt "/" ++ cat ++ txt "/" ++ pkg) (txt "_fetch") = false.
Proof.
  unfold text_eqb. apply bool_decide_eq_false. intros E.
  assert ("/"%char ∈ txt "_fetch") as Hin.
  { rewrite <- E. apply elem_of_app. right. left. }
  revert Hin. apply (bool_decide_unpack _). vm_compute. exact I.
Qed.

Lemma title_bar_source (W : World) (fpd : text) (w : Window) (n : CWin)
    (pd cat pkg : text) :
  basedir w = pd ++ txt "/" ++ cat ++ txt "/" ++ pkg ->
  "/"%char ∉ cat -> "/"%char ∉ pkg ->
  map snd (cw_out (title_bar W fpd w n))
  = map snd (cw_out n)
    ++ (txt "[" ++ cat ++ txt "/" ++ pkg ++ txt "]")
       :: (if text_eqb pd fpd then []
           else [txt " (in " ++ pd ++ txt ")"]).
Proof.
  intros Hb Hcat Hpkg. unfold title_bar.
  rewrite Hb, source_not_fetch, rsplit_source by done.
  change (slice (Some 1) (Some 3) [pd; cat; pkg]) with [cat; pkg].
  simpl. destruct (text_eqb pd fpd); simpl; rewrite !map_app; simpl;
    by rewrite <- !app_assoc.
Qed.

Lemma tile_titles (o : Opts) (W : World) (width bl : Z) (inact : list nat)
    (fpd : text) (ws ws' : list Window) (t : Tiling)
    (k k' : gmap (Z * Z) Z * list Bell) (w' : Window) (n : CWin) :
  tile o W width bl inact fpd ws t k = Ok (ws', k') ->
  w' ∈ ws' -> nwin w' = Some n ->
  exists y, n = title_bar W fpd w' (newwin 1 width y 0).
Proof.
  revert ws' t k k'. induction ws as [|v ws IH]; intros ws' t k k' H Hin Hn;
    simpl in H.
  - injection H as <- <-. by apply elem_of_nil in Hin.
  - destruct (_ && _).
    + apply bind_Ok in H as ([w2 k2] & Ha & H).
      apply bind_Ok in H as ([rest' k3] & Ht & H). injection H as <- <-.
      apply elem_of_cons in Hin as [->|Hin]; [|by eapply IH].
      simpl in Hn. injection Hn as <-. eexists. reflexivity.
    + apply bind_Ok in H as ([rest' k3] & Ht & H). injection H as <- <-.
      apply elem_of_cons in Hin as [->|Hin]; [done|by eapply IH].
Qed.

(** X26: the title bars.  After a redraw the title bar of every merge
    window on the screen reads [\[<category>/<package>\]], followed by
    [ (in <pdir>)] when the merge is not in the first temporary
    directory. *)
Theorem redraw_titles (o : Opts) (W : World) (s s' : Screen) (w' : Window)
    (n : CWin) (pd cat pkg : text) :
  redraw o W s = Ok s' -> w' ∈ windows s' -> nwin w' = Some n ->
  basedir w' = pd ++ txt "/" ++ cat ++ txt "/" ++ pkg ->
  "/"%char ∉ cat -> "/"%char ∉ pkg ->
  map snd (cw_out n)
  = (txt "[" ++ cat ++ txt "/" ++ pkg ++ txt "]")
    :: (if text_eqb pd (firstpdir s') then []
        else [txt " (in " ++ pd ++ txt ")"]).
Proof.
  intros H Hin Hn Hb Hcat Hpkg. unfold redraw in H.
  destruct (getmaxyx W) as [height width]. destruct (_ >? 0).
  - apply bind_Ok in H as ([[rows shown] extra] & _ & H).
    apply bind_Ok in H as ([ws k] & Ht & H). injection H as <-.
    simpl in Hin |- *.
    destruct (tile_titles _ _ _ _ _ _ _ _ _ _ _ _ _ Ht Hin Hn) as [y ->].
    by rewrite (title_bar_source W _ w' _ pd cat pkg Hb Hcat Hpkg).
  - injection H as <-. simpl in Hin.
    apply elem_of_map in Hin as (v & -> & _). done.
Qed.

Lemma redraw_titles_witness :
  exists s' w' n,
    redraw patient_opts (world_at 101 (24, 80) []) (scr patient_monitor)
    = Ok s'
    /\ w' ∈ windows s' /\ nwin w' = Some n
    /\ basedir w' = txt "/var/tmp/portage" ++ txt "/" ++ txt "cat" ++ txt "/"
                    ++ txt "pkg-1"
    /\ ("/"%char ∉ txt "cat") /\ ("/"%char ∉ txt "pkg-1")
    /\ map snd (cw_out n) = [txt "[cat/pkg-1]"]
    /\ map snd (cw_out n)
       = (txt "[" ++ txt "cat" ++ txt "/" ++ txt "pkg-1" ++ txt "]")
         :: (if text_eqb (txt "/var/tmp/portage") (firstpdir s') then []
             else [txt " (in " ++ txt "/var/tmp/portage" ++ txt ")"]).
Proof.
  eexists _, _, _. split; [vm_compute; reflexivity|].
  split; [left|]. split; [vm_compute; reflexivity|].
  split; [vm_compute; reflexivity|].
  split; [apply (bool_decide_unpack _); vm_compute; exact I|].
  split; [apply (bool_decide_unpack _); vm_compute; exact I|].
  split; [vm_compute; reflexivity|].
  eapply (redraw_titles patient_opts (world_at 101 (24, 80) [])
            (scr patient_monitor)).
  - vm_compute. reflexivity.
  - left.
  - vm_compute. reflexivity.
  - vm_compute. reflexivity.
  - apply (bool_decide_unpack _). vm_compute. exact I.
  - apply (bool_decide_unpack _). vm_compute. exact I.
Defined.
(** ** SGR state and chunk boundaries *)

(** [append_shown], with the colour cache the call leaves behind. *)
Lemma append_shown_colors (o : Opts) (W : World) (id : nat) (t : text)
    (omit : bool) (s s' : Screen) (w : Window) (c : CWin) :
  getwin id s = Some w -> win w = Some c -> is_inactive id s = false ->
  append o W id t omit s = Ok s' ->
  exists d w',
    interp o W 0 (escregex_split (chunk_body t))
      (pen_up (if newline w then addstr W [LF] c else c) (colors s, bells s))
    = Ok d
    /\ getwin id s' = Some w'
    /\ win w' = Some (d_win d)
    /\ newline w' = endswith t [LF]
    /\ is_inactive id s' = false
    /\ colors s' = d_colors d.
Proof.
  intros Hw Hc Hi H. unfold append in H.
  assert (is_inactive id (modify id (set_activity (now W)) s) = false) as Hi'
    by exact Hi.
  rewrite Hi' in H. simpl in H.
  rewrite getwin_modify, Hw in H by done. simpl in H.
  rewrite (getwin_wid _ _ _ Hw), Nat.eqb_refl in H.
  apply bind_Ok in H as ([w' k] & Ha & H). injection H as <-.
  pose proof (append_window_wid _ _ _ _ _ _ _ _ _ Ha) as Hid. simpl in Hid.
  rewrite (getwin_wid _ _ _ Hw) in Hid.
  unfold append_window in Ha.
  destruct omit; simpl in Ha; rewrite Hc in Ha;
    apply bind_Ok in Ha as (d & Hd & Ha); injection Ha as <- <-;
    exists d; eexists; (split; [exact Hd|]);
    rewrite getwin_commit, getwin_modify, Hw by done; simpl;
    unfold set_wins, set_newline, set_backlog, set_activity; simpl;
    rewrite (getwin_wid _ _ _ Hw), !Nat.eqb_refl; done.
Qed.

(** [ESC \[ 1 m] adds bold to the mode of the running [append]. *)
Lemma csi_bold (o : Opts) (W : World) (d : Draw) (n : Z) :
  d_colors d !! (d_fgcol d, d_bgcol d) = Some n ->
  csi o W (ESC :: txt "[1m") d
  = Ok (set_win
          (attrset (Z.lor (Z.lor (d_mode d) A_BOLD) (color_pair n)) (d_win d))
          (set_pen (Z.lor (d_mode d) A_BOLD) (d_fgcol d) (d_bgcol d) d)).
Proof.
  intros Hk. unfold csi. simpl. unfold sgr. simpl.
  unfold getcolor. simpl. by rewrite Hk.
Qed.

(** [ESC \[ 3 1 m] sets the foreground to red and keeps that mode. *)
Lemma csi_red (o : Opts) (W : World) (d : Draw) :
  csi o W (ESC :: txt "[31m") d
  = bind (getcolor o W COLOR_RED (d_bgcol d)
            (set_pen (d_mode d) COLOR_RED (d_bgcol d) d))
      (fun r => Ok (set_win (attrset (Z.lor (d_mode r.2) r.1) (d_win r.2))
                      r.2)).
Proof.
  unfold csi. simpl. unfold sgr. simpl.
  destruct (getcolor _ _ _ _ _) as [[cp d2]|e]; done.
Qed.

(** [getcolor] reads and writes the colour cache and nothing else. *)
Lemma getcolor_cache_only (o : Opts) (W : World) (fg bg cp : Z)
    (d d' d0 : Draw) :
  d_colors d0 = d_colors d -> getcolor o W fg bg d = Ok (cp, d') ->
  (exists n, cp = color_pair n)
  /\ d_mode d' = d_mode d /\ d_win d' = d_win d
  /\ exists d0', getcolor o W fg bg d0 = Ok (cp, d0')
                 /\ d_mode d0' = d_mode d0 /\ d_win d0' = d_win d0
                 /\ d_colors d0' = d_colors d'.
Proof.
  intros E H. unfold getcolor in *. rewrite E.
  destruct (d_colors d !! (fg, bg)) as [n|].
  - injection H as <- <-. eauto 10.
  - destruct (COLOR_PAIRS W <=? _).
    + destruct (debug o); [discriminate|].
      injection H as <- <-. eauto 10.
    + injection H as <- <-. simpl. eauto 10.
Qed.

(** The three steps of a chunk [ESC \[ 1 m]. *)
Lemma interp_bold_chunk (o : Opts) (W : World) (d d' : Draw) :
  d_mode d = 0 -> d_colors d !! (d_fgcol d, d_bgcol d) = Some 0 ->
  interp o W 0 (escregex_split (chunk_body (ESC :: txt "[1m"))) d = Ok d' ->
  d_mode d' = A_BOLD /\ d_fgcol d' = d_fgcol d /\ d_bgcol d' = d_bgcol d
  /\ d_colors d' = d_colors d /\ cw_attr (d_win d') = A_BOLD.
Proof.
  intros Hm Hk H.
  change (escregex_split (chunk_body (ESC :: txt "[1m")))
    with [[]; ESC :: txt "[1m"; []] in H.
  cbn [interp] in H.
  apply bind_Ok in H as (a & Ha & H). apply bind_Ok in H as (b & Hb & H).
  apply bind_Ok in H as (e & He & H). injection H as <-.
  change (interp_item o W 0 [] d)
    with (Ok (set_win (addstr W [] (d_win d)) d)) in Ha.
  injection Ha as <-.
  change (interp_item o W 1 (ESC :: txt "[1m") ?x)
    with (csi o W (ESC :: txt "[1m") x) in Hb.
  rewrite (csi_bold o W _ 0) in Hb by exact Hk. injection Hb as <-.
  change (interp_item o W 2 [] ?x)
    with (Ok (set_win (addstr W [] (d_win x)) x)) in He.
  injection He as <-. simpl. rewrite Hm. done.
Qed.

(** C9 (defect): the mode and the colours an SGR sequence sets live in
    locals of [append] that start from the default at every call, while the
    attribute they produced stays in the curses window.  So where a read
    boundary falls between two SGR sequences, the second one forgets the
    first: after [ESC \[ 1 m] in one chunk, [ESC \[ 3 1 m X] in the next
    draws [X] red and not bold, whereas the same text appended as one
    chunk, which is also what a redraw replays from the backlog, draws it
    bold and red. *)
Theorem sgr_state_lost_between_chunks (o : Opts) (W1 W2 : World) (id : nat)
    (s0 s1 s2 s12 : Screen) (w0 : Window) (c0 : CWin) :
  getwin id s0 = Some w0 -> win w0 = Some c0 -> is_inactive id s0 = false ->
  colors s0 !! (-1, -1) = Some 0 ->
  append o W1 id (ESC :: txt "[1m") false s0 = Ok s1 ->
  append o W2 id (ESC :: txt "[31mX") false s1 = Ok s2 ->
  append o W2 id (ESC :: txt "[1m" ++ ESC :: txt "[31mX") false s0 = Ok s12 ->
  exists n w2 c2 out2 w12 c12 out12,
    getwin id s2 = Some w2 /\ win w2 = Some c2
    /\ cw_out c2 = out2 ++ [(color_pair n, txt "X")]
    /\ getwin id s12 = Some w12 /\ win w12 = Some c12
    /\ cw_out c12 = out12 ++ [(Z.lor A_BOLD (color_pair n), txt "X")].
Proof.
  intros Hw0 Hc0 Hi0 Hk H1 H2 H12.
  destruct (append_shown_colors _ _ _ _ _ _ _ _ _ Hw0 Hc0 Hi0 H1)
    as (d1 & w1 & Hd1 & Hw1 & Hc1 & Hn1 & Hi1 & Hk1).
  apply interp_bold_chunk in Hd1 as (Hm1 & Hf1 & Hb1 & Hcol1 & Ha1);
    [|reflexivity|exact Hk].
  simpl in Hcol1.
  destruct (append_shown_colors _ _ _ _ _ _ _ _ _ Hw1 Hc1 Hi1 H2)
    as (d2 & w2 & Hd2 & Hw2 & Hc2 & _ & _ & _).
  change (endswith (ESC :: txt "[1m") [LF]) with false in Hn1.
  rewrite Hn1 in Hd2.
  change (escregex_split (chunk_body (ESC :: txt "[31mX")))
    with [[]; ESC :: txt "[31m"; txt "X"] in Hd2.
  cbn [interp] in Hd2.
  apply bind_Ok in Hd2 as (a & Ha & Hd2). apply bind_Ok in Hd2 as (b & Hb & Hd2).
  apply bind_Ok in Hd2 as (e & He & Hd2). injection Hd2 as <-.
  change (interp_item o W2 0 [] ?x)
    with (Ok (set_win (addstr W2 [] (d_win x)) x)) in Ha.
  injection Ha as <-.
  change (interp_item o W2 1 (ESC :: txt "[31m") ?x)
    with (csi o W2 (ESC :: txt "[31m") x) in Hb.
  rewrite csi_red in Hb. apply bind_Ok in Hb as ([cp g] & Hg & Hb).
  injection Hb as <-.
  change (interp_item o W2 2 (txt "X") ?x)
    with (Ok (set_win (addstr W2 (txt "X") (d_win x)) x)) in He.
  injection He as <-.
  destruct (append_shown_colors _ _ _ _ _ _ _ _ _ Hw0 Hc0 Hi0 H12)
    as (d12 & w12 & Hd12 & Hw12 & Hc12 & _ & _ & _).
  change (escregex_split
            (chunk_body (ESC :: txt "[1m" ++ ESC :: txt "[31mX")))
    with (escregex_split (chunk_body (ESC :: txt "[1m"))
          ++ [ESC :: txt "[31m"; txt "X"]) in Hd12.
  rewrite interp_app in Hd12. apply bind_Ok in Hd12 as (d1' & Hd1' & Hd12).
  apply interp_bold_chunk in Hd1' as (Hm1' & Hf1' & Hb1' & Hcol1' & _);
    [|reflexivity|exact Hk].
  change (escregex_split (chunk_body (ESC :: txt "[1m")))
    with [[]; ESC :: txt "[1m"; []] in Hd12.
  cbn [interp length Nat.add] in Hd12.
  apply bind_Ok in Hd12 as (b' & Hb' & Hd12).
  apply bind_Ok in Hd12 as (e' & He' & Hd12). injection Hd12 as <-.
  change (interp_item o W2 3 (ESC :: txt "[31m") ?x)
    with (csi o W2 (ESC :: txt "[31m") x) in Hb'.
  rewrite csi_red in Hb'. apply bind_Ok in Hb' as ([cp' g'] & Hg' & Hb').
  injection Hb' as <-.
  change (interp_item o W2 4 (txt "X") ?x)
    with (Ok (set_win (addstr W2 (txt "X") (d_win x)) x)) in He'.
  injection He' as <-.
  simpl in Hf1', Hb1', Hcol1'. rewrite Hb1' in Hg'.
  simpl in Hg.
  match type of Hg with
  | getcolor _ _ _ _ ?dd = _ =>
      destruct (getcolor_cache_only o W2 COLOR_RED (-1) cp dd g
                  (set_pen (d_mode d1') COLOR_RED (-1) d1')) as
        ([n ->] & Hmg & _ & g0 & Hg0 & Hmg0 & _); [|exact Hg|]
  end.
  { simpl. by rewrite Hcol1', Hk1, Hcol1. }
  rewrite Hg0 in Hg'. injection Hg' as <- <-.
  exists n, w2. do 2 eexists. exists w12. do 2 eexists.
  split; [exact Hw2|]. split; [exact Hc2|]. split.
  { simpl. rewrite Hmg. simpl. reflexivity. }
  split; [exact Hw12|]. split; [exact Hc12|].
  simpl. rewrite Hmg0. simpl. rewrite Hm1'. reflexivity.
Qed.

Lemma sgr_state_lost_between_chunks_witness :
  let s0 := scr fetch_monitor in
  let W := world_at 2 (24, 80) [] in
  exists w0 c0 s1 s2 s12,
    getwin 1%nat s0 = Some w0 /\ win w0 = Some c0
    /\ is_inactive 1%nat s0 = false
    /\ colors s0 !! (-1, -1) = Some 0
    /\ append default_opts W 1%nat (ESC :: txt "[1m") false s0 = Ok s1
    /\ append default_opts W 1%nat (ESC :: txt "[31mX") false s1 = Ok s2
    /\ append default_opts W 1%nat (ESC :: txt "[1m" ++ ESC :: txt "[31mX")
         false s0 = Ok s12
    /\ exists n w2 c2 out2 w12 c12 out12,
         getwin 1%nat s2 = Some w2 /\ win w2 = Some c2
         /\ cw_out c2 = out2 ++ [(color_pair n, txt "X")]
         /\ getwin 1%nat s12 = Some w12 /\ win w12 = Some c12
         /\ cw_out c12 = out12 ++ [(Z.lor A_BOLD (color_pair n), txt "X")].
Proof.
  intros s0 W. do 5 eexists.
  split; [vm_compute; reflexivity|]. split; [vm_compute; reflexivity|].
  split; [vm_compute; reflexivity|]. split; [vm_compute; reflexivity|].
  split; [vm_compute; reflexivity|]. split; [vm_compute; reflexivity|].
  split; [vm_compute; reflexivity|].
  eapply (sgr_state_lost_between_chunks default_opts W W 1%nat s0);
    vm_compute; reflexivity.
Defined.

(** The same on the fetch log, as it is drawn when it arrives in two reads
    and as the next redraw replays it from the backlog: the last run is [X]
    in red (256 is the colour pair of red on the default background) and
    then [X] in bold red (2097408 is 256 with [A_BOLD]). *)
Example chunked_sgr_drawn_and_replayed :
  let m :=
    get_ok empty_monitor
      (run default_opts (world_at 0 (24, 80) [])
         [(world_at 1 (24, 80) (ESC :: txt "[1m"), IN_MODIFY fetchlog);
          (world_at 2 (24, 80) (ESC :: txt "[31mX"), IN_MODIFY fetchlog)]) in
  let shown (s : Screen) :=
    (fun w => (backlog w, (fun c => last (cw_out c)) <$> win w))
      <$> getwin 1%nat s in
  shown (scr m)
  = Some (ESC :: txt "[1m" ++ ESC :: txt "[31mX",
          Some (Some (color_pair 1, txt "X")))
  /\ shown (get_ok empty_screen
              (redraw default_opts (world_at 3 (24, 80) []) (scr m)))
     = Some (ESC :: txt "[1m" ++ ESC :: txt "[31mX",
             Some (Some (Z.lor A_BOLD (color_pair 1), txt "X")))
  /\ color_pair 1 = 256 /\ Z.lor A_BOLD (color_pair 1) = 2097408.
Proof. vm_compute. done. Qed.
(** * The design document's invariants and scenarios *)

(** ** The fetch log's window and close events *)




(** ** The layout on a small terminal *)



(** ** The expected-close counter *)



(** ** The lock poll finds the lock released *)






(** ** Redrawing and the inactivity clock *)







(** The same in a run.  A build log gets its last data at second 2; the
    timer sweep at second 40 finds it idle for more than the 30 seconds of
    the default timeout and hides it.  If the fetch log produces its first
    line at second 25, which adds a window and redraws, the same sweep
    leaves the build window active. *)
Example idle_window_kept_by_redraw :
  (exists m,
     run default_opts (world_at 0 (24, 80) [])
       [(world_at 1 (24, 80) [], IN_CREATE false sample_log);
        (world_at 2 (24, 80) (txt "compiling"), IN_MODIFY sample_log);
        (world_at 40 (24, 80) [], Timer)] = Ok m
     /\ inactive (scr m) = [1%nat]
     /\ map lastdata (windows (scr m)) = [2])
  /\ (exists m,
        run default_opts (world_at 0 (24, 80) [])
          [(world_at 1 (24, 80) [], IN_CREATE false sample_log);
           (world_at 2 (24, 80) (txt "compiling"), IN_MODIFY sample_log);
           (world_at 25 (24, 80) (txt "fetching"), IN_MODIFY fetchlog);
           (world_at 40 (24, 80) [], Timer)] = Ok m
        /\ inactive (scr m) = []
        /\ map lastdata (windows (scr m)) = [2; 25]
        /\ map activity (windows (scr m)) = [25; 25]).
Proof.
  split; eexists; (split; [vm_compute; reflexivity|]); vm_compute; done.
Qed.

(** ** The backlog over a run *)




